(** * The WebSocket subscription engine of the external adapters

    A shallow embedding of the WebSocket epics module: the [deserializer],
    [connectEpic] and the streams it builds for every connection
    ([multiplexSubscriptions$], [withCache$], [unsubscribeOnTimeout$],
    [unsubscribeOnNoResponse$], [ws$]).

    The epic is a composition of RxJS operators over the hot action stream
    [action$], the store's [state$] and the socket.  A run of the program is
    recorded as a trace: a list of instants, each holding what happened (an
    action was dispatched, the socket delivered a message, one millisecond
    elapsed, ...) and the store state current at that instant.  An observable
    is then a function from the position of an instant in the trace to the
    notifications it delivers at that instant, and each RxJS operator used by
    the source becomes a function on such observables.

    What the model takes from outside the module:
    - the trace is arbitrary: actions, socket events and states are inputs;
      the socket is not modelled, and of the reducer, which is not part of
      the module, only what the connection guard relies on, as a condition
      on traces ([storeTracksConnections]);
    - a connection stream is subscribed when the guard accepts a [connect]
      action and completes when its connection is reported disconnected:
      what a stream sends, writes or emits is read on [ws$] and on
      [connectEpic], over the connections that are live at that instant;
    - time advances by [Tick] events of one millisecond, and a timer fires at
      the tick that completes its delay, so every timer firing is ordered
      with respect to every action;
    - the callbacks of the provider's handler are total functions, except
      [toResponse], which may throw; [getSubsId], [JSON.parse] and the
      outcomes of the calls into the cache are parameters;
    - the socket subject reports a close on [closeObserver] before it
      completes or fails its observers, so the only terminal notification
      that a multiplexed stream is modelled to receive is an error;
    - a promise settles at the instant it is created;
    - the collectors of [./metrics] accept every label object, and
      [getFeedId] is a parameter.

    The development also covers [metricsEpic] and [rootEpic] of the same
    module, and two transports of provider adapters: the accounts endpoint
    of the Bank Frick adapter and the websocket transport of the DxFeed
    adapter, each in a module of its own with the assumptions it makes. *)

From stdpp Require Import base strings list gmap pretty sorting.
From Stdlib Require Import ZArith Lia Ascii.

Open Scope string_scope.
Open Scope list_scope.
Open Scope nat_scope.

(** ** JavaScript values *)

(** Messages, inputs and subscription messages are plain JSON-like objects.
    Numbers are restricted to integers. *)
#[warnings="-register-all"]
Inductive Value : Type :=
  | VUndefined
  | VNull
  | VBool (b : bool)
  | VNum (n : Z)
  | VStr (s : string)
  | VObj (fields : list (string * Value)).

(** [assoc k fs]: the value of the first field named [k]. *)
Fixpoint assoc (k : string) (fs : list (string * Value)) : option Value :=
  match fs with
  | [] => None
  | (k', v) :: rest => if String.eqb k k' then Some v else assoc k rest
  end.

(** [v.k]; reading a missing property gives [undefined]. *)
Definition prop (k : string) (v : Value) : Value :=
  match v with
  | VObj fs => default VUndefined (assoc k fs)
  | _ => VUndefined
  end.

(** [{...v}]: the own properties of an object; spreading [undefined], [null]
    or a primitive gives no property. *)
Definition spread (v : Value) : list (string * Value) :=
  match v with
  | VObj fs => fs
  | _ => []
  end.

(** [{...fs, k: v}]: a later property overrides an earlier one of the same
    name and keeps its place; a new one is added at the end. *)
Fixpoint setProp (k : string) (v : Value) (fs : list (string * Value))
  : list (string * Value) :=
  match fs with
  | [] => [(k, v)]
  | (k', v') :: rest =>
      if String.eqb k k' then (k, v) :: rest else (k', v') :: setProp k v rest
  end.

(** JavaScript truthiness, as used by [!x], [!!x] and [x || y]. *)
Definition truthy (v : Value) : bool :=
  match v with
  | VUndefined | VNull => false
  | VBool b => b
  | VNum n => negb (n =? 0)%Z
  | VStr s => negb (String.eqb s "")
  | VObj _ => true
  end.

(** [a || b] *)
Definition orElse (a b : Value) : Value := if truthy a then a else b.

(** A computation that may throw (or a promise that may reject). *)
Inductive Completion (A : Type) : Type :=
  | Normal (a : A)
  | Throw (msg : string).
Arguments Normal {A} a.
Arguments Throw {A} msg.

(** ** Store state ([state.ws]) *)

Record ConnectionsState : Type := {
  active : gmap string bool;       (* state.ws.connections.active *)
  connecting : gmap string Z;      (* state.ws.connections.connecting *)
}.

Record SubscriptionState : Type := {
  sub_active : bool;               (* subscriptions[key].active *)
  sub_input : Value;               (* subscriptions[key].input *)
}.

Record State : Type := {
  connections : ConnectionsState;
  subscriptions : gmap string SubscriptionState;
}.

(** ** Payloads and actions ([./actions]) *)

Record ConnectionInfo : Type := { key : string; url : string }.

Record WSConfig : Type := {
  connectionInfo : ConnectionInfo;
  subscriptionTTL : nat;               (* milliseconds *)
  subscriptionUnresponsiveTTL : nat;   (* milliseconds *)
}.

(** The provider's handler.  Its callbacks are pure functions of their
    argument; [toResponse] may throw. *)
Module WSHandler.
Record t : Type := {
    url : string;                          (* connection.url *)
    protocol : Value;                      (* connection.protocol *)
    subscribe : Value -> Value;
    unsubscribe : Value -> Value;
    subsFromMessage : Value -> Value;
    isError : Value -> bool;
    filter : Value -> bool;
    toResponse : Value -> Completion Value;
  }.
End WSHandler.

Record WSConfigPayload : Type := {
  config : WSConfig;
  wsHandler : WSHandler.t;
}.

Record WSSubscriptionPayload : Type := {
  sp_connectionInfo : ConnectionInfo;
  subscriptionMsg : Value;
  input : Value;
}.

Record WSMessagePayload : Type := {
  message : Value;
  subscriptionKey : string;
}.

Record WSErrorPayload : Type := {
  ep_connectionInfo : ConnectionInfo;
  ep_message : string;
}.

Inductive Action : Type :=
  | connect (payload : WSConfigPayload)
  | connected (payload : WSConfigPayload)
  | connectionError (payload : WSErrorPayload)
  | disconnect (payload : WSConfigPayload)
  | disconnected (payload : WSConfigPayload)
  | subscribe (payload : WSSubscriptionPayload)
  | subscribed (payload : WSSubscriptionPayload)
  | unsubscribe (payload : WSSubscriptionPayload)
  | unsubscribed (payload : WSSubscriptionPayload)
  | messageReceived (payload : WSMessagePayload)
  | otherAction (type : string).

Definition WSMessagePayload_key := subscriptionKey.

(** [x.match(action)] followed by a use of [action.payload]. *)
Module Match.
Definition connect (a : Action) : option WSConfigPayload :=
    match a with connect p => Some p | _ => None end.
Definition disconnect (a : Action) : option WSConfigPayload :=
    match a with disconnect p => Some p | _ => None end.
Definition disconnected (a : Action) : option WSConfigPayload :=
    match a with disconnected p => Some p | _ => None end.
Definition subscribe (a : Action) : option WSSubscriptionPayload :=
    match a with subscribe p => Some p | _ => None end.
Definition unsubscribe (a : Action) : option WSSubscriptionPayload :=
    match a with unsubscribe p => Some p | _ => None end.
Definition messageReceived (a : Action) : option WSMessagePayload :=
    match a with messageReceived p => Some p | _ => None end.
End Match.

(** ** Traces *)

(** What can happen at one instant of a run.  A socket is named by the
    position of the [connect] action for which [webSocket(...)] was called. *)
Inductive Event : Type :=
  | Tick                                    (* one millisecond elapses; due timers fire *)
  | Dispatch (a : Action)                   (* [a] is delivered on [action$] *)
  | SocketOpen (sock : nat)                 (* openObserver.next *)
  | SocketClose (sock : nat)                (* closeObserver.next *)
  | SocketMessage (sock : nat) (data : Value)  (* socket.onmessage, [data] is the event *)
  | SocketError (sock : nat) (err : string).   (* the socket subject errors its observers *)

(** An instant: the event and the latest value of [state$]. *)
Definition Trace : Type := list (Event * State).

Definition isTick (e : Event * State) : bool :=
  match e with (Tick, _) => true | _ => false end.

(** Milliseconds elapsed before position [n]. *)
Definition clock (tr : Trace) (n : nat) : nat :=
  length (List.filter isTick (take n tr)).

(** ** Observables *)

(** What an observable delivers to its observer. *)
Inductive Notification (A : Type) : Type :=
  | Next (a : A)
  | Error (msg : string)
  | Complete.
Arguments Next {A} a.
Arguments Error {A} msg.
Arguments Complete {A}.

(** An observable, seen by one subscriber: the notifications delivered at
    each position of the trace, in order of delivery. *)
Definition Obs (A : Type) : Type := nat -> list (Notification A).

Module Rx.
Section Operators.
Context {A : Type}.

Definition isTerminal (x : Notification A) : bool :=
  match x with Next _ => false | _ => true end.

(** The values among some notifications. *)
Definition values (l : list (Notification A)) : list A :=
  omap (fun x => match x with Next a => Some a | _ => None end) l.

(** Notifications up to and including the first terminal one. *)
Fixpoint cut (l : list (Notification A)) : list (Notification A) :=
  match l with
  | [] => []
  | x :: rest => if isTerminal x then [x] else x :: cut rest
  end.

(** Has [o] completed or failed at a position before [n]? *)
Fixpoint closedBefore (o : Obs A) (n : nat) : bool :=
  match n with
  | 0 => false
  | S k => closedBefore o k || existsb isTerminal (o k)
  end.

(** Nothing is delivered after a terminal notification. *)
Definition seal (o : Obs A) : Obs A :=
  fun n => if closedBefore o n then [] else cut (o n).

(** Has [o] delivered a value at a position before [n]? *)
Fixpoint emittedBefore (o : Obs A) (n : nat) : bool :=
  match n with
  | 0 => false
  | S k => emittedBefore o k || negb (bool_decide (values (o k) = []))
  end.

(** A hot observable as seen by an observer that subscribes while the
    event at position [i] is being delivered: a [Subject] delivers to the
    observers it had when delivery began, so the new observer sees the
    events after [i] only. *)
Definition subscribedAt (i : nat) (o : Obs A) : Obs A :=
  fun n => if i <? n then o n else [].

(** [of(x1, ..., xk)] subscribed at position [i]. *)
Definition of_ (i : nat) (xs : list A) : Obs A :=
  fun n => if n =? i then (Next <$> xs) ++ [Complete] else [].

(** [filter(p)] *)
Definition filter (p : A -> bool) (o : Obs A) : Obs A :=
  fun n => List.filter
             (fun x => match x with Next a => p a | _ => true end) (o n).

(** [tap(f)]: the stream is unchanged. *)
Definition tap (o : Obs A) : Obs A := o.

(** [take(1)] *)
Definition take1 (o : Obs A) : Obs A :=
  seal (fun n => x ← o n;
                 match x with Next a => [Next a; Complete] | t => [t] end).

(** [merge(o1, ..., ok)] of observables of which at least one never
    completes: values and errors pass, in the order of the arguments. *)
Definition merge (os : list (Obs A)) : Obs A :=
  seal (fun n => o ← os;
                 List.filter
                   (fun x => match x with Complete => false | _ => true end)
                   (o n)).

(** [endWith(x)] *)
Definition endWith (x : A) (o : Obs A) : Obs A :=
  fun n => y ← o n;
           match y with Complete => [Next x; Complete] | t => [t] end.

(** Who delivers first, among the positions before [n]; the first argument
    when both deliver at one position. *)
Fixpoint winner (o1 o2 : Obs A) (n : nat) : option bool :=
  match n with
  | 0 => None
  | S k =>
      match winner o1 o2 k with
      | Some w => Some w
      | None =>
          match o1 k, o2 k with
          | _ :: _, _ => Some true
          | [], _ :: _ => Some false
          | [], [] => None
          end
      end
  end.

(** [race(o1, o2)]: mirrors the first one to deliver a notification. *)
Definition race (o1 o2 : Obs A) : Obs A :=
  fun n => match winner o1 o2 (S n) with
           | Some true => o1 n
           | Some false => o2 n
           | None => []
           end.

(** [catchError(handler)]: the error is replaced by the observable the
    handler returns, subscribed where the error arrives. *)
Definition catchError (handler : nat -> string -> Obs A) (o : Obs A) : Obs A :=
  fun n => p ← seq 0 (S n);
           x ← seal o p;
           match x with
           | Next a => if p =? n then [Next a] else []
           | Complete => if p =? n then [Complete] else []
           | Error e => handler p e n
           end.

End Operators.

Section Operators2.
Context {A B : Type}.

(** [takeUntil(notifier)].  The operator subscribes to the notifier before
    it subscribes to its source, so an event that reaches both reaches the
    notifier first: from the first value of the notifier on, nothing of the
    source passes. *)
Definition takeUntil (notifier : Obs B) (o : Obs A) : Obs A :=
  seal (fun n => if emittedBefore notifier n then []
                 else if bool_decide (values (notifier n) = [])
                      then o n else [Complete]).

(** [map(f)] *)
Definition map (f : A -> B) (o : Obs A) : Obs B :=
  fun n => (fun x => match x with
                     | Next a => Next (f a)
                     | Error e => Error e
                     | Complete => Complete
                     end) <$> o n.

(** [filter(x.match)] narrowing the action to its payload. *)
Definition ofType (m : A -> option B) (o : Obs A) : Obs B :=
  fun n => x ← o n;
           match x with
           | Next a => match m a with Some b => [Next b] | None => [] end
           | Error e => [Error e]
           | Complete => [Complete]
           end.

(** [mergeMap(project)] over a source that does not complete, before the
    result is closed by its first error.  [project] receives the position at
    which the source value arrives, which is where the inner observable is
    subscribed.  An inner completion is absorbed. *)
Definition mergeMapRaw (project : nat -> A -> Obs B) (o : Obs A) : Obs B :=
  fun n => p ← seq 0 (S n);
           x ← o p;
           match x with
           | Next a =>
               List.filter
                 (fun y => match y with Complete => false | _ => true end)
                 (project p a n)
           | Error e => if p =? n then [Error e] else []
           | Complete => []
           end.

(** [mergeMap(project)]: an error of the source or of an inner observable
    ends the result. *)
Definition mergeMap (project : nat -> A -> Obs B) (o : Obs A) : Obs B :=
  seal (mergeMapRaw project o).

End Operators2.

Section Timed.
Context {A : Type}.
Variable tr : Trace.

(** [withLatestFrom(state$)] *)
Definition withLatestFrom (o : Obs A) : Obs (A * State) :=
  fun n => match tr !! n with
           | Some (_, state) => map (fun a => (a, state)) o n
           | None => []
           end.

(** A timer set at position [p] for [d] milliseconds fires at the tick
    that makes [d] milliseconds elapsed since [p]; timers never fire on
    the spot, and the runtime raises a delay below one millisecond to one. *)
Definition due (d p q : nat) : bool :=
  match tr !! q with
  | Some (Tick, _) =>
      (p <? q) && (clock tr (S q) - clock tr (S p) =? Nat.max 1 d)
  | _ => false
  end.

(** [delay(d)] of an observable that does not fail. *)
Definition delay (d : nat) (o : Obs A) : Obs A :=
  fun n => p ← seq 0 n; if due d p n then o p else [].

End Timed.
End Rx.

(** ** Side effects of the callbacks *)

Inductive Level : Type := debug | info | warn | error.

Inductive Effect : Type :=
  | Log (level : Level) (msg : string)      (* logger.<level>(msg) *)
  | WithCache (response : Value)            (* withCache(() => Promise.resolve(response)) *)
  | CacheCall (request : Value).            (* cache(request): the write *)

(** A callback performs effects and then returns or throws. *)
Definition M (A : Type) : Type := list Effect * Completion A.

Definition ret {A} (a : A) : M A := ([], Normal a).
Definition throw {A} (msg : string) : M A := ([], Throw msg).
Definition perform (e : Effect) : M unit := ([e], Normal tt).
Definition bind {A B} (m : M A) (k : A -> M B) : M B :=
  match m with
  | (es, Normal a) => let '(es', r) := k a in (es ++ es', r)
  | (es, Throw msg) => (es, Throw msg)
  end.
Definition lift {A} (c : Completion A) : M A := ([], c).

(** [try { body } catch (e) { handler(e.message) }] *)
Definition tryCatch {A} (body : M A) (handler : string -> M A) : M A :=
  match body with
  | (es, Normal a) => (es, Normal a)
  | (es, Throw msg) => let '(es', r) := handler msg in (es ++ es', r)
  end.

Notation "x <~ m ;; k" := (bind m (fun x => k))
  (at level 100, m at next level, right associativity, only parsing).

Definition effects {A} (m : M A) : list Effect := fst m.
Definition outcome {A} (m : M A) : Completion A := snd m.

(** How the two awaited calls into [../cache] end for one message. *)
Record CacheEnv : Type := {
  withCacheResult : Completion unit;   (* await withCache(execute) *)
  cacheResult : Completion unit;       (* await cache(wsResponse) *)
}.

(** The request handed to the cache for a message of a subscription with
    input [input]:
    [{ ...input, data: { ...input.data, maxAge: -1 }, debug: { ws: true } }] *)
Definition wsResponseOf (input : Value) : Value :=
  VObj (setProp "debug" (VObj [("ws", VBool true)])
          (setProp "data"
             (VObj (setProp "maxAge" (VNum (-1)) (spread (prop "data" input))))
             (spread input))).

(** The requests written to the cache among some effects. *)
Definition cacheWrites (es : list Effect) : list Value :=
  omap (fun e => match e with CacheCall r => Some r | _ => None end) es.

(** ** The epics *)

Section Epics.
(** [getSubsId] of [./reducer]: the subscription key of a subscription
    message. *)
Variable getSubsId : Value -> string.
(** [JSON.parse] *)
Variable JSON_parse : Value -> Completion Value.
(** The behaviour of the cache at each position of the trace. *)
Variable cacheEnv : nat -> CacheEnv.

(** [deserializer] *)
Definition deserializer (message : Value) : M Value :=
  tryCatch
    (lift (JSON_parse (prop "data" message)))
    (fun e =>
       _ <~ perform (Log debug "WS: Message received with invalid format") ;;
       ret message).

(** [socket.onmessage] of the socket subject: the deserialized event is
    passed on, an exception of the deserializer becomes an error of the
    subject. *)
Definition onmessage (e : Value) : Notification Value :=
  match outcome (deserializer e) with
  | Normal v => Next v
  | Throw err => Error err
  end.

Variable tr : Trace.

(** [action$] *)
Definition action_ : Obs Action :=
  fun n => match tr !! n with
           | Some (Dispatch a, _) => [Next a]
           | _ => []
           end.

Definition openObserver (sock : nat) : Obs unit :=
  fun n => match tr !! n with
           | Some (SocketOpen sock', _) => if sock' =? sock then [Next tt] else []
           | _ => []
           end.

Definition closeObserver (sock : nat) : Obs unit :=
  fun n => match tr !! n with
           | Some (SocketClose sock', _) => if sock' =? sock then [Next tt] else []
           | _ => []
           end.

(** [wsSubject.multiplex(subMsg, unsubMsg, messageFilter)] subscribed at
    position [s]: the messages of the socket that pass the filter, and the
    errors of the socket. *)
Definition multiplex (sock s : nat) (messageFilter : Value -> bool) : Obs Value :=
  Rx.seal (Rx.subscribedAt s (fun n =>
    match tr !! n with
    | Some (SocketMessage sock' e, _) =>
        if sock' =? sock then
          match onmessage e with
          | Next message => if messageFilter message then [Next message] else []
          | other => [other]
          end
        else []
    | Some (SocketError sock' err, _) =>
        if sock' =? sock then [Error err] else []
    | _ => []
    end)).

Definition matches {P} (m : Action -> option P) (a : Action) : bool :=
  match m a with Some _ => true | None => false end.

(** [!!state.ws.connections.active[connectionKey]] *)
Definition isActiveConnection (state : State) (connectionKey : string) : bool :=
  default false (active (connections state) !! connectionKey).

(** [state.ws.connections.connecting[connectionKey] > 1] *)
Definition isConnecting (state : State) (connectionKey : string) : bool :=
  match connecting (connections state) !! connectionKey with
  | Some n => (1 <? n)%Z
  | None => false
  end.

(** [!!state.ws.subscriptions[subscriptionKey]?.active] *)
Definition isActiveSubscription (state : State) (subscriptionKey : string) : bool :=
  match subscriptions state !! subscriptionKey with
  | Some s => sub_active s
  | None => false
  end.

(** [state.ws.subscriptions[subscriptionKey]?.input || {}] *)
Definition inputOf (state : State) (subscriptionKey : string) : Value :=
  orElse (match subscriptions state !! subscriptionKey with
          | Some s => sub_input s
          | None => VUndefined
          end) (VObj []).

(** [action$.pipe(filter(subscribe.match))], subscribed at [i] *)
Definition subscriptions_ (i : nat) : Obs Action :=
  Rx.filter (matches Match.subscribe) (Rx.subscribedAt i action_).

(** [action$.pipe(filter(messageReceived.match))], subscribed at [i] *)
Definition message_ (i : nat) : Obs Action :=
  Rx.filter (matches Match.messageReceived) (Rx.subscribedAt i action_).

(** *** The stream of one connection

The body of the [mergeMap] callback of [connectEpic], run for the
[connect] action at position [c] of the trace. *)
Section Connection.
Variable c : nat.
Variable connectionKey : string.
(** [const { config, wsHandler } = payload] *)
Variable cfg : WSConfig.
Variable handler : WSHandler.t.

(** [wsHandler.connection.url] *)
Let url := WSHandler.url handler.

Definition open_ : Obs Action :=
  Rx.map (fun _ => connected {| config := cfg;
                                wsHandler := handler |})
    (openObserver c).

Definition close_ : Obs Action :=
  Rx.map (fun _ => disconnected {| config := cfg;
                                   wsHandler := handler |})
    (closeObserver c).

(** Closes the socket on [disconnect]; delivers nothing. *)
Definition disconnect_ : Obs Action :=
  Rx.filter (fun _ => false)
    (Rx.tap
       (Rx.filter
          (fun a => match Match.disconnect a with
                    | Some p => String.eqb (key (connectionInfo (config p))) connectionKey
                    | None => false
                    end)
          (Rx.filter (matches Match.disconnect) (Rx.subscribedAt c action_)))).

(** The [messageFilter] given to [multiplex]. *)
Definition messageFilter (subscriptionKey : string) (message : Value) : bool :=
  if WSHandler.isError handler message then false
  else String.eqb (getSubsId (WSHandler.subsFromMessage handler message))
                  subscriptionKey.

(** What the multiplexer delivers for one message of a subscription. *)
Definition onMessage (payload : WSSubscriptionPayload) (subscriptionKey : string)
    (message : Value) (state : State) : list Action :=
  let isActiveSubscription := isActiveSubscription state subscriptionKey in
  if negb isActiveSubscription then
    [subscribed payload;
     messageReceived {| message := message; subscriptionKey := subscriptionKey |}]
  else
    [messageReceived {| message := message; subscriptionKey := subscriptionKey |}].

(** The notifier of a subscription's [takeUntil]. *)
Definition subscriptionEnd (s : nat) (subscriptionKey : string) : Obs Action :=
  Rx.merge
    [ Rx.filter
        (fun a => match Match.unsubscribe a with
                  | Some p => String.eqb (getSubsId (subscriptionMsg p)) subscriptionKey
                  | None => false
                  end)
        (Rx.filter (matches Match.unsubscribe) (Rx.subscribedAt s action_));
      Rx.filter
        (fun a => match Match.disconnected a with
                  | Some p => String.eqb (key (connectionInfo (config p))) connectionKey
                  | None => false
                  end)
        (Rx.filter (matches Match.disconnected) (Rx.subscribedAt s action_)) ].

(** The stream of one logical subscription: the inner observable of
    [multiplexSubscriptions$], subscribed at position [s]. *)
Definition subscriptionStream (s : nat) (payload : WSSubscriptionPayload)
    (subscriptionKey : string) : Obs Action :=
  Rx.endWith (unsubscribed payload)
    (Rx.takeUntil (subscriptionEnd s subscriptionKey)
       (Rx.mergeMap
          (fun n '(message, state) =>
             Rx.of_ n (onMessage payload subscriptionKey message state))
          (Rx.withLatestFrom tr
             (multiplex c s (messageFilter subscriptionKey))))).

(** The subscribe requests for which a subscription is opened. *)
Definition subscriptionRequests : Obs (WSSubscriptionPayload * string * State) :=
  Rx.filter
    (fun '(_, subscriptionKey, state) =>
       let isActiveSubscription := isActiveSubscription state subscriptionKey in
       negb isActiveSubscription)
    (Rx.withLatestFrom tr
       (Rx.map (fun payload => (payload, getSubsId (subscriptionMsg payload)))
          (Rx.filter
             (fun payload => String.eqb (key (sp_connectionInfo payload)) connectionKey)
             (Rx.ofType Match.subscribe (subscriptions_ c))))).

(** [multiplexSubscriptions$] before its [catchError]. *)
Definition multiplexed : Obs Action :=
  Rx.mergeMap
    (fun s '(payload, subscriptionKey, _) =>
       subscriptionStream s payload subscriptionKey)
    subscriptionRequests.

Definition multiplexSubscriptions : Obs Action :=
  Rx.catchError
    (fun p e =>
       Rx.of_ p [connectionError
                   {| ep_connectionInfo := Build_ConnectionInfo connectionKey url;
                      ep_message := e |}])
    multiplexed.

(** The [async] callback of [withCache$] for one [messageReceived]
    action.  The [try] block yields [Some a] when it executes
    [return a], and [None] when control leaves it at its end or through
    the [catch]. *)
Definition cacheWriter (env : CacheEnv) (action : Action)
    (p : WSMessagePayload) (state : State) : M Action :=
  r <~ tryCatch
         (let input := inputOf state (subscriptionKey p) in
          _ <~ (if negb (truthy input)
                then perform (Log warn "WS: Could not find subscription from incoming message")
                else ret tt) ;;
          response <~ lift (WSHandler.toResponse handler (message p)) ;;
          if negb (truthy response) then ret (Some action)
          else
            _ <~ perform (WithCache response) ;;
            _ <~ lift (withCacheResult env) ;;
            let wsResponse := wsResponseOf input in
            _ <~ perform (CacheCall wsResponse) ;;
            _ <~ lift (cacheResult env) ;;
            ret None)
         (fun e =>
            _ <~ perform (Log error ("WS: Cache error: " ++ e)) ;;
            ret None) ;;
  match r with
  | Some a => ret a
  | None => ret action
  end.

(** The [messageReceived] actions that enter the cache writer, with the
    state current on arrival. *)
Definition cacheRequests : Obs (Action * State) :=
  Rx.withLatestFrom tr
    (Rx.filter
       (fun action => match Match.messageReceived action with
                      | Some p => WSHandler.filter handler (message p)
                      | None => false
                      end)
       (message_ c)).

(** The promise returned by the callback, as an observable subscribed
    at [n]. *)
Definition promise {A} (n : nat) (m : M A) : Obs A :=
  match outcome m with
  | Normal a => Rx.of_ n [a]
  | Throw e => fun k => if k =? n then [Error e] else []
  end.

Definition runCacheWriter (n : nat) (x : Action * State) : M Action :=
  let '(action, state) := x in
  match Match.messageReceived action with
  | Some p => cacheWriter (cacheEnv n) action p state
  | None => ret action
  end.

Definition withCache_ : Obs Action :=
  Rx.filter (fun _ => false)
    (Rx.mergeMap (fun n x => promise n (runCacheWriter n x)) cacheRequests).

(** The race started by [unsubscribeOnTimeout$] for the subscribe action
    with payload [payload] at position [i]. *)
Definition idleRace (i : nat) (payload : WSSubscriptionPayload) : Obs Action :=
  let subscriptionKey := getSubsId (subscriptionMsg payload) in
  let reset_ :=
    Rx.take1
      (Rx.filter
         (fun a => match Match.subscribe a with
                   | Some p => String.eqb subscriptionKey (getSubsId (subscriptionMsg p))
                   | None => false
                   end)
         (subscriptions_ i)) in
  let timeout_ :=
    Rx.tap
      (Rx.delay tr (subscriptionTTL cfg)
         (Rx.of_ i [unsubscribe payload])) in
  Rx.filter (fun a => negb (matches Match.subscribe a)) (Rx.race reset_ timeout_).

Definition unsubscribeOnTimeout : Obs Action :=
  Rx.mergeMap
    (fun i a => match Match.subscribe a with
                | Some payload => idleRace i payload
                | None => fun _ => []
                end)
    (subscriptions_ c).

(** The race started by [unsubscribeOnNoResponse$] for the
    [messageReceived] action with payload [p] at position [i]. *)
Definition unresponsiveRace (i : nat) (p : WSMessagePayload) (state : State)
    : Obs Action :=
  let subscriptionKey := subscriptionKey p in
  let input := inputOf state subscriptionKey in
  let reset_ :=
    Rx.take1
      (Rx.filter
         (fun a => match Match.messageReceived a with
                   | Some p' => String.eqb subscriptionKey (WSMessagePayload_key p')
                   | None => false
                   end)
         (message_ i)) in
  let action :=
    {| input := input;
       subscriptionMsg := WSHandler.subscribe handler input;
       sp_connectionInfo := Build_ConnectionInfo connectionKey url |} in
  let timeout_ :=
    Rx.tap
      (Rx.delay tr (subscriptionUnresponsiveTTL cfg)
         (Rx.of_ i [unsubscribe action; subscribe action])) in
  Rx.filter (fun a => negb (matches Match.messageReceived a))
    (Rx.race reset_ timeout_).

Definition unsubscribeOnNoResponse : Obs Action :=
  Rx.mergeMap
    (fun i '(a, state) => match Match.messageReceived a with
                          | Some p => unresponsiveRace i p state
                          | None => fun _ => []
                          end)
    (Rx.withLatestFrom tr (message_ c)).

Definition unsubscribe_ : Obs Action :=
  Rx.merge [unsubscribeOnTimeout; unsubscribeOnNoResponse].

(** [ws$]: everything above, until the connection is reported
    disconnected. *)
Definition ws : Obs Action :=
  Rx.takeUntil
    (Rx.filter
       (fun a => match Match.disconnected a with
                 | Some p => String.eqb (key (connectionInfo (config p))) connectionKey
                 | None => false
                 end)
       (Rx.filter (matches Match.disconnected) (Rx.subscribedAt c action_)))
    (Rx.merge [open_; close_; disconnect_; multiplexSubscriptions;
               unsubscribe_; withCache_]).


(** The effects of the cache writer at position [n]: those of the callback
    of [withCache$] for the messages that reach it there.  None reaches it
    once [ws$] has completed, nor once the [mergeMap] of [withCache$] has
    failed. *)
Definition cacheEffects (n : nat) : list Effect :=
  if Rx.closedBefore ws n
     || Rx.closedBefore
          (Rx.mergeMap (fun n x => promise n (runCacheWriter n x)) cacheRequests) n
  then []
  else x ← Rx.values (cacheRequests n); effects (runCacheWriter n x).

End Connection.

(** The [connect] requests for which a socket is created. *)
Definition connectRequests : Obs (WSConfigPayload * string * State) :=
  Rx.filter
    (fun '(_, connectionKey, state) =>
       let isActiveConnection := isActiveConnection state connectionKey in
       let isConnecting := isConnecting state connectionKey in
       negb isActiveConnection && negb isConnecting)
    (Rx.withLatestFrom tr
       (Rx.map (fun payload => (payload, key (connectionInfo (config payload))))
          (Rx.ofType Match.connect action_))).

Definition connectEpic : Obs Action :=
  Rx.mergeMap
    (fun c '(payload, connectionKey, _) =>
       ws c connectionKey (config payload) (wsHandler payload))
    connectRequests.

(** The effects of the cache writers of all the connection streams that
    [connectEpic] has subscribed, at position [n], oldest connection
    first. *)
Definition connectionEffects (n : nat) : list Effect :=
  if Rx.closedBefore connectEpic n then []
  else c ← seq 0 (S n);
       x ← Rx.values (connectRequests c);
       let '(payload, connectionKey, _) := x in
       cacheEffects c connectionKey (config payload) (wsHandler payload) n.

End Epics.


(** The payload that [unsubscribeOnNoResponse$] builds for a message of the
    subscription [subscriptionKey] (the constant [action] of the source). *)
Definition recyclePayload (connectionKey : string) (handler : WSHandler.t)
    (state : State) (subscriptionKey : string) : WSSubscriptionPayload :=
  let input := inputOf state subscriptionKey in
  {| input := input;
     subscriptionMsg := WSHandler.subscribe handler input;
     sp_connectionInfo := Build_ConnectionInfo connectionKey (WSHandler.url handler) |}.

(** *** Connections that are open *)

Section OpenConnections.
Variable getSubsId : Value -> string.
Variable JSON_parse : Value -> Completion Value.
Variable cacheEnv : nat -> CacheEnv.
Variable tr : Trace.

(** The connection streams that [connectEpic] has subscribed up to position
    [n] and that have not ended by then, each with the position of its
    [connect] action and its connection key. *)
Definition openConnections (n : nat) : list (nat * string) :=
  c ← seq 0 (S n);
  x ← Rx.values (connectRequests tr c);
  let '(payload, connectionKey, _) := x in
  if Rx.closedBefore
       (ws getSubsId JSON_parse cacheEnv tr c connectionKey
          (config payload) (wsHandler payload)) (S n)
  then [] else [(c, connectionKey)].

End OpenConnections.

(** *** The store, as far as the connection guard reads it *)

(** What the store holds for one connection key. *)
Record Tracked : Type := {
  trackedActive : bool;        (* connections.active[key] *)
  trackedConnecting : Z;       (* connections.connecting[key] *)
}.

(** Modelled from the spec: the reducer of [./reducer], which maintains
    [state.ws.connections], is not among the sources.  The spec says that
    the connection manager "tracks active/connecting state" and that the
    state is "mutated only via the event-sourced reducer"; the guard of
    [connectEpic] reads [active[key]] as a flag and compares
    [connecting[key]] with 1.  The model reads this as follows:
    [active[key]] is set by a [connected] action for the key and cleared by
    a [disconnected] action for it; [connecting[key]] counts the [connect]
    actions for the key dispatched since the last [connected] or
    [disconnected] action for it. *)
Definition track (k : string) (t : Tracked) (e : Event) : Tracked :=
  match e with
  | Dispatch (connect p) =>
      if String.eqb (key (connectionInfo (config p))) k
      then {| trackedActive := trackedActive t;
              trackedConnecting := (trackedConnecting t + 1)%Z |}
      else t
  | Dispatch (connected p) =>
      if String.eqb (key (connectionInfo (config p))) k
      then {| trackedActive := true; trackedConnecting := 0%Z |}
      else t
  | Dispatch (disconnected p) =>
      if String.eqb (key (connectionInfo (config p))) k
      then {| trackedActive := false; trackedConnecting := 0%Z |}
      else t
  | _ => t
  end.

(** Modelled from the spec: what the reducer has made of the key [k] once
    it has handled the event at position [n].  The reducer handles an
    action before the epic sees it, so at a [connect] action the count
    includes that action. *)
Definition trackedAt (tr : Trace) (k : string) (n : nat) : Tracked :=
  foldl (track k) {| trackedActive := false; trackedConnecting := 0%Z |}
    (fst <$> take (S n) tr).

(** Modelled from the spec: the store tracks the connections.  At every
    [connect] action, the state that the guard reads shows the connection
    of the action as active exactly when the reducer has tracked it as
    active and, when it has not, counts the attempts that the reducer has
    tracked ([undefined] reads as [false] and as no attempt).  What
    [connecting[key]] holds while the connection is active is left open. *)
Definition storeTracksConnections (tr : Trace) : bool :=
  forallb
    (fun n =>
       match tr !! n with
       | Some (Dispatch (connect payload), state) =>
           let k := key (connectionInfo (config payload)) in
           Bool.eqb (isActiveConnection state k) (trackedActive (trackedAt tr k n))
           && (trackedActive (trackedAt tr k n)
               || (default 0%Z (connecting (connections state) !! k)
                   =? trackedConnecting (trackedAt tr k n))%Z)
       | _ => true
       end)
    (seq 0 (length tr)).

(** ** Predicates on traces used to state the properties *)

Section TracePredicates.
Variable getSubsId : Value -> string.
Variable tr : Trace.

(** Every position strictly between [a] and [b] satisfies [P]. *)
Definition allBetween (P : Event -> bool) (a b : nat) : bool :=
  forallb (fun m => match tr !! m with
                    | Some (e, _) => P e
                    | None => true
                    end) (seq (S a) (b - S a)).

(** A [subscribe] action with subscription key [k]. *)
Definition isSubscribeFor (k : string) (e : Event) : bool :=
  match e with
  | Dispatch (subscribe p) => String.eqb (getSubsId (subscriptionMsg p)) k
  | _ => false
  end.

(** A [messageReceived] action for subscription key [k]. *)
Definition isMessageFor (k : string) (e : Event) : bool :=
  match e with
  | Dispatch (messageReceived p) => String.eqb (subscriptionKey p) k
  | _ => false
  end.

(** An [unsubscribe] action with subscription key [k]. *)
Definition isUnsubscribeFor (k : string) (e : Event) : bool :=
  match e with
  | Dispatch (unsubscribe p) => String.eqb (getSubsId (subscriptionMsg p)) k
  | _ => false
  end.

(** A [disconnected] action for connection key [k]. *)
Definition isDisconnectedFor (k : string) (e : Event) : bool :=
  match e with
  | Dispatch (disconnected p) => String.eqb (key (connectionInfo (config p))) k
  | _ => false
  end.

(** An error of socket [sock]. *)
Definition isSocketErrorOf (sock : nat) (e : Event) : bool :=
  match e with
  | SocketError sock' _ => sock' =? sock
  | _ => false
  end.

(** The [unsubscribe] actions with subscription key [k] among some
    actions. *)
Definition unsubscribesFor (k : string) (l : list Action) : list Action :=
  List.filter (fun a => isUnsubscribeFor k (Dispatch a)) l.

(** An event on which the [takeUntil] of the subscription [k] of the
    connection [ck] fires. *)
Definition notifiesEnd (ck k : string) (e : Event) : bool :=
  isUnsubscribeFor k e || isDisconnectedFor ck e.

(** An event that ends the stream of the subscription [k] on socket [sock]
    of the connection [ck]. *)
Definition endsSubscription (sock : nat) (ck k : string) (e : Event) : bool :=
  notifiesEnd ck k e || isSocketErrorOf sock e.

(** What the stream of a subscription that is still running delivers on
    the event [e], the state being [st]. *)
Definition subscriptionReaction (JSON_parse : Value -> Completion Value)
    (sock : nat) (ck : string) (handler : WSHandler.t)
    (payload : WSSubscriptionPayload) (k : string) (e : Event) (st : State)
    : list (Notification Action) :=
  if notifiesEnd ck k e then [Next (unsubscribed payload); Complete]
  else
    match e with
    | SocketError sock' err => if sock' =? sock then [Error err] else []
    | SocketMessage sock' ev =>
        if sock' =? sock then
          match onmessage JSON_parse ev with
          | Next m =>
              if messageFilter getSubsId handler k m
              then Next <$> onMessage payload k m st
              else []
          | _ => []
          end
        else []
    | _ => []
    end.

(** The source of [reset$] in the idle race started at [i]: the subscribe
    actions after [i] that carry the key [k]. *)
Definition resets (i : nat) (k : string) : Obs Action :=
  Rx.filter
    (fun a => match Match.subscribe a with
              | Some p => String.eqb k (getSubsId (subscriptionMsg p))
              | None => false
              end)
    (subscriptions_ tr i).

(** The source of [reset$] in the unresponsive race started at [i]: the
    [messageReceived] actions after [i] for the key [k]. *)
Definition messageResets (i : nat) (k : string) : Obs Action :=
  Rx.filter
    (fun a => match Match.messageReceived a with
              | Some p' => String.eqb k (WSMessagePayload_key p')
              | None => false
              end)
    (message_ tr i).

(** The socket that a socket event belongs to. *)
Definition socketOf (e : Event) : option nat :=
  match e with
  | SocketOpen sock | SocketClose sock
  | SocketMessage sock _ | SocketError sock _ => Some sock
  | _ => None
  end.

(** The connection streams that receive the event at position [n]: those
    that [connectEpic] has subscribed for a [connect] request at or before
    [n] and whose connection has not been reported disconnected since, [n]
    included; each with the position and the payload of its request. *)
Definition liveConnections (n : nat) : list (nat * WSConfigPayload) :=
  c ← seq 0 (S n);
  x ← Rx.values (connectRequests tr c);
  let '(payload, connectionKey, _) := x in
  if allBetween (fun e => negb (isDisconnectedFor connectionKey e)) c (S n)
  then [(c, payload)] else [].

End TracePredicates.

(** *** Statements that the code does not satisfy *)

(** "For every [subscribe] action processed by [connectEpic] ... if no
    matching [subscribe] arrives within the TTL window after the most recent
    one, exactly one [unsubscribe] for that key is emitted at TTL expiry":
    for a [subscribe] action dispatched while the connection of an accepted
    [connect] request is open, at the expiry of the TTL of that
    connection. *)
Definition unsubscribesOnceAtExpiry (getSubsId : Value -> string)
    (JSON_parse : Value -> Completion Value) (cacheEnv : nat -> CacheEnv)
    (tr : Trace) : Prop :=
  forall c cp stc i payload st q,
    tr !! c = Some (Dispatch (connect cp), stc) ->
    isActiveConnection stc (key (connectionInfo (config cp))) = false ->
    isConnecting stc (key (connectionInfo (config cp))) = false ->
    c < i ->
    allBetween tr
      (fun e => negb (isDisconnectedFor (key (connectionInfo (config cp))) e))
      c (S i) = true ->
    tr !! i = Some (Dispatch (subscribe payload), st) ->
    Rx.due tr (subscriptionTTL (config cp)) i q = true ->
    allBetween tr
      (fun e => negb (isSubscribeFor getSubsId (getSubsId (subscriptionMsg payload)) e))
      i q = true ->
    exists a,
      unsubscribesFor getSubsId (getSubsId (subscriptionMsg payload))
        (Rx.values (connectEpic getSubsId JSON_parse cacheEnv tr q)) = [a].

(** "If no further message for that key arrives within
    [subscriptionUnresponsiveTTL], an [unsubscribe] action immediately
    followed by a [subscribe] action for the same logical input is emitted
    exactly once per idle period": for a [messageReceived] action dispatched
    while the connection of an accepted [connect] request is open, at the
    expiry of the unresponsive TTL of that connection. *)
Definition recoversOncePerSilence (getSubsId : Value -> string)
    (JSON_parse : Value -> Completion Value) (cacheEnv : nat -> CacheEnv)
    (tr : Trace) : Prop :=
  forall c cp stc i p st q,
    tr !! c = Some (Dispatch (connect cp), stc) ->
    isActiveConnection stc (key (connectionInfo (config cp))) = false ->
    isConnecting stc (key (connectionInfo (config cp))) = false ->
    c < i ->
    allBetween tr
      (fun e => negb (isDisconnectedFor (key (connectionInfo (config cp))) e))
      c (S i) = true ->
    tr !! i = Some (Dispatch (messageReceived p), st) ->
    Rx.due tr (subscriptionUnresponsiveTTL (config cp)) i q = true ->
    allBetween tr (fun e => negb (isMessageFor (subscriptionKey p) e)) i q = true ->
    exists action before after,
      input action = inputOf st (subscriptionKey p)
      /\ Rx.values (connectEpic getSubsId JSON_parse cacheEnv tr q)
         = before ++ unsubscribe action :: subscribe action :: after
      /\ forall p', subscribe p' ∈ before ++ after -> input p' <> input action.

(** "For every [messageReceived] action whose message the provider's filter
    accepts, exactly one cache write is attempted": for a [messageReceived]
    action dispatched while the connection of an accepted [connect] request
    is open and accepted by the filter of its handler. *)
Definition writesOncePerMessage (getSubsId : Value -> string)
    (JSON_parse : Value -> Completion Value) (cacheEnv : nat -> CacheEnv)
    (tr : Trace) : Prop :=
  forall c cp stc n p st,
    tr !! c = Some (Dispatch (connect cp), stc) ->
    isActiveConnection stc (key (connectionInfo (config cp))) = false ->
    isConnecting stc (key (connectionInfo (config cp))) = false ->
    c < n ->
    allBetween tr
      (fun e => negb (isDisconnectedFor (key (connectionInfo (config cp))) e))
      c (S n) = true ->
    tr !! n = Some (Dispatch (messageReceived p), st) ->
    WSHandler.filter (wsHandler cp) (message p) = true ->
    exists request,
      cacheWrites (connectionEffects getSubsId JSON_parse cacheEnv tr n) = [request].


(** ** A provider and some runs, used to exercise the model *)

Module Scenario.

Definition state0 : State :=
  {| connections := {| active := ∅; connecting := ∅ |}; subscriptions := ∅ |}.

(** The subscription key is the [id] of the subscription message. *)
Definition getSubsId (v : Value) : string :=
  match prop "id" v with VStr s => s | _ => "?" end.

(** A parser that accepts objects only. *)
Definition JSON_parse (v : Value) : Completion Value :=
  match v with VObj _ => Normal v | _ => Throw "Unexpected token" end.

Definition handler : WSHandler.t :=
  {| WSHandler.url := "wss://provider";
     WSHandler.protocol := VUndefined;
     WSHandler.subscribe := fun i => VObj [("id", prop "sym" i)];
     WSHandler.unsubscribe := fun i => VObj [("cancel", prop "sym" i)];
     WSHandler.subsFromMessage := fun m => VObj [("id", prop "sym" m)];
     WSHandler.isError := fun m => truthy (prop "error" m);
     WSHandler.filter := fun m => truthy (prop "sym" m);
     WSHandler.toResponse :=
       fun m => match prop "price" m with
                | VUndefined => Throw "no price"
                | VNum 0 => Normal VNull
                | v => Normal (VObj [("result", v)])
                end |}.

Definition cfg : WSConfig :=
  {| connectionInfo := {| key := "K"; url := "wss://provider" |};
     subscriptionTTL := 2;
     subscriptionUnresponsiveTTL := 3 |}.

Definition connectPayload : WSConfigPayload :=
  {| config := cfg; wsHandler := handler |}.

Definition sub (sym : string) : WSSubscriptionPayload :=
  {| sp_connectionInfo := {| key := "K"; url := "wss://provider" |};
     subscriptionMsg := VObj [("id", VStr sym)];
     input := VObj [("sym", VStr sym)] |}.

(** A socket event carrying a price for [sym]. *)
Definition priceEvent (sym : string) (price : Z) : Value :=
  VObj [("data", VObj [("sym", VStr sym); ("price", VNum price)])].

Definition received (sym : string) (price : Z) : WSMessagePayload :=
  {| message := VObj [("sym", VStr sym); ("price", VNum price)];
     subscriptionKey := sym |}.

Definition cacheOk (n : nat) : CacheEnv :=
  {| withCacheResult := Normal tt; cacheResult := Normal tt |}.

Definition at0 (e : Event) : Event * State := (e, state0).

(** Two requests for the same feed one millisecond apart, then silence. *)
Definition idleRun : Trace :=
  at0 <$> [Dispatch (connect connectPayload);
           Dispatch (subscribe (sub "A"));
           Tick;
           Dispatch (subscribe (sub "A"));
           Tick;
           Tick].

(** A message for a feed, then silence for the unresponsive TTL. *)
Definition silentRun : Trace :=
  at0 <$> [Dispatch (connect connectPayload);
           Dispatch (messageReceived (received "A" 5));
           Tick;
           Tick;
           Tick].

(** The store while the connection "K" is being opened, is open, and has
    been closed. *)
Definition stateConnecting : State :=
  {| connections := {| active := ∅; connecting := {["K" := 1%Z]} |};
     subscriptions := ∅ |}.
Definition stateConnected : State :=
  {| connections := {| active := {["K" := true]}; connecting := {["K" := 0%Z]} |};
     subscriptions := ∅ |}.
Definition stateDisconnected : State :=
  {| connections := {| active := {["K" := false]}; connecting := {["K" := 0%Z]} |};
     subscriptions := ∅ |}.
Definition stateReconnecting : State :=
  {| connections := {| active := {["K" := false]}; connecting := {["K" := 1%Z]} |};
     subscriptions := ∅ |}.

(** A connection is requested, opens, is requested again, closes and is
    requested once more. *)
Definition connectRun : Trace :=
  [(Dispatch (connect connectPayload), stateConnecting);
   (SocketOpen 0, stateConnecting);
   (Dispatch (connected connectPayload), stateConnected);
   (Dispatch (connect connectPayload), stateConnected);
   (Dispatch (disconnected connectPayload), stateDisconnected);
   (Dispatch (connect connectPayload), stateReconnecting)].

(** A message from which the provider derives no response. *)
Definition emptyResponseRun : Trace :=
  at0 <$> [Dispatch (connect connectPayload);
           Dispatch (messageReceived (received "A" 0))].


(** A subscription receives a message that the provider tags as an error. *)
Definition errorMessageRun : Trace :=
  at0 <$> [Dispatch (connect connectPayload);
           Dispatch (subscribe (sub "A"));
           SocketMessage 0 (VObj [("data", VObj [("sym", VStr "A");
                                                  ("error", VStr "rate limit")])])].



(** The connection is reported disconnected while a subscription is open. *)
Definition disconnectedRun : Trace :=
  at0 <$> [Dispatch (connect connectPayload);
           Dispatch (subscribe (sub "A"));
           SocketMessage 0 (priceEvent "A" 5);
           Dispatch (disconnected connectPayload)].

End Scenario.

(** ** The metrics epic *)

(** The collectors of [./metrics]. *)
Inductive Metric : Type :=
  | ws_connection_active      (* a gauge *)
  | ws_connection_errors      (* a counter *)
  | ws_subscription_active    (* a gauge *)
  | ws_subscription_total     (* a counter *)
  | ws_message_total.         (* a counter *)

Definition Metric_eqb (m1 m2 : Metric) : bool :=
  match m1, m2 with
  | ws_connection_active, ws_connection_active => true
  | ws_connection_errors, ws_connection_errors => true
  | ws_subscription_active, ws_subscription_active => true
  | ws_subscription_total, ws_subscription_total => true
  | ws_message_total, ws_message_total => true
  | _, _ => false
  end.

Inductive MetricOp : Type := inc | dec.

(** A label object: the label names with their values, in the order in which
    the source writes them. *)
Definition Labels : Type := list (string * string).

(** What the [tap] of [metricsEpic] does for one action. *)
Inductive Report : Type :=
  | Measure (metric : Metric) (labels : Labels) (op : MetricOp)
      (* metric.labels(labels).inc() or .dec() *)
  | LogInfo (msg : string) (action : Action).
      (* logger.info(msg, { payload: action.payload }) *)

Section Metrics.
(** [getFeedId] of [../metrics/util] and [getSubsId] of [./reducer]. *)
Variable getFeedId : Value -> string.
Variable getSubsId : Value -> string.

Definition connectionLabels (payload : WSConfigPayload) : Labels :=
  [("key", key (connectionInfo (config payload)));
   ("url", WSHandler.url (wsHandler payload))].

Definition connectionErrorLabels (payload : WSErrorPayload) : Labels :=
  [("key", key (ep_connectionInfo payload));
   ("url", url (ep_connectionInfo payload));
   ("message", ep_message payload)].

Definition subscriptionLabels (payload : WSSubscriptionPayload) : Labels :=
  [("connection_key", key (sp_connectionInfo payload));
   ("connection_url", url (sp_connectionInfo payload));
   ("feed_id", getFeedId (VObj (spread (input payload))));
   ("subscription_key", getSubsId (subscriptionMsg payload))].

(** [state.ws.subscriptions[subscriptionKey]?.input] *)
Definition storedInput (state : State) (subscriptionKey : string) : Value :=
  match subscriptions state !! subscriptionKey with
  | Some s => sub_input s
  | None => VUndefined
  end.

(** [messageLabels]; the source reads the subscription key of the feed id
    from [action.payload], which is the [payload] it is called with. *)
Definition messageLabels (state : State) (payload : WSMessagePayload) : Labels :=
  [("feed_id", getFeedId (VObj (spread (storedInput state (subscriptionKey payload)))));
   ("subscription_key", subscriptionKey payload)].

(** The callback of the [tap]: the [switch] on [action.type]. *)
Definition report (action : Action) (state : State) : list Report :=
  match action with
  | connected payload =>
      [Measure ws_connection_active (connectionLabels payload) inc;
       LogInfo "WS: connected" action]
  | connectionError payload =>
      [Measure ws_connection_errors (connectionErrorLabels payload) inc;
       LogInfo "WS: connection_error" action]
  | disconnected payload =>
      [Measure ws_connection_active (connectionLabels payload) dec;
       LogInfo "WS: disconnected" action]
  | subscribed payload =>
      [Measure ws_subscription_total (subscriptionLabels payload) inc;
       Measure ws_subscription_active (subscriptionLabels payload) inc;
       LogInfo "WS: subscribed" action]
  | unsubscribed payload =>
      [Measure ws_subscription_active (subscriptionLabels payload) dec;
       LogInfo "WS: unsubscribed" action]
  | messageReceived payload =>
      [Measure ws_message_total (messageLabels state payload) inc]
  | _ => []
  end.

Variable tr : Trace.

(** The actions that reach the [tap], with the state of their instant. *)
Definition observed : Obs (Action * State) :=
  Rx.withLatestFrom tr (action_ tr).

(** [metricsEpic] *)
Definition metricsEpic : Obs Action :=
  Rx.filter (fun _ => false)
    (Rx.map (fun '(action, _) => action) (Rx.tap observed)).

(** What the [tap] does at position [n]. *)
Definition reports (n : nat) : list Report :=
  x ← Rx.values (observed n); report x.1 x.2.

(** What the [tap] has done before position [n]. *)
Definition reportsBefore (n : nat) : list Report :=
  k ← seq 0 n; reports k.

(** The number of actions satisfying [P] dispatched before position [n]. *)
Definition dispatched (P : Action -> bool) (n : nat) : nat :=
  length (List.filter
            (fun x => match x with (Dispatch a, _) => P a | _ => false end)
            (take n tr)).

End Metrics.

(** [inc()] adds one and [dec()] subtracts one. *)
Definition delta (op : MetricOp) : Z :=
  match op with inc => 1%Z | dec => (-1)%Z end.

(** The change that some reports make to the time series of [metric] with
    the labels [labels]. *)
Definition seriesChange (metric : Metric) (labels : Labels) (rs : list Report) : Z :=
  foldr (fun r acc =>
           match r with
           | Measure m l op =>
               if Metric_eqb m metric && bool_decide (l = labels)
               then (delta op + acc)%Z else acc
           | LogInfo _ _ => acc
           end) 0%Z rs.

(** The actions of one kind whose labels are [labels]. *)
Definition connectedWith (labels : Labels) (a : Action) : bool :=
  match a with
  | connected p => bool_decide (connectionLabels p = labels)
  | _ => false
  end.

Definition disconnectedWith (labels : Labels) (a : Action) : bool :=
  match a with
  | disconnected p => bool_decide (connectionLabels p = labels)
  | _ => false
  end.

Definition subscribedWith (getFeedId getSubsId : Value -> string)
    (labels : Labels) (a : Action) : bool :=
  match a with
  | subscribed p => bool_decide (subscriptionLabels getFeedId getSubsId p = labels)
  | _ => false
  end.

Definition unsubscribedWith (getFeedId getSubsId : Value -> string)
    (labels : Labels) (a : Action) : bool :=
  match a with
  | unsubscribed p => bool_decide (subscriptionLabels getFeedId getSubsId p = labels)
  | _ => false
  end.

(** The collectors that the source declares as counters. *)
Definition isCounter (metric : Metric) : bool :=
  match metric with
  | ws_connection_errors | ws_subscription_total | ws_message_total => true
  | _ => false
  end.

(** The actions dispatched before position [n], in order. *)
Definition dispatchedActions (tr : Trace) (n : nat) : list Action :=
  omap (fun x => match x with (Dispatch a, _) => Some a | _ => None end) (take n tr).

(** The log entries among some reports. *)
Definition logged (rs : list Report) : list (string * Action) :=
  omap (fun r => match r with LogInfo msg a => Some (msg, a) | _ => None end) rs.

(** The six types of action for which the [switch] has a case. *)
Definition isLifecycle (a : Action) : bool :=
  match a with
  | connected _ | connectionError _ | disconnected _
  | subscribed _ | unsubscribed _ | messageReceived _ => true
  | _ => false
  end.


(** The kinds of action with which [connectEpic] can answer an event. *)
Definition answers (e : Event) (a : Action) : bool :=
  match e, a with
  | Tick, unsubscribe _ => true
  | Tick, subscribe _ => true
  | SocketOpen _, connected _ => true
  | SocketClose _, disconnected _ => true
  | SocketMessage _ _, subscribed _ => true
  | SocketMessage _ _, messageReceived _ => true
  | SocketError _ _, connectionError _ => true
  | Dispatch (unsubscribe _), unsubscribed _ => true
  | _, _ => false
  end.

(** An event of the socket [sock] that carries a message. *)
Definition isSocketMessageOf (sock : nat) (e : Event) : bool :=
  match e with
  | SocketMessage sock' _ => sock' =? sock
  | _ => false
  end.

(** ** More runs *)

Module Runs.

(** A second connection of the same provider. *)
Definition cfgL : WSConfig :=
  {| connectionInfo := {| key := "L"; url := "wss://provider" |};
     subscriptionTTL := 2;
     subscriptionUnresponsiveTTL := 3 |}.

Definition connectPayloadL : WSConfigPayload :=
  {| config := cfgL; wsHandler := Scenario.handler |}.

(** Another connection is reported disconnected before the socket of the
    connection "K" opens. *)
Definition otherKeyRun : Trace :=
  Scenario.at0 <$> [Dispatch (connect Scenario.connectPayload);
                    Dispatch (disconnected connectPayloadL);
                    SocketOpen 0].

(** A subscription receives a frame that is not JSON, under an event
    object that names its feed. *)
Definition garbledEvent : Value :=
  VObj [("data", VStr "{oops"); ("sym", VStr "A")].

Definition garbledRun : Trace :=
  Scenario.at0 <$> [Dispatch (connect Scenario.connectPayload);
                    Dispatch (subscribe (Scenario.sub "A"));
                    SocketMessage 0 garbledEvent].

(** The socket of another connection fails while a subscription is open. *)
Definition foreignErrorRun : Trace :=
  Scenario.at0 <$> [Dispatch (connect Scenario.connectPayload);
                    Dispatch (subscribe (Scenario.sub "A"));
                    SocketError 7 "ECONNRESET";
                    SocketMessage 0 (Scenario.priceEvent "A" 5)].

(** A connection lives through two subscriptions and a message, and ends. *)
Definition busyRun : Trace :=
  Scenario.at0 <$> [Dispatch (connect Scenario.connectPayload);
                    SocketOpen 0;
                    Dispatch (connected Scenario.connectPayload);
                    Dispatch (subscribe (Scenario.sub "A"));
                    SocketMessage 0 (Scenario.priceEvent "A" 5);
                    Dispatch (subscribed (Scenario.sub "A"));
                    Dispatch (messageReceived (Scenario.received "A" 5));
                    Dispatch (unsubscribed (Scenario.sub "A"));
                    Dispatch (disconnected Scenario.connectPayload)].

(** A feed is requested while only the connection "L" is open, and is
    then left idle. *)
Definition crossRun : Trace :=
  Scenario.at0 <$> [Dispatch (connect connectPayloadL);
                    Dispatch (subscribe (Scenario.sub "A"));
                    Tick;
                    Tick].

(** A message is reported while only the connection "L" is open, and
    nothing follows. *)
Definition crossSilentRun : Trace :=
  Scenario.at0 <$> [Dispatch (connect connectPayloadL);
                    Dispatch (messageReceived (Scenario.received "A" 5));
                    Tick;
                    Tick;
                    Tick].

(** The feed id of an input is its symbol. *)
Definition getFeedId (v : Value) : string :=
  match prop "sym" v with VStr s => s | _ => "undefined" end.

End Runs.

(** Runs with a populated store, and runs with several connections. *)
Module Sessions.

(** The store holds the subscription "A" with the input it was requested
    with. *)
Definition inputA : Value :=
  VObj [("sym", VStr "A"); ("data", VObj [("base", VStr "A")])].

Definition stateSubscribed : State :=
  {| connections := {| active := {["K" := true]}; connecting := {["K" := 0%Z]} |};
     subscriptions := {["A" := {| sub_active := true; sub_input := inputA |}]} |}.

Definition on (st : State) (e : Event) : Event * State := (e, st).

(** A feed is requested once and left idle while two connections are
    open. *)
Definition twoConnectionsIdleRun : Trace :=
  Scenario.at0 <$> [Dispatch (connect Scenario.connectPayload);
                    Dispatch (connect Runs.connectPayloadL);
                    Dispatch (subscribe (Scenario.sub "A"));
                    Tick;
                    Tick].

(** A feed is requested, and its connection is reported disconnected before
    the idle TTL has elapsed. *)
Definition droppedIdleRun : Trace :=
  Scenario.at0 <$> [Dispatch (connect Scenario.connectPayload);
                    Dispatch (subscribe (Scenario.sub "A"));
                    Dispatch (disconnected Scenario.connectPayload);
                    Tick;
                    Tick].

(** A message for a known subscription, then silence for the unresponsive
    TTL. *)
Definition silentRun : Trace :=
  [(Dispatch (connect Scenario.connectPayload), Scenario.state0);
   (Dispatch (messageReceived (Scenario.received "A" 5)), stateSubscribed);
   (Tick, stateSubscribed);
   (Tick, stateSubscribed);
   (Tick, stateSubscribed)].

(** The same while two connections are open. *)
Definition twoConnectionsSilentRun : Trace :=
  [(Dispatch (connect Scenario.connectPayload), Scenario.state0);
   (Dispatch (connect Runs.connectPayloadL), Scenario.state0);
   (Dispatch (messageReceived (Scenario.received "A" 5)), stateSubscribed);
   (Tick, stateSubscribed);
   (Tick, stateSubscribed);
   (Tick, stateSubscribed)].

(** A message, and the connection is reported disconnected before the
    unresponsive TTL has elapsed. *)
Definition droppedSilentRun : Trace :=
  [(Dispatch (connect Scenario.connectPayload), Scenario.state0);
   (Dispatch (messageReceived (Scenario.received "A" 5)), stateSubscribed);
   (Dispatch (disconnected Scenario.connectPayload), stateSubscribed);
   (Tick, stateSubscribed);
   (Tick, stateSubscribed);
   (Tick, stateSubscribed)].

(** A message for a known subscription is reported while one connection is
    open, and again after the connection has been reported disconnected. *)
Definition cachedRun : Trace :=
  [(Dispatch (connect Scenario.connectPayload), Scenario.state0);
   (Dispatch (messageReceived (Scenario.received "A" 5)), stateSubscribed);
   (Dispatch (disconnected Scenario.connectPayload), stateSubscribed);
   (Dispatch (messageReceived (Scenario.received "A" 6)), stateSubscribed)].

(** A message is reported while two connections are open. *)
Definition twoConnectionsMessageRun : Trace :=
  [(Dispatch (connect Scenario.connectPayload), Scenario.state0);
   (Dispatch (connect Runs.connectPayloadL), Scenario.state0);
   (Dispatch (messageReceived (Scenario.received "A" 5)), stateSubscribed)].

(** The store while the connection "K" is requested a second time before it
    has opened, and once it is open. *)
Definition stateConnectingTwice : State :=
  {| connections := {| active := ∅; connecting := {["K" := 2%Z]} |};
     subscriptions := ∅ |}.
Definition stateConnectedAgain : State :=
  {| connections := {| active := {["K" := true]}; connecting := {["K" := 1%Z]} |};
     subscriptions := ∅ |}.

(** A connection is requested twice before its socket opens, a third time
    while it is open, and once more after it has closed; a message of the
    socket of the second request is in the run. *)
Definition guardRun : Trace :=
  [(Dispatch (connect Scenario.connectPayload), Scenario.stateConnecting);
   (Dispatch (connect Scenario.connectPayload), stateConnectingTwice);
   (SocketOpen 0, stateConnectingTwice);
   (SocketOpen 1, stateConnectingTwice);
   (Dispatch (connected Scenario.connectPayload), Scenario.stateConnected);
   (Dispatch (connect Scenario.connectPayload), stateConnectedAgain);
   (Dispatch (disconnected Scenario.connectPayload), Scenario.stateDisconnected);
   (Dispatch (connect Scenario.connectPayload), Scenario.stateReconnecting)].


End Sessions.

(** * The accounts endpoint of the Bank Frick adapter

    [BankFrickAccountsTransport]: the validation of the requested IBANs,
    the request with its retry loop, and the scan of the pages of accounts.

    The bank's answers to [axios.request] are an input of the model, given
    as the list of the answers in the order in which they arrive; when the
    list is used up, the transport is still waiting.  [generateJWT] is a
    parameter.  Balances are kept abstract, with the addition of the
    source's [+=]; an amount is only ever added to the running sum.  The
    entries of the logger at the levels debug and trace, the timestamps of
    the response, the arguments of the log entries and the outcome of
    [cache.set] are left out. *)

Module BankFrick.

(** ** Validation of the input *)

Definition isUpper (a : ascii) : bool :=
  (65 <=? nat_of_ascii a) && (nat_of_ascii a <=? 90).

Definition isDigit (a : ascii) : bool :=
  (48 <=? nat_of_ascii a) && (nat_of_ascii a <=? 57).

(** [v.match(ibanPattern)], with [ibanPattern = /^[A-Z]{2}[A-Z\d]{14,30}$/] *)
Definition ibanPattern (v : string) : bool :=
  match String.list_ascii_of_string v with
  | a :: b :: rest =>
      isUpper a && isUpper b
      && forallb (fun x => isUpper x || isDigit x) rest
      && (14 <=? length rest) && (length rest <=? 30)
  | _ => false
  end.

(** What an entry of [encounteredIds] holds after [+= 1].  For a name that
    the object inherits from [Object.prototype] the sum is a string, which
    compares with a number as [NaN] does; [NaN] stands for it too. *)
Inductive JsNumber : Type :=
  | NaN
  | Num (n : Z).

(** [encounteredIds[v] + 1]; an entry that was never written reads as
    [undefined], and [undefined + 1] is [NaN]. *)
Definition plusOne (entry : option JsNumber) : JsNumber :=
  match entry with
  | Some (Num n) => Num (n + 1)
  | Some NaN => NaN
  | None => NaN
  end.

(** [x > 1] *)
Definition greaterThanOne (x : JsNumber) : bool :=
  match x with
  | Num n => (1 <? n)%Z
  | NaN => false
  end.

(** The callback of [ibanIDs.forEach] in [validateInputParams]. *)
Definition validateId (acc : gmap string JsNumber * list string) (v : string)
    : gmap string JsNumber * list string :=
  let '(encounteredIds, errors) := acc in
  let errors :=
    if negb (ibanPattern v) then errors ++ [("Invalid IBAN: " ++ v)%string] else errors in
  let encounteredIds := <[v := plusOne (encounteredIds !! v)]> encounteredIds in
  let errors :=
    if greaterThanOne (default NaN (encounteredIds !! v))
    then errors ++ [("The following IBAN appears more than once in the input parameters: "
                     ++ v)%string]
    else errors in
  (encounteredIds, errors).

Definition validateInputParams (ibanIDs : list string) : list string :=
  (fold_left validateId ibanIDs (∅, [])).2.

(** ** Requests *)

Record Config : Type := {
  API_ENDPOINT : string;
  PAGE_SIZE : option Z;
  REST_TRANSPORT_MAX_RATE_LIMIT_RETRIES : Z;
  REST_TRANSPORT_MS_BETWEEN_RATE_LIMIT_RETRIES : Z;
}.

Record AxiosRequest : Type := {
  baseURL : string;
  url : string;
  method : string;
  firstPosition : Z;
  maxResults : option Z;
  Authorization : string;
}.

(** What the transport throws. *)
Inductive Exn : Type :=
  | AdapterError (statusCode : Z) (message : string)
  | AdapterInputError (statusCode : Z) (message : string)
  | Rejection (reason : string).   (* of [axios.request] or of [generateJWT] *)

(** How a call of an [async] method stands when the answers are used up. *)
Inductive Outcome (A : Type) : Type :=
  | Returned (a : A)
  | Thrown (e : Exn)
  | Waiting          (* for an answer that has not arrived *)
  | OutOfFuel.       (* the model's bound on the number of pages was reached *)
Arguments Returned {A} a.
Arguments Thrown {A} e.
Arguments Waiting {A}.
Arguments OutOfFuel {A}.

(** What the transport does to the outside, in order. *)
Inductive Io : Type :=
  | Request (r : AxiosRequest)     (* axios.request(r) *)
  | GenerateJWT                    (* generateJWT(config, signingAlgorithm) *)
  | Sleep (ms : Z)                 (* sleep(ms) *)
  | Logged (level : Level) (msg : string).

(** The instance: its token, the number of tokens generated so far, and
    what it has done. *)
Record World : Type := {
  token : option string;
  generated : nat;
  journal : list Io;
}.

Definition emit (io : Io) (w : World) : World :=
  {| token := token w; generated := generated w; journal := journal w ++ [io] |}.

(** [FatalErrors[status]] and [AuthErrors[status]], as conditions *)
Definition FatalErrors (status : Z) : bool :=
  (status =? 400)%Z || (status =? 423)%Z.

Definition AuthErrors (status : Z) : bool :=
  (status =? 401)%Z || (status =? 403)%Z.

(** [`${this.token}`] *)
Definition tokenText (t : option string) : string :=
  match t with Some s => s | None => "undefined" end.

(** [!this.token] *)
Definition tokenMissing (t : option string) : bool :=
  match t with Some s => String.eqb s "" | None => true end.

Section Transport.
(** The amounts and their addition. *)
Variable num : Type.
Variable zero : num.
Variable add : num -> num -> num.
(** The outcome of the call of [generateJWT] that follows [n] earlier
    ones. *)
Variable generateJWT : nat -> Completion string.
Variable cfg : Config.

Record Account : Type := {
  iban : string;
  balance : num;
}.

Record Response : Type := {
  status : Z;
  statusText : string;
  accounts : list Account;      (* data.accounts *)
  moreResults : bool;           (* data.moreResults *)
}.

(** An answer of the bank to [axios.request]. *)
Inductive Answer : Type :=
  | Resolve (r : Response)
  | Reject (reason : string).

(** [this.token = await generateJWT(config, signingAlgorithm)] *)
Definition refreshToken (w : World) : World * Outcome unit :=
  let w := emit GenerateJWT w in
  match generateJWT (generated w) with
  | Normal t =>
      ({| token := Some t; generated := S (generated w); journal := journal w |},
       Returned tt)
  | Throw reason =>
      ({| token := token w; generated := S (generated w); journal := journal w |},
       Thrown (Rejection reason))
  end.

(** [prepareRequest] *)
Definition prepareRequest (position : Z) (w : World) : AxiosRequest :=
  {| baseURL := API_ENDPOINT cfg;
     url := "accounts";
     method := "GET";
     firstPosition := position;
     maxResults := PAGE_SIZE cfg;
     Authorization := ("Bearer " ++ tokenText (token w))%string |}.

(** The [while] loop of [makeRequest], entered with the response to the
    latest request; [answers] are the answers still to come. *)
Fixpoint retryLoop (axiosRequest : AxiosRequest) (answers : list Answer)
    (retryNumber : Z) (response : Response) (w : World)
    : World * list Answer * Outcome Response :=
  if (status response =? 200)%Z then (w, answers, Returned response)
  else
    let retryNumber := (retryNumber + 1)%Z in
    let w := emit (Logged warn "Encountered error when fetching accounts from Bank Frick:") w in
    (* what follows the [if ... else if ... else if] *)
    let again (w : World) :=
      let w := emit (Sleep (REST_TRANSPORT_MS_BETWEEN_RATE_LIMIT_RETRIES cfg)) w in
      let w := emit (Request axiosRequest) w in
      match answers with
      | [] => (w, [], Waiting)
      | Reject reason :: rest => (w, rest, Thrown (Rejection reason))
      | Resolve response :: rest => retryLoop axiosRequest rest retryNumber response w
      end in
    if FatalErrors (status response) then
      (w, answers, Thrown (AdapterError (status response) (statusText response)))
    else if AuthErrors (status response) then
      let w := emit (Logged info "Auth error received from the Bank Frick API, attempting to refresh the token") w in
      match refreshToken w with
      | (w, Returned _) => again w
      | (w, Thrown e) => (w, answers, Thrown e)
      | (w, _) => (w, answers, Waiting)
      end
    else if (retryNumber =? REST_TRANSPORT_MAX_RATE_LIMIT_RETRIES cfg)%Z then
      (w, answers,
       Thrown (AdapterError 504
                 ("Bank Frick transport hit the max number of retries ("
                  ++ pretty (REST_TRANSPORT_MAX_RATE_LIMIT_RETRIES cfg)
                  ++ " retries) and aborted")%string))
    else again w.

(** [makeRequest] *)
Definition makeRequest (axiosRequest : AxiosRequest) (answers : list Answer)
    (w : World) : World * list Answer * Outcome Response :=
  let retryNumber := 0%Z in
  let w := emit (Request axiosRequest) w in
  match answers with
  | [] => (w, [], Waiting)
  | Reject reason :: rest => (w, rest, Thrown (Rejection reason))
  | Resolve response :: rest => retryLoop axiosRequest rest retryNumber response w
  end.

(** The requests that are out without an answer: one when the transport is
    waiting. *)
Definition pendingRequests (out : Outcome Response) : nat :=
  match out with Waiting => 1 | _ => 0 end.

(** What the retry loop guarantees about its outcome. *)
Definition retryContract (k : Z) (response : option Response)
    (used rest : list Answer) (out : Outcome Response) : Prop :=
  match out with
  | Returned r =>
      status r = 200%Z /\ (Some r = response \/ Resolve r ∈ used)
  | Thrown (AdapterError code msg) =>
      (FatalErrors code = true
       /\ exists r, (Some r = response \/ Resolve r ∈ used)
                    /\ status r = code /\ statusText r = msg)
      \/ (code = 504%Z
          /\ (k + Z.of_nat (length used) + (if response is Some _ then 1 else 0))%Z = REST_TRANSPORT_MAX_RATE_LIMIT_RETRIES cfg)
  | Thrown (AdapterInputError _ _) => False
  | Thrown (Rejection reason) =>
      Reject reason ∈ used \/ exists n, generateJWT n = Throw reason
  | Waiting => rest = []
  | OutOfFuel => False
  end.

(** ** The scan of the pages *)

(** [ibanIDs.indexOf(x)], when it is not [-1] *)
Fixpoint indexOf (x : string) (l : list string) : option nat :=
  match l with
  | [] => None
  | y :: rest => if String.eqb y x then Some 0 else S <$> indexOf x rest
  end.

(** The callback of [response.data.accounts.forEach]; [keys] and [ibanIDs]
    are one array, so the index found in [ibanIDs] is the index at which
    [splice] removes from [keys]. *)
Definition scanAccount (acc : list string * num) (v : Account) : list string * num :=
  let '(keys, sum) := acc in
  match indexOf (iban v) keys with
  | Some index => (delete index keys, add sum (balance v))
  | None => (keys, sum)
  end.

(** [PAGE_SIZE], destructured with the default 500 *)
Definition pageSize : Z := default 500%Z (PAGE_SIZE cfg).

(** The [while (keys.length > 0)] loop of [foregroundExecute]. *)
Fixpoint pageLoop (fuel : nat) (answers : list Answer) (position : Z)
    (keys : list string) (sum : num) (w : World)
    : World * Outcome (list string * num) :=
  match fuel with
  | 0 => (w, OutOfFuel)
  | S fuel =>
      if 0 <? length keys then
        let axiosRequest := prepareRequest position w in
        match makeRequest axiosRequest answers w with
        | (w, answers, Returned response) =>
            let '(keys, sum) := fold_left scanAccount (accounts response) (keys, sum) in
            if negb (moreResults response) then (w, Returned (keys, sum))
            else pageLoop fuel answers (position + pageSize)%Z keys sum w
        | (w, _, Thrown e) => (w, Thrown e)
        | (w, _, Waiting) => (w, Waiting)
        | (w, _, OutOfFuel) => (w, OutOfFuel)
        end
      else (w, Returned (keys, sum))
  end.

(** [validationErrors.join('\n')] *)
Fixpoint join (l : list string) : string :=
  match l with
  | [] => ""
  | [x] => x
  | x :: rest => (x ++ String "010" (join rest))%string
  end.

(** [foregroundExecute], for the request of the balances of [ibanIDs]; its
    result is [sum].  Every turn of the page loop uses up an answer, so the
    bound on the number of turns is not reached (see below). *)
Definition foregroundExecute (ibanIDs : list string) (answers : list Answer)
    (w : World) : World * Outcome num :=
  let validationErrors := validateInputParams ibanIDs in
  if 0 <? length validationErrors then
    (w, Thrown (AdapterError 420
                  ("Received the following errors when validating inputParameters:"
                   ++ String "010" (" " ++ join validationErrors))%string))
  else
    let ready :=
      if tokenMissing (token w) then refreshToken w else (w, Returned tt) in
    match ready with
    | (w, Returned _) =>
        let w := emit (Logged info "Fetching accounts from Bank Frick's API...") w in
        match pageLoop (S (length answers)) answers 0%Z ibanIDs zero w with
        | (w, Returned (keys, sum)) =>
            if 0 <? length keys
            then (w, Thrown (AdapterInputError 404 "Could not find all accounts"))
            else (w, Returned sum)
        | (w, Thrown e) => (w, Thrown e)
        | (w, Waiting) => (w, Waiting)
        | (w, OutOfFuel) => (w, OutOfFuel)
        end
    | (w, Thrown e) => (w, Thrown e)
    | (w, _) => (w, Waiting)
    end.

(** The requests among what was done. *)
Definition requests (ios : list Io) : list AxiosRequest :=
  omap (fun io => match io with Request r => Some r | _ => None end) ios.

(** The accounts that the scan of a page counts: those that remove a key. *)
Fixpoint counted (keys : list string) (page : list Account) : list Account :=
  match page with
  | [] => []
  | v :: rest =>
      match indexOf (iban v) keys with
      | Some index => v :: counted (delete index keys) rest
      | None => counted keys rest
      end
  end.

(** The accounts that the bank lists in some answers, in order: those of
    the responses with status 200. *)
Definition listed (answers : list Answer) : list Account :=
  a ← answers;
  match a with
  | Resolve r => if (status r =? 200)%Z then accounts r else []
  | Reject _ => []
  end.

End Transport.

Arguments Build_Account {num} _ _.
Arguments Build_Response {num} _ _ _ _.
Arguments retryLoop {num} _ _ _ _ _ _ _.
Arguments makeRequest {num} _ _ _ _ _.
Arguments scanAccount {num} _ _ _.
Arguments pageLoop {num} _ _ _ _ _ _ _ _ _.
Arguments foregroundExecute {num} _ _ _ _ _ _ _.
Arguments pendingRequests {num} _.
Arguments retryContract {num} _ _ _ _ _ _ _.
Arguments counted {num} _ _.
Arguments listed {num} _.
Arguments iban {num} _.
Arguments balance {num} _.
Arguments status {num} _.
Arguments statusText {num} _.
Arguments accounts {num} _.
Arguments moreResults {num} _.
Arguments Resolve {num} r.
Arguments Reject {num} reason.

(** ** The cache key *)

(** The order of [Array.prototype.sort] without a comparator: strings are
    compared unit by unit. *)
Definition keyOrder (a b : string) : Prop := String.leb a b.

(** [cacheKeyGenerator].  An object is the list of its properties in the
    order of their insertion, with pairwise distinct names; [JSON.stringify]
    is a parameter. *)
Definition cacheKeyGenerator (stringify : Value -> string)
    (data : list (string * Value)) : string :=
  let sortedData :=
    foldl (fun a i => setProp i (prop i (VObj data)) a) []
      (merge_sort keyOrder (data.*1)) in
  ("accounts-" ++ stringify (VObj sortedData))%string.

(** *** A bank and some answers *)

Module Bank.

Definition cfg : Config :=
  {| API_ENDPOINT := "https://olbsandbox.bankfrick.li/webapi/v2";
     PAGE_SIZE := Some 2%Z;
     REST_TRANSPORT_MAX_RATE_LIMIT_RETRIES := 3%Z;
     REST_TRANSPORT_MS_BETWEEN_RATE_LIMIT_RETRIES := 400%Z |}.

Definition tokens (n : nat) : string := "jwt" ++ pretty n.

Definition generateJWT (n : nat) : Completion string := Normal (tokens n).

Definition world0 : World := {| token := None; generated := 0; journal := [] |}.

Definition signedIn : World :=
  {| token := Some "jwt0"; generated := 1; journal := [] |}.

Definition ibanA : string := "LI6808811000000001234".
Definition ibanB : string := "LI6808811000000005678".
Definition ibanC : string := "LI6808811000000009012".

Definition page (l : list (string * Z)) (more : bool) : Response Z :=
  {| status := 200%Z; statusText := "OK";
     accounts := (fun x => Build_Account x.1 x.2) <$> l;
     moreResults := more |}.

Definition failure (code : Z) (text : string) : Response Z :=
  {| status := code; statusText := text; accounts := []; moreResults := false |}.

(** Two pages, the first one delivered at the second attempt. *)
Definition twoPages : list (Answer Z) :=
  [Resolve (failure 429 "Too Many Requests");
   Resolve (page [(ibanA, 10%Z); (ibanC, 5%Z)] true);
   Resolve (page [(ibanB, 32%Z)] false)].

(** The token is refused three times in a row, then accepted. *)
Definition refusals : list (Answer Z) :=
  [Resolve (failure 401 "Unauthorized");
   Resolve (failure 401 "Unauthorized");
   Resolve (failure 403 "Forbidden");
   Resolve (failure 401 "Unauthorized");
   Resolve (page [(ibanA, 10%Z)] false)].

(** The bank is overloaded throughout. *)
Definition overload : list (Answer Z) :=
  [Resolve (failure 429 "Too Many Requests");
   Resolve (failure 429 "Too Many Requests");
   Resolve (failure 429 "Too Many Requests");
   Resolve (page [(ibanA, 10%Z)] false)].

(** The parameters of a request, in two orders. *)
Definition params : list (string * Value) :=
  [("signingAlgorithm", VStr "rsa-sha512"); ("ibanIDs", VStr ibanA)].

Definition paramsSwapped : list (string * Value) :=
  [("ibanIDs", VStr ibanA); ("signingAlgorithm", VStr "rsa-sha512")].

(** A serializer that lists the names of the properties. *)
Definition stringify (v : Value) : string :=
  match v with
  | VObj fs => foldr (fun x acc => (x.1 ++ ";" ++ acc)%string) "" fs
  | _ => "?"
  end.

End Bank.

End BankFrick.

(** * The websocket transport of the DxFeed adapter

    The [open] handler of [wsTransport] and its message builders.  The
    frames that the socket delivers are an input of the model, each given
    as the first element of its parsed array, with the fields that the
    handler reads; [parseInt] and [toUpperCase] are parameters.  A frame
    that is not JSON or is an empty array makes the listener throw and is
    left out. *)

Module DxFeed.

Definition META_HANDSHAKE : string := "/meta/handshake".
Definition META_CONNECT : string := "/meta/connect".
Definition SERVICE_SUB : string := "/service/sub".

(** [message = JSON.parse(data.toString())[0]] *)
Record Entry : Type := {
  channel : string;
  clientId : option string;     (* undefined when absent *)
  id : string;
}.

(** What the module keeps between frames and between connections:
    [wsTransport.connectionClientId] and the fields of the two heartbeat
    messages that the listener overwrites. *)
Record Memory : Type := {
  connectionClientId : string;
  firstHeartbeat_clientId : string;    (* firstHeartbeatMsg[0].clientId *)
  heartbeat_clientId : string;         (* heartbeatMsg[0].clientId *)
  heartbeat_id : option Z;             (* heartbeatMsg[0].id; [None] is NaN *)
}.

(** The module as it is loaded. *)
Definition loaded : Memory :=
  {| connectionClientId := "";
     firstHeartbeat_clientId := "";
     heartbeat_clientId := "";
     heartbeat_id := Some 3%Z |}.

(** What is sent over the connection. *)
Inductive Frame : Type :=
  | Handshake                                          (* handshakeMsg *)
  | FirstHeartbeat (clientId : string)                 (* firstHeartbeatMsg *)
  | Heartbeat (id : option Z) (clientId : string)      (* heartbeatMsg *)
  | Subscription (add : bool) (symbol clientId : string).
      (* subscribeMessage ([add]) or unsubscribeMessage *)

(** What [open] sends when it is called. *)
Definition opening : list Frame := [Handshake].

(** A handshake reply that the listener acts on:
    [message.clientId && message.channel === '/meta/handshake'] *)
Definition isHandshake (m : Entry) : bool :=
  match clientId m with
  | Some c => negb (String.eqb c "") && String.eqb (channel m) META_HANDSHAKE
  | None => false
  end.

(** [message.channel === '/meta/connect'] *)
Definition isConnect (m : Entry) : bool := String.eqb (channel m) META_CONNECT.

Section Transport.
Variable parseInt : string -> option Z.
Variable toUpperCase : string -> string.

(** The listener that [open] registers for [message]: the memory after the
    frame, what was sent, and whether [resolve] was called. *)
Definition listener (mem : Memory) (m : Entry) : Memory * list Frame * bool :=
  let '(mem, sent) :=
    if isHandshake m then
      let c := default "" (clientId m) in
      ({| connectionClientId := c;
          firstHeartbeat_clientId := c;
          heartbeat_clientId := heartbeat_clientId mem;
          heartbeat_id := heartbeat_id mem |},
       [FirstHeartbeat c])
    else (mem, []) in
  if isConnect m then
    let mem :=
      {| connectionClientId := connectionClientId mem;
         firstHeartbeat_clientId := firstHeartbeat_clientId mem;
         heartbeat_clientId := connectionClientId mem;
         heartbeat_id := (fun n => (n + 1)%Z) <$> parseInt (id m) |} in
    (mem, sent ++ [Heartbeat (heartbeat_id mem) (heartbeat_clientId mem)], true)
  else (mem, sent, false).

(** The listener run on the frames of a connection, in order. *)
Fixpoint receive (mem : Memory) (ms : list Entry) : Memory * list Frame * bool :=
  match ms with
  | [] => (mem, [], false)
  | m :: ms =>
      let '(mem, sent, resolve) := listener mem m in
      let '(mem, sent', resolved) := receive mem ms in
      (mem, sent ++ sent', resolve || resolved)
  end.

(** [builders.subscribeMessage] and [builders.unsubscribeMessage] *)
Definition subscribeMessage (mem : Memory) (base : string) : Frame :=
  Subscription true (toUpperCase base) (connectionClientId mem).

Definition unsubscribeMessage (mem : Memory) (base : string) : Frame :=
  Subscription false (toUpperCase base) (connectionClientId mem).

End Transport.

(** The client ids of the heartbeats among some frames. *)
Definition heartbeatIds (sent : list Frame) : list string :=
  omap (fun f => match f with Heartbeat _ c => Some c | _ => None end) sent.

(** *** A session *)

Module Session.

Definition parseInt (s : string) : option Z :=
  match s with
  | "1" => Some 1%Z
  | "2" => Some 2%Z
  | "3" => Some 3%Z
  | _ => None
  end.

Definition hello : Entry :=
  {| channel := META_HANDSHAKE; clientId := Some "c-42"; id := "1" |}.

Definition beat (n : string) : Entry :=
  {| channel := META_CONNECT; clientId := Some "c-42"; id := n |}.

Definition quoteData : Entry :=
  {| channel := "/service/data"; clientId := None; id := "" |}.

End Session.

End DxFeed.

(** * Properties *)

(** ** The deserializer *)

Section Deserializer.
Variable getSubsId : Value -> string.
Variable JSON_parse : Value -> Completion Value.

Lemma deserializer_parsed message v :
  JSON_parse (prop "data" message) = Normal v ->
  deserializer JSON_parse message = ([], Normal v).
Proof. intros H. unfold deserializer, tryCatch, lift. by rewrite H. Qed.

Lemma deserializer_returns message :
  exists es v, deserializer JSON_parse message = (es, Normal v).
Proof.
  unfold deserializer, tryCatch, lift.
  destruct (JSON_parse (prop "data" message)) as [v|e]; [by exists [], v|].
  by eexists _, _.
Qed.

Lemma onmessage_next e : exists v, onmessage JSON_parse e = Next v.
Proof.
  unfold onmessage, outcome.
  destruct (deserializer_returns e) as (es & v & ->). by exists v.
Qed.

End Deserializer.

(** C10: a message whose [data] is not parseable JSON makes the deserializer
    log at debug level and return the raw message; the deserializer returns
    for every message, so the socket subject never turns a message into an
    error. *)
Theorem deserializer_total (JSON_parse : Value -> Completion Value) message e :
  JSON_parse (prop "data" message) = Throw e ->
  deserializer JSON_parse message
    = ([Log debug "WS: Message received with invalid format"], Normal message)
  /\ onmessage JSON_parse message = Next message
  /\ (forall m, exists es v, deserializer JSON_parse m = (es, Normal v))
  /\ (forall m, exists v, onmessage JSON_parse m = Next v).
Proof.
  intros H. split_and!.
  - unfold deserializer, tryCatch, lift. by rewrite H.
  - unfold onmessage, outcome, deserializer, tryCatch, lift. by rewrite H.
  - apply deserializer_returns.
  - apply onmessage_next.
Qed.

Lemma deserializer_total_witness :
  Scenario.JSON_parse (prop "data" (VObj [("data", VStr "<html>")])) = Throw "Unexpected token"
  /\ deserializer Scenario.JSON_parse (VObj [("data", VStr "<html>")])
     = ([Log debug "WS: Message received with invalid format"],
        Normal (VObj [("data", VStr "<html>")])).
Proof.
  split; [reflexivity|].
  apply (deserializer_total Scenario.JSON_parse (VObj [("data", VStr "<html>")])
           "Unexpected token").
  reflexivity.
Defined.

(** ** Facts about the operators *)

(** Case analysis on the membership of an explicit list. *)
Ltac elem_inv H :=
  repeat (first [ apply elem_of_nil in H; destruct H
                | apply elem_of_cons in H as [H|H] ]);
  try discriminate; simplify_eq.

Section RxFacts.
Context {A : Type}.
Implicit Types (o : Obs A) (l : list (Notification A)).

Lemma cut_elem l x : x ∈ Rx.cut l -> x ∈ l.
Proof.
  induction l as [|y l IH]; simpl; [done|].
  destruct (Rx.isTerminal y).
  - intros ->%list_elem_of_singleton. left.
  - intros [->|H]%elem_of_cons; [left|right; auto].
Qed.

Lemma cut_id l : existsb Rx.isTerminal l = false -> Rx.cut l = l.
Proof.
  induction l as [|y l IH]; simpl; [done|].
  intros [-> H]%orb_false_elim. by rewrite IH.
Qed.

Lemma closedBefore_true o n :
  Rx.closedBefore o n = true <->
  exists m, m < n /\ existsb Rx.isTerminal (o m) = true.
Proof.
  induction n as [|n IH]; simpl.
  - split; [done|]. intros (m & ? & _). lia.
  - rewrite orb_true_iff, IH. split.
    + intros [(m & ? & ?)|?]; [exists m|exists n]; split; auto; lia.
    + intros (m & Hm & H). destruct (decide (m = n)) as [->|]; [by right|].
      left. exists m. split; [lia|done].
Qed.

Lemma closedBefore_false o n :
  (forall m, m < n -> existsb Rx.isTerminal (o m) = false) ->
  Rx.closedBefore o n = false.
Proof.
  intros H. apply not_true_is_false. rewrite closedBefore_true.
  intros (m & Hm & Ht). rewrite (H m Hm) in Ht. done.
Qed.

Lemma closedBefore_mono o m n :
  m <= n -> Rx.closedBefore o m = true -> Rx.closedBefore o n = true.
Proof.
  rewrite !closedBefore_true. intros ? (k & ? & ?). exists k. split; [lia|done].
Qed.

Lemma closedBefore_ext o o' n :
  (forall m, m < n -> o m = o' m) -> Rx.closedBefore o n = Rx.closedBefore o' n.
Proof.
  induction n as [|n IH]; simpl; [done|]. intros H.
  rewrite IH by (intros; apply H; lia). by rewrite (H n) by lia.
Qed.

Lemma seal_elem o n x : x ∈ Rx.seal o n -> x ∈ o n.
Proof.
  unfold Rx.seal. destruct (Rx.closedBefore o n); [by intros ?%elem_of_nil|].
  apply cut_elem.
Qed.

Lemma seal_nil o n : o n = [] -> Rx.seal o n = [].
Proof. unfold Rx.seal. intros ->. by destruct (Rx.closedBefore o n). Qed.

Lemma seal_open o n :
  (forall m, m < n -> existsb Rx.isTerminal (o m) = false) ->
  Rx.seal o n = Rx.cut (o n).
Proof. intros H. unfold Rx.seal. by rewrite closedBefore_false. Qed.

Lemma seal_id o n :
  (forall m, m <= n -> existsb Rx.isTerminal (o m) = false) ->
  Rx.seal o n = o n.
Proof.
  intros H. rewrite seal_open by (intros; apply H; lia). apply cut_id, H. lia.
Qed.

Lemma seal_closed o m n :
  m < n -> existsb Rx.isTerminal (o m) = true -> Rx.seal o n = [].
Proof.
  intros Hm Ht. unfold Rx.seal.
  replace (Rx.closedBefore o n) with true; [done|].
  symmetry. apply closedBefore_true. eauto.
Qed.

Lemma seal_ext o o' n :
  (forall m, m <= n -> o m = o' m) -> Rx.seal o n = Rx.seal o' n.
Proof.
  intros H. unfold Rx.seal.
  rewrite (closedBefore_ext o o') by (intros; apply H; lia).
  by rewrite (H n) by lia.
Qed.

Lemma existsb_terminal_false l :
  existsb Rx.isTerminal l = false <-> forall x, x ∈ l -> Rx.isTerminal x = false.
Proof.
  induction l as [|y l IH]; simpl.
  - split; [|done]. by intros _ x ?%elem_of_nil.
  - rewrite orb_false_iff, IH. split.
    + intros [? H] x [->|?]%elem_of_cons; auto.
    + intros H. split; [apply H; left|]. intros x ?. apply H. by right.
Qed.


Lemma values_elem l a : a ∈ Rx.values l <-> Next a ∈ l.
Proof.
  unfold Rx.values. rewrite list_elem_of_omap. split.
  - intros (x & Hx & Hs). destruct x; by simplify_eq.
  - intros H. by exists (Next a).
Qed.

Lemma values_nil l : (forall a, Next a ∉ l) -> Rx.values l = [].
Proof.
  intros H. apply elem_of_nil_inv. intros a Ha%values_elem. by apply (H a).
Qed.

Lemma values_app l1 l2 : Rx.values (l1 ++ l2) = Rx.values l1 ++ Rx.values l2.
Proof. unfold Rx.values. apply omap_app. Qed.

Lemma filter_elem (p : A -> bool) o n x :
  x ∈ Rx.filter p o n <->
  x ∈ o n /\ match x with Next a => p a = true | _ => True end.
Proof.
  unfold Rx.filter. rewrite !list_elem_of_In, filter_In.
  destruct x; intuition.
Qed.

Lemma subscribedAt_elem i o n x :
  x ∈ Rx.subscribedAt i o n <-> i < n /\ x ∈ o n.
Proof.
  unfold Rx.subscribedAt. destruct (Nat.ltb_spec i n).
  - intuition.
  - split; [by intros ?%elem_of_nil|]. intros [? _]. lia.
Qed.

Lemma of_at i (xs : list A) : Rx.of_ i xs i = (Next <$> xs) ++ [Complete].
Proof. unfold Rx.of_. by rewrite Nat.eqb_refl. Qed.

Lemma of_other i (xs : list A) n : n <> i -> Rx.of_ i xs n = [].
Proof. unfold Rx.of_. intros H. by apply Nat.eqb_neq in H as ->. Qed.

End RxFacts.

Section RaceFacts.
Context {A : Type}.
Implicit Types (o : Obs A).

Lemma winner_None o1 o2 k :
  Rx.winner o1 o2 k = None <-> forall m, m < k -> o1 m = [] /\ o2 m = [].
Proof.
  induction k as [|k IH]; simpl.
  - split; [|done]. intros _ m ?. lia.
  - destruct (Rx.winner o1 o2 k) as [w|] eqn:Hw.
    + split; [done|]. intros H.
      assert (Some w = None) as Hc; [|done].
      apply IH. intros m ?. apply H. lia.
    + destruct IH as [IH _]. specialize (IH eq_refl).
      destruct (o1 k) eqn:H1; [destruct (o2 k) eqn:H2|].
      * split; [|done]. intros _ m Hm.
        destruct (decide (m = k)) as [->|]; [done|]. apply IH. lia.
      * split; [done|]. intros H. destruct (H k) as [_ Hk]; [lia|congruence].
      * split; [done|]. intros H. destruct (H k) as [Hk _]; [lia|congruence].
Qed.

Lemma winner_stable o1 o2 k k' w :
  k <= k' -> Rx.winner o1 o2 k = Some w -> Rx.winner o1 o2 k' = Some w.
Proof.
  induction 1 as [|k' _ IH]; [done|]. intros H. simpl. by rewrite (IH H).
Qed.

Lemma winner_left o1 o2 k :
  (forall m, m < k -> o2 m = []) ->
  Rx.winner o1 o2 k = None \/ Rx.winner o1 o2 k = Some true.
Proof.
  induction k as [|k IH]; simpl; [by left|]. intros H.
  destruct IH as [->| ->]; [intros; apply H; lia| |by right].
  destruct (o1 k); [|by right]. rewrite (H k) by lia. by left.
Qed.

Lemma winner_right o1 o2 k :
  (forall m, m < k -> o1 m = []) ->
  Rx.winner o1 o2 k = None \/ Rx.winner o1 o2 k = Some false.
Proof.
  induction k as [|k IH]; simpl; [by left|]. intros H.
  destruct IH as [->| ->]; [intros; apply H; lia| |by right].
  rewrite (H k) by lia. destruct (o2 k); [by left|by right].
Qed.

(** The first observable wins when it delivers while the second is still
    silent. *)
Lemma race_left o1 o2 j :
  (forall m, m <= j -> o2 m = []) ->
  (exists m, m <= j /\ o1 m <> []) ->
  forall n, Rx.race o1 o2 n = o1 n.
Proof.
  intros H2 (m0 & Hm0 & H1) n. unfold Rx.race.
  assert (Rx.winner o1 o2 (S m0) = Some true) as Hw.
  { destruct (winner_left o1 o2 (S m0)) as [Hn|]; [intros; apply H2; lia| |done].
    rewrite winner_None in Hn. destruct (Hn m0) as [? _]; [lia|done]. }
  destruct (decide (m0 <= n)).
  - by rewrite (winner_stable _ _ (S m0) (S n) true) by (done || lia).
  - destruct (winner_left o1 o2 (S n)) as [Hn| ->];
      [intros; apply H2; lia| |done].
    rewrite Hn. rewrite winner_None in Hn. destruct (Hn n) as [-> _]; [lia|done].
Qed.

(** The second observable wins when it delivers while the first is still
    silent. *)
Lemma race_right o1 o2 q :
  (forall m, m <= q -> o1 m = []) ->
  (exists m, m <= q /\ o2 m <> []) ->
  forall n, Rx.race o1 o2 n = o2 n.
Proof.
  intros H1 (m0 & Hm0 & H2) n. unfold Rx.race.
  assert (Rx.winner o1 o2 (S m0) = Some false) as Hw.
  { destruct (winner_right o1 o2 (S m0)) as [Hn|]; [intros; apply H1; lia| |done].
    rewrite winner_None in Hn. destruct (Hn m0) as [_ ?]; [lia|done]. }
  destruct (decide (m0 <= n)).
  - by rewrite (winner_stable _ _ (S m0) (S n) false) by (done || lia).
  - destruct (winner_right o1 o2 (S n)) as [Hn| ->];
      [intros; apply H1; lia| |done].
    rewrite Hn. rewrite winner_None in Hn. destruct (Hn n) as [_ ->]; [lia|done].
Qed.

Lemma race_silent o1 o2 n :
  (forall m, m <= n -> o1 m = [] /\ o2 m = []) -> Rx.race o1 o2 n = [].
Proof.
  intros H. unfold Rx.race.
  replace (Rx.winner o1 o2 (S n)) with (@None bool); [done|].
  symmetry. apply winner_None. intros m ?. apply H. lia.
Qed.

Lemma race_elem o1 o2 n x : x ∈ Rx.race o1 o2 n -> x ∈ o1 n \/ x ∈ o2 n.
Proof.
  unfold Rx.race. destruct (Rx.winner o1 o2 (S n)) as [[]|]; auto.
  by intros ?%elem_of_nil.
Qed.

Lemma seal_nonempty_exists o j :
  o j <> [] -> exists m, m <= j /\ Rx.seal o m <> [].
Proof.
  induction j as [j IH] using lt_wf_ind. intros Hj.
  destruct (Rx.closedBefore o j) eqn:Hc.
  - apply closedBefore_true in Hc as (m & Hm & Ht).
    destruct (IH m Hm) as (m' & ? & ?).
    { intros E. rewrite E in Ht. done. }
    exists m'. split; [lia|done].
  - exists j. split; [done|]. unfold Rx.seal. rewrite Hc.
    destruct (o j) as [|x l]; [done|]. simpl. by destruct (Rx.isTerminal x).
Qed.

Lemma take1_elem o n a : Next a ∈ Rx.take1 o n -> Next a ∈ o n.
Proof.
  unfold Rx.take1. intros H%seal_elem.
  apply list_elem_of_bind in H as (y & Hy & Hin).
  destruct y; elem_inv Hy; done.
Qed.

Lemma take1_noError o n e :
  (forall e', Error e' ∉ o n) -> Error e ∉ Rx.take1 o n.
Proof.
  unfold Rx.take1. intros Hno H%seal_elem.
  apply list_elem_of_bind in H as (y & Hy & Hin).
  destruct y; elem_inv Hy. by eapply Hno.
Qed.

Lemma take1_nil o n : o n = [] -> Rx.take1 o n = [].
Proof. intros H. unfold Rx.take1. apply seal_nil. by rewrite H. Qed.

Lemma take1_nonempty_exists o j :
  o j <> [] -> exists m, m <= j /\ Rx.take1 o m <> [].
Proof.
  intros H. unfold Rx.take1. apply seal_nonempty_exists.
  destruct (o j) as [|x l]; [done|]. csimpl. by destruct x.
Qed.

End RaceFacts.

Section ClockFacts.
Variable tr : Trace.

Lemma clock_S n :
  clock tr (S n) =
  clock tr n + match tr !! n with Some (Tick, _) => 1 | _ => 0 end.
Proof.
  unfold clock. destruct (tr !! n) as [[e st]|] eqn:H.
  - rewrite (take_S_r _ _ _ H), List.filter_app, length_app. simpl.
    by destruct e.
  - apply lookup_ge_None in H. rewrite !take_ge by lia. lia.
Qed.

Lemma clock_mono m n : m <= n -> clock tr m <= clock tr n.
Proof.
  induction 1 as [|n _ IH]; [done|]. rewrite clock_S. lia.
Qed.

Lemma clock_dispatch n a st :
  tr !! n = Some (Dispatch a, st) -> clock tr (S n) = clock tr n.
Proof. intros H. rewrite clock_S, H. lia. Qed.

Lemma due_spec d p q :
  Rx.due tr d p q = true <->
  (exists st, tr !! q = Some (Tick, st)) /\ p < q /\
  clock tr (S q) = clock tr (S p) + Nat.max 1 d.
Proof.
  unfold Rx.due. destruct (tr !! q) as [[[] st]|]; try (split; [done|]);
    try (by intros [[? [=]] _]).
  rewrite andb_true_iff, Nat.ltb_lt, Nat.eqb_eq. split.
  - intros [? ?]. split; [by eexists|]. split; [done|lia].
  - intros (_ & ? & ?). split; [done|lia].
Qed.

(** A timer fires once. *)
Lemma due_unique d p q q' :
  Rx.due tr d p q = true -> Rx.due tr d p q' = true -> q = q'.
Proof.
  rewrite !due_spec. intros ([st Hq] & ? & Hc) ([st' Hq'] & ? & Hc').
  destruct (Nat.lt_trichotomy q q') as [Hlt|[->|Hlt]]; [|done|].
  - pose proof (clock_mono (S q) q' Hlt). rewrite (clock_S q'), Hq' in Hc'. lia.
  - pose proof (clock_mono (S q') q Hlt). rewrite (clock_S q), Hq in Hc. lia.
Qed.

(** A timer does not fire before its delay has elapsed. *)
Lemma due_not_before d p q j :
  Rx.due tr d p q = true -> q < j -> clock tr p + Nat.max 1 d <= clock tr j.
Proof.
  rewrite due_spec. intros ([st Hq] & ? & Hc) Hj.
  pose proof (clock_mono p (S p)). pose proof (clock_mono (S q) j). lia.
Qed.

Lemma bind_seq_single {B} (f : nat -> list B) i n :
  (forall p, p <> i -> f p = []) ->
  seq 0 n ≫= f = if i <? n then f i else [].
Proof.
  intros H. induction n as [|n IH]; [done|].
  rewrite seq_S, bind_app, IH. simpl. rewrite app_nil_r.
  destruct (Nat.ltb_spec i n), (Nat.ltb_spec i (S n)); try lia.
  - rewrite (H n) by lia. by rewrite app_nil_r.
  - by replace n with i by lia.
  - by rewrite (H n) by lia.
Qed.

(** [of(xs).pipe(delay(d))] subscribed at [i] delivers [xs] at the
    position where the timer fires, and nothing elsewhere. *)
Lemma delay_of {A} d i (xs : list A) n :
  Rx.delay tr d (Rx.of_ i xs) n =
  if Rx.due tr d i n then (Next <$> xs) ++ [Complete] else [].
Proof.
  unfold Rx.delay.
  rewrite (bind_seq_single _ i).
  - rewrite of_at. destruct (Rx.due tr d i n) eqn:Hd.
    + apply due_spec in Hd as (_ & Hlt & _).
      by apply Nat.ltb_lt in Hlt as ->.
    + by destruct (i <? n).
  - intros p Hp. rewrite of_other by done. by destruct (Rx.due tr d p n).
Qed.

End ClockFacts.

(** ** The idle-unsubscribe timer *)

Section Timers.
Variable getSubsId : Value -> string.
Variable tr : Trace.

Lemma allBetween_spec (P : Event -> bool) a b :
  allBetween tr P a b = true ->
  forall m e st, a < m < b -> tr !! m = Some (e, st) -> P e = true.
Proof.
  unfold allBetween. rewrite forallb_forall. intros H m e st Hm Hl.
  specialize (H m). rewrite Hl in H. apply H. apply in_seq. lia.
Qed.

Lemma action_elem n x :
  x ∈ action_ tr n <-> exists a st, tr !! n = Some (Dispatch a, st) /\ x = Next a.
Proof.
  unfold action_. destruct (tr !! n) as [[[] st]|];
    try (split; [by intros ?%elem_of_nil|by intros (? & ? & [=] & _)]).
  rewrite list_elem_of_singleton. split.
  - intros ->. by eexists _, _.
  - by intros (? & ? & [= <- _] & ->).
Qed.

Lemma action_noError n e : Error e ∉ action_ tr n.
Proof. by intros (? & ? & _ & [=])%action_elem. Qed.

Lemma resets_elem i k n x :
  x ∈ resets getSubsId tr i k n ->
  exists p st, x = Next (subscribe p) /\ tr !! n = Some (Dispatch (subscribe p), st)
               /\ i < n /\ getSubsId (subscriptionMsg p) = k.
Proof.
  unfold resets, subscriptions_.
  intros [[[Hn Ha]%subscribedAt_elem _]%filter_elem Hp]%filter_elem.
  apply action_elem in Ha as (a & st & Hl & ->).
  destruct a; try done. simpl in Hp. apply String.eqb_eq in Hp.
  by eexists _, _.
Qed.

Lemma resets_at i k n p st :
  i < n -> tr !! n = Some (Dispatch (subscribe p), st) ->
  getSubsId (subscriptionMsg p) = k ->
  resets getSubsId tr i k n = [Next (subscribe p)].
Proof.
  intros Hn Hl Hk. unfold resets, subscriptions_, Rx.filter, Rx.subscribedAt, action_.
  apply Nat.ltb_lt in Hn as ->. rewrite Hl. simpl.
  by rewrite <- Hk, String.eqb_refl.
Qed.

Lemma resets_silent i k n :
  (forall p st, i < n -> tr !! n = Some (Dispatch (subscribe p), st) ->
                getSubsId (subscriptionMsg p) <> k) ->
  resets getSubsId tr i k n = [].
Proof.
  intros H. apply elem_of_nil_inv. intros x Hx.
  apply resets_elem in Hx as (p & st & _ & Hl & Hn & Hk).
  by apply (H p st).
Qed.

End Timers.

Section TimerRace.
Context {A : Type}.
Variable tr : Trace.
Variable keep : A -> bool.
Variable resetSource : Obs A.
Variable d i : nat.
Variable xs : list A.

(** The shape shared by both timers:
    [race(resetSource.pipe(take(1)), of(xs).pipe(delay(d))).pipe(filter(keep))],
    subscribed at [i]. *)
Local Abbreviation timerRace :=
  (Rx.filter keep (Rx.race (Rx.take1 resetSource) (Rx.delay tr d (Rx.of_ i xs)))).

Hypothesis reset_dropped : forall n a, Next a ∈ resetSource n -> keep a = false.
Hypothesis timeout_kept : forall a, a ∈ xs -> keep a = true.

(** A reset that arrives before the timer fires wins the race, and the race
    delivers no value. *)
Lemma timerRace_reset j :
  resetSource j <> [] ->
  (forall st, tr !! j <> Some (Tick, st)) ->
  clock tr j < clock tr i + Nat.max 1 d ->
  forall n, Rx.values (timerRace n) = [].
Proof.
  intros Hj Hnt Hclock n.
  apply values_nil. intros a [Ha Hp]%filter_elem.
  rewrite (race_left _ _ j) in Ha.
  - apply take1_elem, reset_dropped in Ha. congruence.
  - intros m Hm. rewrite delay_of.
    destruct (Rx.due tr d i m) eqn:Hd; [|done].
    assert (m <> j).
    { intros ->. apply due_spec in Hd as ([? Hq] & _). by apply Hnt in Hq. }
    pose proof (due_not_before tr _ _ _ j Hd). lia.
  - by apply take1_nonempty_exists.
Qed.

Lemma values_kept (l : list A) :
  (forall a, a ∈ l -> keep a = true) ->
  Rx.values (List.filter (fun x => match x with Next a => keep a | _ => true end)
               ((Next <$> l) ++ [Complete])) = l.
Proof.
  induction l as [|a l IH]; [done|]. intros H. simpl.
  rewrite (H a) by left.
  change (a :: Rx.values (List.filter
            (fun x => match x with Next a => keep a | _ => true end)
            ((Next <$> l) ++ [Complete])) = a :: l).
  rewrite IH; [done|]. intros a' ?. apply H. by right.
Qed.

(** Without a reset before the timer fires, the race delivers the delayed
    values when the timer fires and nothing at any other time. *)
Lemma timerRace_timeout q :
  Rx.due tr d i q = true ->
  (forall m, m <= q -> resetSource m = []) ->
  forall n, Rx.values (timerRace n) = if decide (n = q) then xs else [].
Proof.
  intros Hq Hquiet n.
  assert (forall n, Rx.race (Rx.take1 resetSource) (Rx.delay tr d (Rx.of_ i xs)) n
                    = Rx.delay tr d (Rx.of_ i xs) n) as Hr.
  { apply (race_right _ _ q).
    - intros m Hm. by apply take1_nil, Hquiet.
    - exists q. split; [done|]. rewrite delay_of, Hq. by destruct xs. }
  unfold Rx.filter. rewrite Hr, delay_of.
  destruct (decide (n = q)) as [->|Hn].
  - rewrite Hq. by apply values_kept.
  - destruct (Rx.due tr d i n) eqn:Hd; [|done].
    destruct Hn. by eapply due_unique.
Qed.

Lemma timerRace_noError n e :
  (forall m e', Error e' ∉ resetSource m) -> Error e ∉ timerRace n.
Proof.
  intros Hr [[H|H]%race_elem _]%filter_elem.
  - revert H. apply take1_noError. intros e'. apply Hr.
  - rewrite delay_of in H. destruct (Rx.due _ _ _ _); [|elem_inv H].
    apply elem_of_app in H as [(? & [=] & _)%list_elem_of_fmap|H]. elem_inv H.
Qed.

Lemma timerRace_before n :
  n <= i -> (forall m, m <= i -> resetSource m = []) -> timerRace n = [].
Proof.
  intros Hn Hr. unfold Rx.filter.
  rewrite race_silent; [done|]. intros m Hm. split.
  - apply take1_nil, Hr. lia.
  - rewrite delay_of. destruct (Rx.due _ _ _ _) eqn:Hd; [|done].
    apply due_spec in Hd. lia.
Qed.

End TimerRace.

Section IdleTimer.
Variable getSubsId : Value -> string.
Variable tr : Trace.
Variable cfg : WSConfig.

Local Abbreviation key_of payload := (getSubsId (subscriptionMsg payload)).

Lemma idleRace_unfold i payload :
  idleRace getSubsId tr cfg i payload =
  Rx.filter (fun a => negb (matches Match.subscribe a))
    (Rx.race (Rx.take1 (resets getSubsId tr i (key_of payload)))
       (Rx.delay tr (subscriptionTTL cfg) (Rx.of_ i [unsubscribe payload]))).
Proof. reflexivity. Qed.

Lemma resets_dropped i k n a :
  Next a ∈ resets getSubsId tr i k n -> negb (matches Match.subscribe a) = false.
Proof. by intros (p & ? & [= ->] & _)%resets_elem. Qed.

(** A matching subscribe action that arrives before the timer fires wins
    the race, and the race delivers no action. *)
Lemma idleRace_reset i payload j p' st :
  i < j ->
  tr !! j = Some (Dispatch (subscribe p'), st) ->
  key_of p' = key_of payload ->
  clock tr j < clock tr i + Nat.max 1 (subscriptionTTL cfg) ->
  forall n, Rx.values (idleRace getSubsId tr cfg i payload n) = [].
Proof.
  intros Hij Hj Hk Hclock n. rewrite idleRace_unfold.
  apply (timerRace_reset tr _ _ _ _ _ (resets_dropped i _) j).
  - by rewrite (resets_at _ _ _ _ _ p' st).
  - congruence.
  - done.
Qed.

(** Without a matching subscribe action before the timer fires, the race
    delivers the unsubscribe action when the timer fires and nothing at any
    other time. *)
Lemma idleRace_timeout i payload q :
  Rx.due tr (subscriptionTTL cfg) i q = true ->
  allBetween tr (fun e => negb (isSubscribeFor getSubsId (key_of payload) e)) i q = true ->
  forall n, Rx.values (idleRace getSubsId tr cfg i payload n) =
            if decide (n = q) then [unsubscribe payload] else [].
Proof.
  intros Hq Hquiet n. rewrite idleRace_unfold.
  apply (timerRace_timeout tr _ _ _ _ _ ); [|done|].
  - intros a Ha. by elem_inv Ha.
  - intros m Hm. apply resets_silent. intros p st Him Hl Hk.
    destruct (decide (m = q)) as [->|].
    + apply due_spec in Hq as ([? Hq] & _). congruence.
    + pose proof (allBetween_spec tr _ _ _ Hquiet m _ _ ltac:(lia) Hl) as Hb.
      simpl in Hb. rewrite Hk, String.eqb_refl in Hb. done.
Qed.

Lemma idleRace_noError i payload n e :
  Error e ∉ idleRace getSubsId tr cfg i payload n.
Proof.
  rewrite idleRace_unfold. apply timerRace_noError.
  intros m e' (? & ? & [=] & _)%resets_elem.
Qed.

Lemma idleRace_before i payload n :
  n <= i -> idleRace getSubsId tr cfg i payload n = [].
Proof.
  intros Hn. rewrite idleRace_unfold. apply timerRace_before; [done|].
  intros m Hm. apply resets_silent. intros; lia.
Qed.

End IdleTimer.


Section MergeMapFacts.
Context {A B : Type}.

Lemma values_bind {C} (l : list C) (f : C -> list (Notification B)) :
  Rx.values (l ≫= f) = l ≫= (fun x => Rx.values (f x)).
Proof.
  induction l as [|x l IH]; [done|].
  change ((x :: l) ≫= f) with (f x ++ (l ≫= f)).
  by rewrite values_app, IH.
Qed.

Lemma values_without_complete (l : list (Notification B)) :
  Rx.values (List.filter (fun y => match y with Complete => false | _ => true end) l)
  = Rx.values l.
Proof.
  induction l as [|y l IH]; [done|].
  destruct y; simpl; [| |done].
  - change (Rx.values (Next a :: ?l)) with (a :: Rx.values l). by rewrite IH.
  - done.
Qed.

Lemma bind_values (l : list (Notification A)) (f : A -> list B) :
  existsb Rx.isTerminal l = false ->
  (l ≫= fun x => match x with Next a => f a | _ => [] end) = Rx.values l ≫= f.
Proof.
  induction l as [|y l IH]; [done|]. simpl. intros [Hy Hl]%orb_false_elim.
  destruct y; [|done|done].
  change (f a ++ (l ≫= fun x => match x with Next a => f a | _ => [] end)
          = f a ++ (Rx.values l ≫= f)).
  by rewrite IH.
Qed.

Lemma mergeMapRaw_elem (project : nat -> A -> Obs B) o n y :
  y ∈ Rx.mergeMapRaw project o n ->
  (exists p a, p <= n /\ Next a ∈ o p /\ y ∈ project p a n /\ y <> Complete)
  \/ (exists e, y = Error e /\ Error e ∈ o n).
Proof.
  unfold Rx.mergeMapRaw.
  intros (p & (x & Hy & Hx)%list_elem_of_bind & Hp%elem_of_seq)%list_elem_of_bind.
  destruct x as [a|e|].
  - left. exists p, a. apply list_elem_of_In, filter_In in Hy as [Hy Hc].
    split_and!; [lia|done|by apply list_elem_of_In|]. by intros ->.
  - right. destruct (Nat.eqb_spec p n) as [->|]; elem_inv Hy. by exists e.
  - elem_inv Hy.
Qed.

Lemma mergeMap_elem (project : nat -> A -> Obs B) o n y :
  y ∈ Rx.mergeMap project o n ->
  (exists p a, p <= n /\ Next a ∈ o p /\ y ∈ project p a n /\ y <> Complete)
  \/ (exists e, y = Error e /\ Error e ∈ o n).
Proof. intros H%seal_elem. by apply mergeMapRaw_elem. Qed.

Lemma mergeMapRaw_values (project : nat -> A -> Obs B) o n :
  (forall m, m <= n -> existsb Rx.isTerminal (o m) = false) ->
  Rx.values (Rx.mergeMapRaw project o n) =
  p ← seq 0 (S n); a ← Rx.values (o p); Rx.values (project p a n).
Proof.
  intros Ho. unfold Rx.mergeMapRaw. rewrite values_bind.
  apply Forall_bind_ext, Forall_forall. intros p Hp%elem_of_seq.
  rewrite values_bind. rewrite <- bind_values by (apply Ho; lia).
  apply list_bind_ext; [|done]. intros [a|e|]; [|by destruct (p =? n)|done].
  apply values_without_complete.
Qed.

(** When neither the source nor an inner observable fails, [mergeMap]
    delivers the values of all inner observables, oldest subscription
    first. *)
Lemma mergeMap_values (project : nat -> A -> Obs B) o n :
  (forall m, m <= n -> existsb Rx.isTerminal (o m) = false) ->
  (forall p a m e, p <= m -> m <= n -> Next a ∈ o p -> Error e ∉ project p a m) ->
  Rx.values (Rx.mergeMap project o n) =
  p ← seq 0 (S n); a ← Rx.values (o p); Rx.values (project p a n).
Proof.
  intros Ho Hp. unfold Rx.mergeMap. rewrite seal_id; [by apply mergeMapRaw_values|].
  intros m Hm. apply existsb_terminal_false. intros y Hy.
  apply mergeMapRaw_elem in Hy as [(p & a & ? & Ha & Hy & Hc)|(e & -> & He)].
  - destruct y; [done| |done]. destruct (Hp p a m msg); auto.
  - assert (existsb Rx.isTerminal (o m) = false) as Hf by (apply Ho; lia).
    rewrite existsb_terminal_false in Hf. by apply Hf in He.
Qed.

End MergeMapFacts.

Section IdleTimerStream.
Variable getSubsId : Value -> string.
Variable tr : Trace.
Variable cfg : WSConfig.

Lemma subscriptions_elem i n x :
  x ∈ subscriptions_ tr i n ->
  exists p st, x = Next (subscribe p) /\ i < n /\ tr !! n = Some (Dispatch (subscribe p), st).
Proof.
  unfold subscriptions_. intros [[Hn Ha]%subscribedAt_elem Hp]%filter_elem.
  apply action_elem in Ha as (a & st & Hl & ->). destruct a; try done.
  by eexists _, _.
Qed.

Lemma subscriptions_at i n p st :
  i < n -> tr !! n = Some (Dispatch (subscribe p), st) ->
  subscriptions_ tr i n = [Next (subscribe p)].
Proof.
  intros Hn Hl. unfold subscriptions_, Rx.filter, Rx.subscribedAt, action_.
  apply Nat.ltb_lt in Hn as ->. by rewrite Hl.
Qed.

Lemma subscriptions_noTerminal i n :
  existsb Rx.isTerminal (subscriptions_ tr i n) = false.
Proof.
  apply existsb_terminal_false. intros x (p & st & -> & _)%subscriptions_elem. done.
Qed.

(** What [unsubscribeOnTimeout$] delivers is what the races it started
    deliver. *)
Lemma unsubscribeOnTimeout_values c n :
  Rx.values (unsubscribeOnTimeout getSubsId tr c cfg n) =
  p ← seq 0 (S n);
  a ← Rx.values (subscriptions_ tr c p);
  Rx.values (match Match.subscribe a with
             | Some payload => idleRace getSubsId tr cfg p payload
             | None => fun _ => []
             end n).
Proof.
  unfold unsubscribeOnTimeout. apply mergeMap_values.
  - intros. apply subscriptions_noTerminal.
  - intros p a m e _ _ (payload & st & [= ->] & _)%subscriptions_elem. simpl.
    apply idleRace_noError.
Qed.

Lemma unsubscribeOnTimeout_race c i payload st n a :
  c < i -> tr !! i = Some (Dispatch (subscribe payload), st) ->
  a ∈ Rx.values (idleRace getSubsId tr cfg i payload n) ->
  a ∈ Rx.values (unsubscribeOnTimeout getSubsId tr c cfg n).
Proof.
  intros Hc Hi Ha. rewrite unsubscribeOnTimeout_values.
  destruct (decide (n <= i)) as [Hle|Hgt].
  { rewrite idleRace_before in Ha by done. elem_inv Ha. }
  apply list_elem_of_bind. exists i. split; [|apply elem_of_seq; lia].
  apply list_elem_of_bind. exists (subscribe payload). split; [done|].
  rewrite (subscriptions_at _ _ payload st) by done. simpl. left.
Qed.

End IdleTimerStream.

Section IdleTimerOnce.
Variable getSubsId : Value -> string.
Variable tr : Trace.
Variable cfg : WSConfig.

Lemma filter_bind {A B} (P : B -> bool) (l : list A) (f : A -> list B) :
  List.filter P (l ≫= f) = l ≫= (fun x => List.filter P (f x)).
Proof.
  induction l as [|x l IH]; [done|].
  change ((x :: l) ≫= f) with (f x ++ (l ≫= f)).
  rewrite List.filter_app, IH. done.
Qed.

Lemma idleRace_value i payload n a :
  a ∈ Rx.values (idleRace getSubsId tr cfg i payload n) ->
  a = unsubscribe payload /\ Rx.due tr (subscriptionTTL cfg) i n = true.
Proof.
  intros Ha%values_elem. rewrite idleRace_unfold in Ha.
  apply filter_elem in Ha as [[Ha|Ha]%race_elem Hk].
  - apply take1_elem, resets_dropped in Ha. congruence.
  - rewrite delay_of in Ha.
    destruct (Rx.due tr (subscriptionTTL cfg) i n); by elem_inv Ha.
Qed.

(** When the timer of the most recent subscribe action for a key fires, it
    is the only one to deliver an unsubscribe action for that key. *)
Lemma unsubscribeOnTimeout_once c i payload st q :
  c < i ->
  tr !! i = Some (Dispatch (subscribe payload), st) ->
  Rx.due tr (subscriptionTTL cfg) i q = true ->
  allBetween tr
    (fun e => negb (isSubscribeFor getSubsId (getSubsId (subscriptionMsg payload)) e))
    i q = true ->
  unsubscribesFor getSubsId (getSubsId (subscriptionMsg payload))
    (Rx.values (unsubscribeOnTimeout getSubsId tr c cfg q))
  = [unsubscribe payload].
Proof.
  intros Hc Hi Hq Hquiet. unfold unsubscribesFor.
  rewrite unsubscribeOnTimeout_values, filter_bind.
  pose proof Hq as Hq'. apply due_spec in Hq' as ([stq Hlq] & Hiq & Hclock).
  rewrite (bind_seq_single _ i).
  - replace (i <? S q) with true by (symmetry; apply Nat.ltb_lt; lia).
    rewrite (subscriptions_at _ _ _ payload st) by done. simpl.
    rewrite app_nil_r, (idleRace_timeout _ _ _ _ _ q Hq Hquiet).
    rewrite decide_True by done. simpl. by rewrite String.eqb_refl.
  - intros p Hp. apply elem_of_nil_inv. intros a Ha.
    apply list_elem_of_In, filter_In in Ha as [Ha Hk].
    apply list_elem_of_In, list_elem_of_bind in Ha as (x & Ha & Hx).
    apply values_elem, subscriptions_elem in Hx as (pp & stp & [= ->] & Hcp & Hlp).
    simpl in Ha. pose proof Ha as Hv.
    apply idleRace_value in Ha as [-> Hdue]. simpl in Hk. apply String.eqb_eq in Hk.
    pose proof Hdue as Hd. apply due_spec in Hd as (_ & Hpq & Hclockp).
    destruct (decide (i < p)) as [Hip|Hip].
    + pose proof (allBetween_spec tr _ _ _ Hquiet p _ _ ltac:(lia) Hlp) as Hb.
      simpl in Hb. rewrite Hk, String.eqb_refl in Hb. done.
    + rewrite (idleRace_reset _ _ _ p pp i payload st) in Hv;
        [elem_inv Hv|lia|done|done|].
      pose proof (clock_mono tr i (S i)).
      rewrite (clock_dispatch tr p _ _ Hlp) in Hclockp. lia.
Qed.

End IdleTimerOnce.

(** ** The unresponsive-channel timer *)

Section UnresponsiveTimer.
Variable tr : Trace.
Variable connectionKey : string.
Variable cfg : WSConfig.
Variable handler : WSHandler.t.

Lemma message_elem i n x :
  x ∈ message_ tr i n ->
  exists p st, x = Next (messageReceived p) /\ i < n
               /\ tr !! n = Some (Dispatch (messageReceived p), st).
Proof.
  unfold message_. intros [[Hn Ha]%subscribedAt_elem Hp]%filter_elem.
  apply action_elem in Ha as (a & st & Hl & ->). destruct a; try done.
  by eexists _, _.
Qed.

Lemma message_at i n p st :
  i < n -> tr !! n = Some (Dispatch (messageReceived p), st) ->
  message_ tr i n = [Next (messageReceived p)].
Proof.
  intros Hn Hl. unfold message_, Rx.filter, Rx.subscribedAt, action_.
  apply Nat.ltb_lt in Hn as ->. by rewrite Hl.
Qed.

Lemma messageResets_elem i k n x :
  x ∈ messageResets tr i k n ->
  exists p st, x = Next (messageReceived p)
               /\ tr !! n = Some (Dispatch (messageReceived p), st)
               /\ i < n /\ subscriptionKey p = k.
Proof.
  unfold messageResets. intros [Hx Hp]%filter_elem.
  apply message_elem in Hx as (p & st & -> & Hn & Hl).
  simpl in Hp. apply String.eqb_eq in Hp. by eexists _, _.
Qed.

Lemma messageResets_at i k n p st :
  i < n -> tr !! n = Some (Dispatch (messageReceived p), st) ->
  subscriptionKey p = k ->
  messageResets tr i k n = [Next (messageReceived p)].
Proof.
  intros Hn Hl Hk. unfold messageResets, Rx.filter.
  rewrite (message_at _ _ p st) by done. simpl.
  unfold WSMessagePayload_key. by rewrite Hk, String.eqb_refl.
Qed.

Lemma messageResets_silent i k n :
  (forall p st, i < n -> tr !! n = Some (Dispatch (messageReceived p), st) ->
                subscriptionKey p <> k) ->
  messageResets tr i k n = [].
Proof.
  intros H. apply elem_of_nil_inv. intros x Hx.
  apply messageResets_elem in Hx as (p & st & _ & Hl & Hn & Hk).
  by apply (H p st).
Qed.

Lemma messageResets_dropped i k n a :
  Next a ∈ messageResets tr i k n ->
  negb (matches Match.messageReceived a) = false.
Proof. by intros (p & ? & [= ->] & _)%messageResets_elem. Qed.

Lemma unresponsiveRace_unfold i p state :
  unresponsiveRace tr connectionKey cfg handler i p state =
  let action := recyclePayload connectionKey handler state (subscriptionKey p) in
  Rx.filter (fun a => negb (matches Match.messageReceived a))
    (Rx.race (Rx.take1 (messageResets tr i (subscriptionKey p)))
       (Rx.delay tr (subscriptionUnresponsiveTTL cfg)
          (Rx.of_ i [unsubscribe action; subscribe action]))).
Proof. reflexivity. Qed.

(** A message for the same key that arrives before the timer fires wins the
    race, and the race delivers no action. *)
Lemma unresponsiveRace_reset i p state j p' st :
  i < j ->
  tr !! j = Some (Dispatch (messageReceived p'), st) ->
  subscriptionKey p' = subscriptionKey p ->
  clock tr j < clock tr i + Nat.max 1 (subscriptionUnresponsiveTTL cfg) ->
  forall n, Rx.values (unresponsiveRace tr connectionKey cfg handler i p state n) = [].
Proof.
  intros Hij Hj Hk Hclock n. rewrite unresponsiveRace_unfold.
  apply (timerRace_reset tr _ _ _ _ _ (messageResets_dropped i _) j).
  - by rewrite (messageResets_at _ _ _ p' st).
  - congruence.
  - done.
Qed.

(** Without a message for the same key before the timer fires, the race
    delivers the unsubscribe action and then the subscribe action when the
    timer fires, and nothing at any other time. *)
Lemma unresponsiveRace_timeout i p state q :
  Rx.due tr (subscriptionUnresponsiveTTL cfg) i q = true ->
  allBetween tr (fun e => negb (isMessageFor (subscriptionKey p) e)) i q = true ->
  forall n,
    Rx.values (unresponsiveRace tr connectionKey cfg handler i p state n) =
    if decide (n = q)
    then [unsubscribe (recyclePayload connectionKey handler state (subscriptionKey p));
          subscribe (recyclePayload connectionKey handler state (subscriptionKey p))]
    else [].
Proof.
  intros Hq Hquiet n. rewrite unresponsiveRace_unfold.
  apply (timerRace_timeout tr _ _ _ _ _ ); [|done|].
  - intros a Ha. by elem_inv Ha.
  - intros m Hm. apply messageResets_silent. intros p' st Him Hl Hk.
    destruct (decide (m = q)) as [->|].
    + apply due_spec in Hq as ([? Hq] & _). congruence.
    + pose proof (allBetween_spec tr _ _ _ Hquiet m _ _ ltac:(lia) Hl) as Hb.
      simpl in Hb. rewrite Hk, String.eqb_refl in Hb. done.
Qed.

Lemma unresponsiveRace_noError i p state n e :
  Error e ∉ unresponsiveRace tr connectionKey cfg handler i p state n.
Proof.
  rewrite unresponsiveRace_unfold. apply timerRace_noError.
  intros m e' (? & ? & [=] & _)%messageResets_elem.
Qed.

Lemma unresponsiveRace_before i p state n :
  n <= i -> unresponsiveRace tr connectionKey cfg handler i p state n = [].
Proof.
  intros Hn. rewrite unresponsiveRace_unfold. apply timerRace_before; [done|].
  intros m Hm. apply messageResets_silent. intros; lia.
Qed.

End UnresponsiveTimer.

Section MapFacts.
Context {A B : Type}.

Lemma map_next (f : A -> B) o n b :
  Next b ∈ Rx.map f o n <-> exists a, b = f a /\ Next a ∈ o n.
Proof.
  unfold Rx.map. rewrite list_elem_of_fmap. split.
  - intros ([a| |] & [=] & ?). by exists a.
  - intros (a & -> & ?). by exists (Next a).
Qed.

Lemma map_error (f : A -> B) o n e :
  Error e ∈ Rx.map f o n <-> Error e ∈ o n.
Proof.
  unfold Rx.map. rewrite list_elem_of_fmap. split.
  - by intros ([| |] & [=] & ?); subst.
  - intros ?. by exists (Error e).
Qed.

Lemma map_noTerminal (f : A -> B) o n :
  existsb Rx.isTerminal (o n) = false ->
  existsb Rx.isTerminal (Rx.map f o n) = false.
Proof.
  rewrite !existsb_terminal_false. unfold Rx.map.
  intros H x (y & -> & Hy)%list_elem_of_fmap. apply H in Hy. by destruct y.
Qed.

Lemma ofType_next (m : A -> option B) o n b :
  Next b ∈ Rx.ofType m o n <-> exists a, m a = Some b /\ Next a ∈ o n.
Proof.
  unfold Rx.ofType. rewrite list_elem_of_bind. split.
  - intros ([a| |] & Hb & ?); [|elem_inv Hb..].
    destruct (m a) eqn:Hm; elem_inv Hb. by exists a.
  - intros (a & Hm & ?). exists (Next a). rewrite Hm. split; [left|done].
Qed.

Lemma ofType_error (m : A -> option B) o n e :
  Error e ∈ Rx.ofType m o n <-> Error e ∈ o n.
Proof.
  unfold Rx.ofType. rewrite list_elem_of_bind. split.
  - intros ([a| |] & Hb & ?); [destruct (m a)| |]; elem_inv Hb. done.
  - intros ?. exists (Error e). split; [left|done].
Qed.

End MapFacts.

Section WithLatestFromFacts.
Context {A : Type}.
Variable tr : Trace.

Lemma withLatestFrom_next (o : Obs A) n a st :
  Next (a, st) ∈ Rx.withLatestFrom tr o n <->
  Next a ∈ o n /\ exists e, tr !! n = Some (e, st).
Proof.
  unfold Rx.withLatestFrom. destruct (tr !! n) as [[e st']|].
  - rewrite map_next. split.
    + intros (a' & [= -> ->] & ?). eauto.
    + intros (? & e' & [= _ ->]). eauto.
  - split; [by intros ?%elem_of_nil|]. by intros (_ & ? & [=]).
Qed.

Lemma withLatestFrom_error (o : Obs A) n e :
  Error e ∈ Rx.withLatestFrom tr o n -> Error e ∈ o n.
Proof.
  unfold Rx.withLatestFrom. destruct (tr !! n) as [[? ?]|].
  - by rewrite map_error.
  - by intros ?%elem_of_nil.
Qed.

Lemma withLatestFrom_noTerminal (o : Obs A) n :
  existsb Rx.isTerminal (o n) = false ->
  existsb Rx.isTerminal (Rx.withLatestFrom tr o n) = false.
Proof.
  unfold Rx.withLatestFrom. destruct (tr !! n) as [[? ?]|]; [|done].
  apply map_noTerminal.
Qed.

Lemma withLatestFrom_at (o : Obs A) n e st a :
  tr !! n = Some (e, st) -> o n = [Next a] ->
  Rx.withLatestFrom tr o n = [Next (a, st)].
Proof. intros Hl Ho. unfold Rx.withLatestFrom, Rx.map. by rewrite Hl, Ho. Qed.

End WithLatestFromFacts.

Section UnresponsiveTimerStream.
Variable tr : Trace.
Variable connectionKey : string.
Variable cfg : WSConfig.
Variable handler : WSHandler.t.

Lemma message_noTerminal i n :
  existsb Rx.isTerminal (message_ tr i n) = false.
Proof.
  apply existsb_terminal_false. intros x (p & st & -> & _)%message_elem. done.
Qed.

Lemma unsubscribeOnNoResponse_values c n :
  Rx.values (unsubscribeOnNoResponse tr c connectionKey cfg handler n) =
  p ← seq 0 (S n);
  x ← Rx.values (Rx.withLatestFrom tr (message_ tr c) p);
  Rx.values (match Match.messageReceived x.1 with
             | Some mp => unresponsiveRace tr connectionKey cfg handler p mp x.2
             | None => fun _ => []
             end n).
Proof.
  unfold unsubscribeOnNoResponse. rewrite mergeMap_values.
  - apply list_bind_ext; [|done]. intros p.
    apply list_bind_ext; [|done]. by intros [a st].
  - intros. apply withLatestFrom_noTerminal, message_noTerminal.
  - intros p [a st] m e _ _ [Ha _]%withLatestFrom_next.
    apply message_elem in Ha as (mp & ? & [= ->] & _). simpl.
    apply unresponsiveRace_noError.
Qed.

Lemma unsubscribeOnNoResponse_race c i p st n a :
  c < i -> tr !! i = Some (Dispatch (messageReceived p), st) ->
  a ∈ Rx.values (unresponsiveRace tr connectionKey cfg handler i p st n) ->
  a ∈ Rx.values (unsubscribeOnNoResponse tr c connectionKey cfg handler n).
Proof.
  intros Hc Hi Ha. rewrite unsubscribeOnNoResponse_values.
  destruct (decide (n <= i)) as [Hle|Hgt].
  { rewrite unresponsiveRace_before in Ha by done. elem_inv Ha. }
  apply list_elem_of_bind. exists i. split; [|apply elem_of_seq; lia].
  apply list_elem_of_bind. exists (messageReceived p, st). split; [done|].
  rewrite (withLatestFrom_at _ _ _ _ st (messageReceived p) Hi).
  - left.
  - by apply message_at with st.
Qed.

End UnresponsiveTimerStream.

Section UnresponsiveTimerOnce.
Variable tr : Trace.
Variable connectionKey : string.
Variable cfg : WSConfig.
Variable handler : WSHandler.t.

Lemma unresponsiveRace_value i p state n a :
  a ∈ Rx.values (unresponsiveRace tr connectionKey cfg handler i p state n) ->
  Rx.due tr (subscriptionUnresponsiveTTL cfg) i n = true.
Proof.
  intros Ha%values_elem. rewrite unresponsiveRace_unfold in Ha.
  apply filter_elem in Ha as [[Ha|Ha]%race_elem Hk].
  - apply take1_elem, messageResets_dropped in Ha. congruence.
  - rewrite delay_of in Ha.
    destruct (Rx.due tr (subscriptionUnresponsiveTTL cfg) i n); by elem_inv Ha.
Qed.

(** When the timer of the most recent message for a key fires, no race
    started by another message for that key delivers anything. *)
Lemma unresponsiveRace_once i p st q i' p' st' :
  tr !! i = Some (Dispatch (messageReceived p), st) ->
  Rx.due tr (subscriptionUnresponsiveTTL cfg) i q = true ->
  allBetween tr (fun e => negb (isMessageFor (subscriptionKey p) e)) i q = true ->
  i' <> i ->
  tr !! i' = Some (Dispatch (messageReceived p'), st') ->
  subscriptionKey p' = subscriptionKey p ->
  Rx.values (unresponsiveRace tr connectionKey cfg handler i' p' st' q) = [].
Proof.
  intros Hi Hq Hquiet Hne Hi' Hk.
  destruct (Rx.values (unresponsiveRace tr connectionKey cfg handler i' p' st' q))
    as [|a l] eqn:Hv; [done|exfalso].
  assert (a ∈ Rx.values (unresponsiveRace tr connectionKey cfg handler i' p' st' q))
    as Ha by (rewrite Hv; left).
  pose proof (unresponsiveRace_value _ _ _ _ _ Ha) as Hdue.
  apply due_spec in Hdue as (_ & Hlt & Hclock').
  pose proof Hq as Hq'. apply due_spec in Hq' as (_ & Hiq & Hclock).
  destruct (decide (i < i')) as [Hii|Hii].
  - pose proof (allBetween_spec tr _ _ _ Hquiet i' _ _ ltac:(lia) Hi') as Hb.
    simpl in Hb. rewrite Hk, String.eqb_refl in Hb. done.
  - rewrite (unresponsiveRace_reset _ _ _ _ i' p' st' i p st) in Ha;
      [elem_inv Ha|lia|done|done|].
    pose proof (clock_mono tr i (S i)).
    rewrite (clock_dispatch tr i' _ _ Hi') in Hclock'. lia.
Qed.

End UnresponsiveTimerOnce.

(** ** The connection guard *)

Section ConnectionGuard.
Variable getSubsId : Value -> string.
Variable JSON_parse : Value -> Completion Value.
Variable cacheEnv : nat -> CacheEnv.
Variable tr : Trace.

Lemma connectRequests_next c payload k st :
  Next (payload, k, st) ∈ connectRequests tr c <->
  tr !! c = Some (Dispatch (connect payload), st)
  /\ k = key (connectionInfo (config payload))
  /\ isActiveConnection st k = false
  /\ isConnecting st k = false.
Proof.
  unfold connectRequests. rewrite filter_elem, withLatestFrom_next, map_next.
  setoid_rewrite ofType_next. setoid_rewrite action_elem.
  rewrite andb_true_iff, !negb_true_iff. split.
  - intros [[(p & [= -> ->] & a & Ha & a' & st' & Hl & [= ->]) (e & He)] [? ?]].
    destruct a'; try done. simpl in Ha. simplify_eq. done.
  - intros (Hl & -> & ? & ?). split; [|done]. split; [|by eexists].
    exists payload. split; [done|]. exists (connect payload). split; [done|].
    by eexists _, _.
Qed.

Lemma openConnections_elem n c k :
  (c, k) ∈ openConnections getSubsId JSON_parse cacheEnv tr n <->
  c <= n /\ exists payload st,
    Next (payload, k, st) ∈ connectRequests tr c
    /\ Rx.closedBefore
         (ws getSubsId JSON_parse cacheEnv tr c k (config payload) (wsHandler payload))
         (S n) = false.
Proof.
  unfold openConnections. rewrite list_elem_of_bind. split.
  - intros (c' & (x & Hx & Hv)%list_elem_of_bind & Hc%elem_of_seq).
    destruct x as [[payload k'] st]. apply values_elem in Hv.
    destruct (Rx.closedBefore _ _) eqn:Hcl; elem_inv Hx.
    split; [lia|]. by exists payload, st.
  - intros (Hc & payload & st & Hv & Hcl). exists c. split; [|apply elem_of_seq; lia].
    apply list_elem_of_bind. exists (payload, k, st). rewrite Hcl.
    split; [left|by apply values_elem].
Qed.

End ConnectionGuard.

(** ** The cache writer *)

Section CacheWriter.
Variable handler : WSHandler.t.

Lemma inputOf_truthy state k : truthy (inputOf state k) = true.
Proof.
  unfold inputOf, orElse.
  by destruct (truthy (match subscriptions state !! k with
                       | Some s => sub_input s
                       | None => VUndefined
                       end)) eqn:H.
Qed.

(** A lookup miss yields the empty object. *)
Lemma inputOf_miss state k :
  subscriptions state !! k = None -> inputOf state k = VObj [].
Proof. unfold inputOf. by intros ->. Qed.

(** The callback always returns its action. *)
Lemma cacheWriter_outcome env action p state :
  outcome (cacheWriter handler env action p state) = Normal action.
Proof.
  unfold cacheWriter. rewrite inputOf_truthy. simpl.
  destruct (WSHandler.toResponse handler (message p)) as [response|e]; simpl; [|done].
  destruct (truthy response); simpl; [|done].
  destruct env as [[[]|e1] [[]|e2]]; done.
Qed.

(** The effects of the callback, case by case. *)
Lemma cacheWriter_effects env action p state :
  effects (cacheWriter handler env action p state) =
  match WSHandler.toResponse handler (message p) with
  | Throw e => [Log error ("WS: Cache error: " ++ e)]
  | Normal response =>
      if truthy response then
        WithCache response ::
        match withCacheResult env with
        | Throw e => [Log error ("WS: Cache error: " ++ e)]
        | Normal _ =>
            CacheCall (wsResponseOf (inputOf state (subscriptionKey p))) ::
            match cacheResult env with
            | Throw e => [Log error ("WS: Cache error: " ++ e)]
            | Normal _ => []
            end
        end
      else []
  end.
Proof.
  unfold cacheWriter. rewrite inputOf_truthy. simpl.
  destruct (WSHandler.toResponse handler (message p)) as [response|e]; simpl; [|done].
  destruct (truthy response); simpl; [|done].
  destruct env as [[[]|e1] [[]|e2]]; done.
Qed.

(** No branch of the callback logs a warning: the test [!input] guarding
    [logger.warn] never succeeds, because [input] defaults to [{}]. *)
Lemma cacheWriter_never_warns env action p state msg :
  Log warn msg ∉ effects (cacheWriter handler env action p state).
Proof.
  rewrite cacheWriter_effects. intros H.
  destruct (WSHandler.toResponse handler (message p)) as [response|e];
    [destruct (truthy response); [destruct (withCacheResult env) as [[]|];
       [destruct (cacheResult env) as [[]|]|]|]|];
    elem_inv H.
Qed.

Lemma assoc_setProp_eq k v fs : assoc k (setProp k v fs) = Some v.
Proof.
  induction fs as [|[k' v'] fs IH]; simpl.
  - by rewrite String.eqb_refl.
  - destruct (String.eqb_spec k k') as [->|Hne]; simpl.
    + by rewrite String.eqb_refl.
    + by apply String.eqb_neq in Hne as ->.
Qed.

Lemma assoc_setProp_ne k k' v fs :
  k <> k' -> assoc k (setProp k' v fs) = assoc k fs.
Proof.
  intros Hne. induction fs as [|[k'' v''] fs IH]; simpl.
  - by apply String.eqb_neq in Hne as ->.
  - destruct (String.eqb_spec k' k'') as [->|Hne']; simpl.
    + by apply String.eqb_neq in Hne as ->.
    + by rewrite IH.
Qed.

(** The request carries [data.maxAge = -1] and [debug = { ws: true }], and
    leaves every other property of the input as it is. *)
Lemma wsResponseOf_props input :
  prop "maxAge" (prop "data" (wsResponseOf input)) = VNum (-1)
  /\ prop "debug" (wsResponseOf input) = VObj [("ws", VBool true)]
  /\ (forall k, k <> "data" -> k <> "debug" ->
        prop k (wsResponseOf input) = default VUndefined (assoc k (spread input))).
Proof.
  unfold wsResponseOf, prop. split_and!.
  - rewrite assoc_setProp_ne by done. rewrite assoc_setProp_eq. simpl.
    by rewrite assoc_setProp_eq.
  - by rewrite assoc_setProp_eq.
  - intros k ? ?. by rewrite !assoc_setProp_ne.
Qed.

End CacheWriter.

Section CacheStream.
Variable getSubsId : Value -> string.
Variable JSON_parse : Value -> Completion Value.
Variable cacheEnv : nat -> CacheEnv.
Variable tr : Trace.
Variable c : nat.
Variable connectionKey : string.
Variable cfg : WSConfig.
Variable handler : WSHandler.t.

Lemma cacheRequests_next n a st :
  Next (a, st) ∈ cacheRequests tr c handler n <->
  exists p, a = messageReceived p /\ c < n
            /\ tr !! n = Some (Dispatch (messageReceived p), st)
            /\ WSHandler.filter handler (message p) = true.
Proof.
  unfold cacheRequests. rewrite withLatestFrom_next, filter_elem. split.
  - intros [[(p & st' & [= ->] & ? & Hl)%message_elem Hf] (e & He)].
    exists p. simplify_eq. done.
  - intros (p & -> & ? & Hl & Hf). split; [|by eexists]. split; [|done].
    rewrite (message_at _ _ _ p st) by done. left.
Qed.

Lemma cacheRequests_at n p st :
  c < n -> tr !! n = Some (Dispatch (messageReceived p), st) ->
  WSHandler.filter handler (message p) = true ->
  cacheRequests tr c handler n = [Next (messageReceived p, st)].
Proof.
  intros Hn Hl Hf. unfold cacheRequests.
  apply withLatestFrom_at with (Dispatch (messageReceived p)); [done|].
  unfold Rx.filter. rewrite (message_at _ _ _ p st) by done. simpl. by rewrite Hf.
Qed.

Lemma cacheRequests_noTerminal n :
  existsb Rx.isTerminal (cacheRequests tr c handler n) = false.
Proof.
  unfold cacheRequests. apply withLatestFrom_noTerminal, existsb_terminal_false.
  intros x [(p & st & -> & _)%message_elem _]%filter_elem. done.
Qed.

(** The cache writer runs only for [messageReceived] actions. *)
Lemma cacheEffects_only_on_message n :
  cacheEffects getSubsId JSON_parse cacheEnv tr c connectionKey cfg handler n <> [] ->
  exists p st, tr !! n = Some (Dispatch (messageReceived p), st).
Proof.
  unfold cacheEffects. intros H.
  destruct (_ || _); [done|].
  destruct (Rx.values (cacheRequests tr c handler n)) as [|[a st] l] eqn:Hv; [done|].
  assert ((a, st) ∈ Rx.values (cacheRequests tr c handler n)) as Hin
    by (rewrite Hv; left).
  apply values_elem, cacheRequests_next in Hin as (p & -> & _ & Hl & _). eauto.
Qed.

(** [withCache$] delivers no action and never fails. *)
Lemma withCache_silent n : withCache_ cacheEnv tr c handler n = [].
Proof.
  apply elem_of_nil_inv. intros x [Hx Hp]%filter_elem.
  apply mergeMap_elem in Hx as [(q & [a st] & _ & Ha & Hx & Hc)|(e & -> & He)].
  - unfold promise, runCacheWriter in Hx.
    apply cacheRequests_next in Ha as (p & -> & _). simpl in Hx.
    rewrite cacheWriter_outcome in Hx.
    unfold Rx.of_ in Hx. destruct (n =? q); elem_inv Hx; done.
  - pose proof (cacheRequests_noTerminal n) as Hf.
    rewrite existsb_terminal_false in Hf. by apply Hf in He.
Qed.

End CacheStream.

(** No cache writer of any connection stream runs but for a
    [messageReceived] action. *)
Lemma connectionEffects_only_on_message (getSubsId : Value -> string)
    (JSON_parse : Value -> Completion Value) (cacheEnv : nat -> CacheEnv)
    (tr : Trace) (n : nat) :
  connectionEffects getSubsId JSON_parse cacheEnv tr n <> [] ->
  exists p st, tr !! n = Some (Dispatch (messageReceived p), st).
Proof.
  unfold connectionEffects. destruct (Rx.closedBefore _ n); [done|]. intros H.
  destruct (_ ≫= _) as [|x l] eqn:Hx in H; [done|].
  assert (x ∈ x :: l) as Hin by left. rewrite <- Hx in Hin.
  apply list_elem_of_bind in Hin as (c & Hin & _).
  apply list_elem_of_bind in Hin as ([[cp k] st0] & Hin & _).
  apply (cacheEffects_only_on_message getSubsId JSON_parse cacheEnv tr c k
           (config cp) (wsHandler cp) n).
  intros Hnil. rewrite Hnil in Hin. elem_inv Hin.
Qed.

Lemma cacheWrites_effects handler env action p state :
  cacheWrites (effects (cacheWriter handler env action p state)) =
  match WSHandler.toResponse handler (message p), withCacheResult env with
  | Normal response, Normal _ =>
      if truthy response then [wsResponseOf (inputOf state (subscriptionKey p))]
      else []
  | _, _ => []
  end.
Proof.
  rewrite cacheWriter_effects.
  destruct (WSHandler.toResponse handler (message p)) as [response|e].
  - destruct (truthy response); [|by destruct (withCacheResult env)].
    destruct (withCacheResult env) as [[]|]; [|done].
    by destruct (cacheResult env) as [[]|].
  - by destruct (withCacheResult env).
Qed.

(** C7 at a lookup miss: the state holds no subscription for the key of the
    message; the callback logs nothing and writes to the cache with the
    empty input.  These are the effects of the connection stream, and the
    only effects of the epic at that instant. *)
Theorem cache_lookup_miss_not_logged :
  subscriptions Scenario.state0 !! subscriptionKey (Scenario.received "A" 5) = None
  /\ cacheEffects Scenario.getSubsId Scenario.JSON_parse Scenario.cacheOk
       Scenario.silentRun 0 "K" Scenario.cfg Scenario.handler 1
     = [WithCache (VObj [("result", VNum 5)]);
        CacheCall (VObj [("data", VObj [("maxAge", VNum (-1))]);
                         ("debug", VObj [("ws", VBool true)])])]
  /\ connectionEffects Scenario.getSubsId Scenario.JSON_parse Scenario.cacheOk
       Scenario.silentRun 1
     = [WithCache (VObj [("result", VNum 5)]);
        CacheCall (VObj [("data", VObj [("maxAge", VNum (-1))]);
                         ("debug", VObj [("ws", VBool true)])])].
Proof. split_and!; vm_compute; reflexivity. Qed.

(** ** More facts about the operators *)

Section TerminationFacts.
Context {A B : Type}.

Lemma emittedBefore_true (o : Obs A) n :
  Rx.emittedBefore o n = true <-> exists m, m < n /\ Rx.values (o m) <> [].
Proof.
  induction n as [|n IH]; simpl.
  - split; [done|]. intros (m & ? & _). lia.
  - rewrite orb_true_iff, IH, negb_true_iff, bool_decide_eq_false. split.
    + intros [(m & ? & ?)|?]; [exists m|exists n]; split; auto; lia.
    + intros (m & Hm & H). destruct (decide (m = n)) as [->|]; [by right|].
      left. exists m. split; [lia|done].
Qed.

Lemma emittedBefore_false (o : Obs A) n :
  (forall m, m < n -> Rx.values (o m) = []) -> Rx.emittedBefore o n = false.
Proof.
  intros H. apply not_true_is_false. rewrite emittedBefore_true.
  intros (m & Hm & Hv). by apply Hv, H.
Qed.

Lemma takeUntil_elem (notifier : Obs B) (o : Obs A) n y :
  y ∈ Rx.takeUntil notifier o n ->
  (y ∈ o n /\ Rx.values (notifier n) = [])
  \/ (y = Complete /\ Rx.values (notifier n) <> []).
Proof.
  unfold Rx.takeUntil. intros H%seal_elem.
  destruct (Rx.emittedBefore notifier n); [elem_inv H|].
  destruct (bool_decide_reflect (Rx.values (notifier n) = [])); [by left|].
  right. by elem_inv H.
Qed.

Lemma endWith_elem (x : A) (o : Obs A) n y :
  y ∈ Rx.endWith x o n ->
  (y ∈ o n /\ y <> Complete) \/ (Complete ∈ o n /\ (y = Next x \/ y = Complete)).
Proof.
  unfold Rx.endWith. intros (z & Hy & Hz)%list_elem_of_bind.
  destruct z; elem_inv Hy; auto.
Qed.

Lemma merge_elem (os : list (Obs A)) n y :
  y ∈ Rx.merge os n -> exists o, o ∈ os /\ y ∈ o n /\ y <> Complete.
Proof.
  unfold Rx.merge. intros (o & Hy & Ho)%seal_elem%list_elem_of_bind.
  apply list_elem_of_In, filter_In in Hy as [Hy Hc]. exists o.
  split_and!; [done|by apply list_elem_of_In|]. by intros ->.
Qed.

(** A merge of observables that do not fail delivers the values of all of
    them, in the order of the arguments. *)
Lemma merge_values (os : list (Obs A)) n :
  (forall o m e, o ∈ os -> m <= n -> Error e ∉ o m) ->
  Rx.values (Rx.merge os n) = o ← os; Rx.values (o n).
Proof.
  intros H. unfold Rx.merge. rewrite seal_id.
  - rewrite values_bind. apply list_bind_ext; [|done]. intros o.
    apply values_without_complete.
  - intros m Hm. apply existsb_terminal_false.
    intros y (o & Hy & Ho)%list_elem_of_bind.
    apply list_elem_of_In, filter_In in Hy as [Hy Hc]. destruct y; [done| |done].
    destruct (H o m msg); [done..|by apply list_elem_of_In].
Qed.

Lemma of_elem i (xs : list A) n y :
  y ∈ Rx.of_ i xs n -> n = i /\ ((exists a, y = Next a /\ a ∈ xs) \/ y = Complete).
Proof.
  unfold Rx.of_. destruct (Nat.eqb_spec n i); [|by intros ?%elem_of_nil].
  intros [(a & -> & ?)%list_elem_of_fmap|H]%elem_of_app; [eauto|].
  split; [done|]. right. by elem_inv H.
Qed.

Lemma catchError_elem (handler : nat -> string -> Obs A) (o : Obs A) n y :
  y ∈ Rx.catchError handler o n ->
  (y ∈ Rx.seal o n /\ forall e, y <> Error e)
  \/ (exists p e, p <= n /\ Error e ∈ Rx.seal o p /\ y ∈ handler p e n).
Proof.
  unfold Rx.catchError.
  intros (p & (x & Hy & Hx)%list_elem_of_bind & Hp%elem_of_seq)%list_elem_of_bind.
  destruct x as [a|e|].
  - destruct (Nat.eqb_spec p n) as [Hpn|]; elem_inv Hy. left. done.
  - right. exists p, e. split; [lia|done].
  - destruct (Nat.eqb_spec p n) as [Hpn|]; elem_inv Hy. left. done.
Qed.

End TerminationFacts.

(** ** The subscription multiplexer *)

Section Multiplexer.
Variable getSubsId : Value -> string.
Variable JSON_parse : Value -> Completion Value.
Variable tr : Trace.
Variable c : nat.
Variable connectionKey : string.
Variable handler : WSHandler.t.

Lemma multiplex_elem s mf n y :
  y ∈ multiplex JSON_parse tr c s mf n ->
  s < n /\
  ((exists e st m, tr !! n = Some (SocketMessage c e, st)
                  /\ onmessage JSON_parse e = Next m /\ mf m = true /\ y = Next m)
   \/ (exists err st, tr !! n = Some (SocketError c err, st) /\ y = Error err)).
Proof.
  unfold multiplex. intros [Hn Hy]%seal_elem%subscribedAt_elem. split; [done|].
  destruct (tr !! n) as [[[ | | | |sock e|sock err] st]|]; try by elem_inv Hy.
  - destruct (Nat.eqb_spec sock c) as [->|]; [|elem_inv Hy].
    destruct (onmessage_next JSON_parse e) as [m Hm]. rewrite Hm in Hy.
    destruct (mf m) eqn:Hf; elem_inv Hy. left. by exists e, st, m.
  - destruct (Nat.eqb_spec sock c) as [->|]; elem_inv Hy. right. by exists err, st.
Qed.

Lemma subscriptionEnd_values s k n :
  Rx.values (subscriptionEnd getSubsId tr connectionKey s k n) =
  if s <? n then
    match tr !! n with
    | Some (Dispatch a, _) =>
        (if isUnsubscribeFor getSubsId k (Dispatch a) then [a] else [])
        ++ (if isDisconnectedFor connectionKey (Dispatch a) then [a] else [])
    | _ => []
    end
  else [].
Proof.
  unfold subscriptionEnd. rewrite merge_values.
  - simpl. rewrite app_nil_r.
    unfold Rx.filter, Rx.subscribedAt, action_.
    destruct (s <? n); [|done].
    destruct (tr !! n) as [[[ |a| | | | ] st]|]; try done.
    destruct a; simpl; try done.
    + by destruct (String.eqb _ _).
    + by destruct (String.eqb _ _).
  - intros o m e Ho _ He. elem_inv Ho;
      apply filter_elem in He as [[[_ He]%subscribedAt_elem _]%filter_elem _];
      by apply action_noError in He.
Qed.

Lemma subscriptionEnd_fires s k n :
  Rx.values (subscriptionEnd getSubsId tr connectionKey s k n) <> [] <->
  s < n /\ exists e st, tr !! n = Some (e, st)
                      /\ notifiesEnd getSubsId connectionKey k e = true.
Proof.
  rewrite subscriptionEnd_values. unfold notifiesEnd.
  destruct (Nat.ltb_spec s n) as [Hs|Hs]; [|split; [done|intros [? _]; lia]].
  destruct (tr !! n) as [[e st]|]; [|split; [done|by intros (_ & ? & ? & [=] & _)]].
  split.
  - intros H. split; [done|]. exists e, st. split; [done|].
    destruct e as [ |a| | | | ]; try done.
    destruct (isUnsubscribeFor getSubsId k (Dispatch a)); [done|].
    by destruct (isDisconnectedFor connectionKey (Dispatch a)).
  - intros (_ & e' & st' & [= <- <-] & He).
    destruct e as [ |a| | | | ]; try done.
    destruct (isUnsubscribeFor getSubsId k (Dispatch a)); [done|].
    by destruct (isDisconnectedFor connectionKey (Dispatch a)).
Qed.

(** What a subscription stream can deliver at a position, and on which
    event. *)
Lemma subscriptionStream_elem s payload k n y :
  y ∈ subscriptionStream getSubsId JSON_parse tr c connectionKey handler s payload k n ->
  s < n /\
  ((exists e st m a,
      tr !! n = Some (SocketMessage c e, st)
      /\ onmessage JSON_parse e = Next m
      /\ messageFilter getSubsId handler k m = true
      /\ a ∈ onMessage payload k m st /\ y = Next a)
   \/ (exists err st, tr !! n = Some (SocketError c err, st) /\ y = Error err)
   \/ (exists e st, tr !! n = Some (e, st)
                    /\ notifiesEnd getSubsId connectionKey k e = true
                    /\ (y = Next (unsubscribed payload) \/ y = Complete))).
Proof.
  unfold subscriptionStream.
  intros [[Hy Hc]|[Hc Hy]]%endWith_elem.
  - apply takeUntil_elem in Hy as [[Hy _]|[ -> _]]; [|done].
    apply mergeMap_elem in Hy as [(p & [m st] & Hp & Hm & Hy & _)|(e & -> & He)].
    + apply of_elem in Hy as (-> & [(a & -> & Ha)| ->]); [|done].
      apply withLatestFrom_next in Hm as [Hm (e & Hl)].
      apply multiplex_elem in Hm as [Hs [(e' & st' & m' & Hl' & Hon & Hf & [= <-])
                                        |(? & ? & _ & [=])]].
      split; [done|]. left. exists e', st, m, a. simplify_eq. done.
    + apply withLatestFrom_error, multiplex_elem in He
        as [Hs [(? & ? & ? & _ & _ & _ & [=])|(err & st & Hl & [= <-])]].
      split; [done|]. right. left. by exists e, st.
  - apply takeUntil_elem in Hc as [[Hc _]|[_ Hv]].
    + apply mergeMap_elem in Hc as [(? & ? & _ & _ & _ & ?)|(? & [=] & _)]. done.
    + apply subscriptionEnd_fires in Hv as (Hs & e & st & Hl & He).
      split; [done|]. right. right. by exists e, st.
Qed.

End Multiplexer.

Section MergeMapOf.
Context {A B : Type}.

Lemma bind_nil {C D} (l : list C) (f : C -> list D) :
  (forall x, x ∈ l -> f x = []) -> l ≫= f = [].
Proof.
  intros H. apply elem_of_nil_inv. intros y (x & Hy & Hx)%list_elem_of_bind.
  rewrite (H x Hx) in Hy. elem_inv Hy.
Qed.

Lemma without_complete_of (l : list B) :
  List.filter (fun y : Notification B => match y with Complete => false | _ => true end)
    ((Next <$> l) ++ [Complete]) = Next <$> l.
Proof.
  induction l as [|b l IH]; [done|].
  rewrite fmap_cons. simpl. f_equal. exact IH.
Qed.

(** A [mergeMap] whose inner observables are [of(...)] delivers, for each
    source value, its values on the spot. *)
Lemma mergeMapRaw_of (f : A -> list B) (o : Obs A) n :
  Rx.mergeMapRaw (fun p a => Rx.of_ p (f a)) o n =
  x ← o n; match x with
           | Next a => Next <$> f a
           | Error e => [Error e]
           | Complete => []
           end.
Proof.
  unfold Rx.mergeMapRaw. rewrite seq_S, bind_app. simpl.
  rewrite bind_nil, app_nil_r; simpl.
  - apply list_bind_ext; [|done]. intros [a|e|]; [|by rewrite Nat.eqb_refl|done].
    rewrite of_at. apply without_complete_of.
  - intros p Hp%elem_of_seq. apply bind_nil. intros [a|e|] _; [| |done].
    + rewrite of_other by lia. done.
    + destruct (Nat.eqb_spec p n); [lia|done].
Qed.

End MergeMapOf.

Section RunningSubscription.
Variable getSubsId : Value -> string.
Variable JSON_parse : Value -> Completion Value.
Variable tr : Trace.
Variable c : nat.
Variable connectionKey : string.
Variable handler : WSHandler.t.
Variable s : nat.
Variable payload : WSSubscriptionPayload.
Variable k : string.

Local Abbreviation mf := (messageFilter getSubsId handler k).
Local Abbreviation mux := (multiplex JSON_parse tr c s mf).
Local Abbreviation messages :=
  (Rx.mergeMap
     (fun n '(message, state) => Rx.of_ n (onMessage payload k message state))
     (Rx.withLatestFrom tr mux)).
Local Abbreviation notifier := (subscriptionEnd getSubsId tr connectionKey s k).
Local Abbreviation ends := (endsSubscription getSubsId c connectionKey k).

(** No event between [s] and [n] ends the subscription. *)
Local Abbreviation running n :=
  (forall m e st, s < m < n -> tr !! m = Some (e, st) -> ends e = false).

(** What the multiplexed socket delivers on an event. *)
Local Abbreviation muxOn e :=
  (match e with
   | SocketMessage sock ev =>
       if sock =? c then
         match onmessage JSON_parse ev with
         | Next m => if mf m then [Next m] else []
         | other => [other]
         end
       else []
   | SocketError sock err => if sock =? c then [Error err] else []
   | _ => []
   end).

Lemma mux_before n : n <= s -> mux n = [].
Proof.
  intros Hn. unfold multiplex. apply seal_nil. unfold Rx.subscribedAt.
  by destruct (Nat.ltb_spec s n); [lia|].
Qed.

Lemma mux_outside n : tr !! n = None -> mux n = [].
Proof.
  intros Hn. unfold multiplex. apply seal_nil. unfold Rx.subscribedAt.
  rewrite Hn. by destruct (s <? n).
Qed.

Lemma muxOn_short e : length (muxOn e) <= 1.
Proof.
  destruct e as [ | | | |sock ev|sock err]; simpl; try lia.
  - destruct (sock =? c); [|simpl; lia].
    destruct (onmessage JSON_parse ev); [destruct (mf a)|..]; simpl; lia.
  - destruct (sock =? c); simpl; lia.
Qed.

Lemma cut_short {A} (l : list (Notification A)) : length l <= 1 -> Rx.cut l = l.
Proof.
  destruct l as [|x [|y l]]; simpl; [done| |lia]. by destruct (Rx.isTerminal x).
Qed.

Lemma muxOn_noTerminal e : ends e = false -> existsb Rx.isTerminal (muxOn e) = false.
Proof.
  unfold endsSubscription. intros [_ He]%orb_false_elim.
  destruct e as [ | | | |sock ev|sock err]; simpl in *; try done.
  - destruct (sock =? c); [|done].
    destruct (onmessage_next JSON_parse ev) as [m ->]. by destruct (mf m).
  - by rewrite He.
Qed.

Lemma mux_at n e st :
  running n -> s < n -> tr !! n = Some (e, st) -> mux n = muxOn e.
Proof.
  intros Hrun Hs Hl. unfold multiplex. rewrite seal_open.
  - unfold Rx.subscribedAt. apply Nat.ltb_lt in Hs as ->. rewrite Hl.
    pose proof (muxOn_short e) as Hshort. apply cut_short.
    by destruct e.
  - intros m Hm. unfold Rx.subscribedAt.
    destruct (Nat.ltb_spec s m); [|done].
    destruct (tr !! m) as [[e' st']|] eqn:Hm'; [|done].
    pose proof (muxOn_noTerminal e' (Hrun m e' st' ltac:(lia) Hm')).
    by destruct e'.
Qed.

Lemma mergeMapRaw_ext {A B} (f g : nat -> A -> Obs B) (o : Obs A) n :
  (forall p a, f p a n = g p a n) -> Rx.mergeMapRaw f o n = Rx.mergeMapRaw g o n.
Proof.
  intros H. unfold Rx.mergeMapRaw. apply list_bind_ext; [|done]. intros p.
  apply list_bind_ext; [|done]. intros [a|e|]; [|done..]. by rewrite H.
Qed.

(** What the subscription delivers for the notifications of the socket. *)
Local Abbreviation deliver st l :=
  (l ≫= fun x : Notification Value =>
          match x with
          | Next m => Next <$> onMessage payload k m st
          | Error e => [Error e]
          | Complete => []
          end).

Lemma messagesRaw_eq n :
  Rx.mergeMapRaw
    (fun n '(message, state) => Rx.of_ n (onMessage payload k message state))
    (Rx.withLatestFrom tr mux) n
  = match tr !! n with
    | Some (_, st) => deliver st (mux n)
    | None => []
    end.
Proof.
  rewrite (mergeMapRaw_ext _
             (fun p x => Rx.of_ p (onMessage payload k x.1 x.2)))
    by (by intros p [m st]).
  rewrite (mergeMapRaw_of (fun x => onMessage payload k x.1 x.2)).
  unfold Rx.withLatestFrom. destruct (tr !! n) as [[e st]|]; [|done].
  unfold Rx.map. rewrite list_fmap_bind. apply list_bind_ext; [|done].
  by intros [m|err|].
Qed.

Lemma deliver_muxOn_noTerminal e st :
  ends e = false -> existsb Rx.isTerminal (deliver st (muxOn e)) = false.
Proof.
  unfold endsSubscription. intros [_ He]%orb_false_elim.
  destruct e as [ | | | |sock ev|sock err]; simpl in *; try done.
  - destruct (sock =? c); [|done].
    destruct (onmessage_next JSON_parse ev) as [m ->].
    destruct (mf m); [|done]. simpl. rewrite app_nil_r.
    apply existsb_terminal_false. by intros x (a & -> & _)%list_elem_of_fmap.
  - by rewrite He.
Qed.

Lemma cut_deliver_muxOn e st :
  Rx.cut (deliver st (muxOn e)) = deliver st (muxOn e).
Proof.
  destruct e as [ | | | |sock ev|sock err]; simpl in *; try done.
  - destruct (sock =? c); [|done].
    destruct (onmessage_next JSON_parse ev) as [m ->].
    destruct (mf m); [|done]. simpl. rewrite app_nil_r.
    apply cut_id, existsb_terminal_false.
    by intros x (a & -> & _)%list_elem_of_fmap.
  - by destruct (sock =? c).
Qed.

Lemma messagesRaw_noTerminal n m :
  running n -> m < n ->
  existsb Rx.isTerminal
    (Rx.mergeMapRaw
       (fun n '(message, state) => Rx.of_ n (onMessage payload k message state))
       (Rx.withLatestFrom tr mux) m) = false.
Proof.
  intros Hrun Hm. rewrite messagesRaw_eq.
  destruct (tr !! m) as [[e st]|] eqn:Hl; [|done].
  destruct (decide (s < m)) as [Hs|Hs].
  - rewrite (mux_at m e st); [|intros; eapply Hrun; [|done]; lia|done..].
    apply deliver_muxOn_noTerminal. eapply Hrun; [|done]. lia.
  - by rewrite mux_before by lia.
Qed.

Lemma messages_before n : n <= s -> messages n = [].
Proof.
  intros Hn. unfold Rx.mergeMap. apply seal_nil. rewrite messagesRaw_eq.
  rewrite mux_before by done. by destruct (tr !! n) as [[? ?]|].
Qed.

Lemma messages_at n e st :
  running n -> s < n -> tr !! n = Some (e, st) ->
  messages n = deliver st (muxOn e).
Proof.
  intros Hrun Hs Hl. unfold Rx.mergeMap. rewrite seal_open.
  - rewrite messagesRaw_eq, Hl, (mux_at n e st) by done. apply cut_deliver_muxOn.
  - intros m Hm. by apply (messagesRaw_noTerminal n).
Qed.

Local Abbreviation stream :=
  (subscriptionStream getSubsId JSON_parse tr c connectionKey handler s payload k).
Local Abbreviation notifies := (notifiesEnd getSubsId connectionKey k).

Lemma notifier_silent n :
  running n -> forall m, m < n -> Rx.values (notifier m) = [].
Proof.
  intros Hrun m Hm.
  destruct (Rx.values (notifier m)) eqn:Hv; [done|].
  assert (Rx.values (notifier m) <> []) as Hne by (by rewrite Hv).
  apply subscriptionEnd_fires in Hne as (Hs & e & st & Hl & He).
  assert (ends e = false) as Hf by (eapply Hrun; [|done]; lia).
  unfold endsSubscription in Hf. by rewrite He in Hf.
Qed.

Lemma notifier_at n e st :
  s < n -> tr !! n = Some (e, st) ->
  bool_decide (Rx.values (notifier n) = []) = negb (notifies e).
Proof.
  intros Hs Hl. destruct (notifies e) eqn:He; simpl.
  - apply bool_decide_eq_false. apply subscriptionEnd_fires. eauto.
  - apply bool_decide_eq_true.
    destruct (Rx.values (notifier n)) eqn:Hv; [done|].
    assert (Rx.values (notifier n) <> []) as Hne by (by rewrite Hv).
    apply subscriptionEnd_fires in Hne as (_ & e' & st' & Hl' & He').
    rewrite Hl in Hl'. simplify_eq. congruence.
Qed.

Lemma stream_outside n : tr !! n = None -> stream n = [].
Proof.
  intros Hn. apply elem_of_nil_inv. intros y Hy.
  apply subscriptionStream_elem in Hy
    as (_ & [(? & ? & ? & ? & ? & _)|[(? & ? & ? & _)|(? & ? & ? & _)]]); congruence.
Qed.

Lemma stream_before n : n <= s -> stream n = [].
Proof.
  intros Hn. apply elem_of_nil_inv. intros y Hy.
  apply subscriptionStream_elem in Hy as (? & _). lia.
Qed.

Lemma messages_outside n : tr !! n = None -> messages n = [].
Proof.
  intros Hn. unfold Rx.mergeMap. apply seal_nil. by rewrite messagesRaw_eq, Hn.
Qed.

(** The stream before [endWith]. *)
Local Abbreviation untilEnd := (Rx.takeUntil notifier messages).

Lemma untilEnd_noTerminal_before n m :
  running n -> m < n ->
  existsb Rx.isTerminal
    (if Rx.emittedBefore notifier m then []
     else if bool_decide (Rx.values (notifier m) = []) then messages m
          else [Complete]) = false.
Proof.
  intros Hrun Hm.
  rewrite emittedBefore_false
    by (intros; apply (notifier_silent n); [done|lia]).
  rewrite (notifier_silent n Hrun m Hm). simpl.
  destruct (decide (s < m)) as [Hs|Hs]; [|by rewrite messages_before by lia].
  destruct (tr !! m) as [[e st]|] eqn:Hl; [|by rewrite messages_outside].
  rewrite (messages_at m e st); [|intros; eapply Hrun; [|done]; lia|done..].
  apply deliver_muxOn_noTerminal. eapply Hrun; [|done]. lia.
Qed.

Lemma untilEnd_at n e st :
  running n -> s < n -> tr !! n = Some (e, st) ->
  untilEnd n = if notifies e then [Complete] else deliver st (muxOn e).
Proof.
  intros Hrun Hs Hl. unfold Rx.takeUntil. rewrite seal_open.
  - rewrite emittedBefore_false by (by apply notifier_silent).
    rewrite (notifier_at n e st) by done.
    destruct (notifies e); simpl; [done|].
    rewrite (messages_at n e st) by done. apply cut_deliver_muxOn.
  - intros m Hm. by apply (untilEnd_noTerminal_before n).
Qed.

Lemma bind_next_id {A} (g : Notification A -> list (Notification A)) (l : list A) :
  (forall a, g (Next a) = [Next a]) -> (Next <$> l) ≫= g = Next <$> l.
Proof.
  intros H. induction l as [|a l IH]; [done|]. rewrite fmap_cons.
  change ((Next a :: (Next <$> l)) ≫= g) with (g (Next a) ++ ((Next <$> l) ≫= g)).
  by rewrite H, IH.
Qed.

Lemma endWith_deliver st e :
  (deliver st (muxOn e) ≫= fun y : Notification Action =>
     match y with
     | Complete => [Next (unsubscribed payload); Complete]
     | t => [t]
     end) = deliver st (muxOn e).
Proof.
  destruct e as [ | | | |sock ev|sock err]; simpl in *; try done.
  - destruct (sock =? c); [|done].
    destruct (onmessage_next JSON_parse ev) as [m ->].
    destruct (mf m); [|done]. simpl. rewrite app_nil_r.
    by apply bind_next_id.
  - by destruct (sock =? c).
Qed.

(** While no event has ended it, the subscription stream reacts to each
    event as [subscriptionReaction] says. *)
Lemma subscriptionStream_at n e st :
  running n -> s < n -> tr !! n = Some (e, st) ->
  stream n = subscriptionReaction getSubsId JSON_parse c connectionKey handler
               payload k e st.
Proof.
  intros Hrun Hs Hl. unfold subscriptionStream, Rx.endWith, subscriptionReaction.
  rewrite (untilEnd_at n e st) by done.
  destruct (notifies e); [done|]. rewrite endWith_deliver.
  destruct e as [ | | | |sock ev|sock err]; simpl; try done.
  - destruct (sock =? c); [|done].
    destruct (onmessage_next JSON_parse ev) as [m ->].
    destruct (mf m); [|done]. simpl. by rewrite app_nil_r.
  - by destruct (sock =? c).
Qed.


(** Until an event ends it, the subscription stream has not terminated. *)
Lemma subscriptionStream_open d :
  running d -> Rx.closedBefore stream d = false.
Proof.
  intros Hrun. apply closedBefore_false. intros m Hm.
  destruct (decide (s < m)) as [Hs|Hs]; [|by rewrite stream_before by lia].
  destruct (tr !! m) as [[e st]|] eqn:Hl; [|by rewrite stream_outside].
  rewrite (subscriptionStream_at m e st); [|intros; eapply Hrun; [|done]; lia|done..].
  assert (ends e = false) as He by (eapply Hrun; [|done]; lia).
  unfold subscriptionReaction. unfold endsSubscription in He.
  apply orb_false_elim in He as [-> He].
  destruct e as [ | | | |sock ev|sock err]; simpl in *; try done.
  - destruct (sock =? c); [|done].
    destruct (onmessage_next JSON_parse ev) as [m' ->].
    destruct (mf m'); [|done].
    apply existsb_terminal_false. by intros x (a & -> & _)%list_elem_of_fmap.
  - by rewrite He.
Qed.

End RunningSubscription.

Section SealFacts.
Context {A : Type}.
Implicit Types (o : Obs A) (l : list (Notification A)).




(** A terminal notification is the last one a sealed observable delivers at
    its position. *)
Lemma cut_error_last l e :
  Error e ∈ Rx.cut l ->
  exists l', Rx.cut l = l' ++ [Error e] /\ existsb Rx.isTerminal l' = false.
Proof.
  induction l as [|x l IH]; simpl; [by intros ?%elem_of_nil|].
  destruct (Rx.isTerminal x) eqn:Hx.
  - intros ->%list_elem_of_singleton. by exists [].
  - intros [Heq|H]%elem_of_cons; [by subst x|].
    destruct (IH H) as (l' & -> & Hl'). exists (x :: l'). simpl. by rewrite Hx.
Qed.

End SealFacts.

Section MultiplexedStream.
Variable getSubsId : Value -> string.
Variable JSON_parse : Value -> Completion Value.
Variable tr : Trace.
Variable c : nat.
Variable connectionKey : string.
Variable handler : WSHandler.t.

Local Abbreviation requests := (subscriptionRequests getSubsId tr c connectionKey).
Local Abbreviation inner :=
  (subscriptionStream getSubsId JSON_parse tr c connectionKey handler).
Local Abbreviation muxed :=
  (multiplexed getSubsId JSON_parse tr c connectionKey handler).
Local Abbreviation muxSubs :=
  (multiplexSubscriptions getSubsId JSON_parse tr c connectionKey handler).

Lemma subscriptionRequests_next s payload k st :
  Next (payload, k, st) ∈ requests s <->
  c < s
  /\ tr !! s = Some (Dispatch (subscribe payload), st)
  /\ key (sp_connectionInfo payload) = connectionKey
  /\ k = getSubsId (subscriptionMsg payload)
  /\ isActiveSubscription st k = false.
Proof.
  unfold subscriptionRequests.
  rewrite filter_elem, withLatestFrom_next, map_next, negb_true_iff. split.
  - intros [[(p & [= -> ->] & [Hp Hk]%filter_elem) (e & He)] Ha].
    apply ofType_next in Hp as (a & Ha' & (p' & st' & [= ->] & Hc & Hl)%subscriptions_elem).
    simpl in Ha'. apply String.eqb_eq in Hk. simplify_eq. done.
  - intros (Hc & Hl & Hk & -> & Ha). split; [|done]. split; [|by eexists].
    exists payload. split; [done|]. apply filter_elem.
    split; [|by apply String.eqb_eq].
    apply ofType_next. exists (subscribe payload). split; [done|].
    rewrite (subscriptions_at _ _ _ payload st) by done. left.
Qed.

Lemma subscriptionRequests_noTerminal s :
  existsb Rx.isTerminal (requests s) = false.
Proof.
  unfold subscriptionRequests. apply existsb_terminal_false. intros y Hy.
  destruct y as [x|e|]; [done|exfalso..].
  - apply filter_elem in Hy as [Hy%withLatestFrom_error%map_error _].
    apply filter_elem in Hy as [Hy%ofType_error _].
    by apply subscriptions_elem in Hy as (? & ? & [=] & _).
  - apply filter_elem in Hy as [Hy _]. unfold Rx.withLatestFrom in Hy.
    destruct (tr !! s) as [[? ?]|]; [|elem_inv Hy].
    unfold Rx.map in Hy. apply list_elem_of_fmap in Hy as ([| |] & [=] & Hy).
    apply list_elem_of_fmap in Hy as ([| |] & [=] & Hy).
    apply filter_elem in Hy as [Hy _].
    apply list_elem_of_bind in Hy as ([a| |] & Hy & Hx);
      [destruct (Match.subscribe a); elem_inv Hy| |].
    + by apply subscriptions_elem in Hx as (? & ? & [=] & _).
    + by apply subscriptions_elem in Hx as (? & ? & [=] & _).
Qed.

(** Whatever [multiplexed] delivers comes from the stream of a subscription
    it opened. *)
Lemma multiplexed_elem n y :
  y ∈ muxed n ->
  exists s payload k st,
    s <= n /\ Next (payload, k, st) ∈ requests s
    /\ y ∈ inner s payload k n /\ y <> Complete.
Proof.
  unfold multiplexed. intros [(s & [[payload k] st] & ? & ? & ? & ?)|(e & -> & He)]%mergeMap_elem.
  - by exists s, payload, k, st.
  - pose proof (subscriptionRequests_noTerminal n) as Hf.
    rewrite existsb_terminal_false in Hf. by apply Hf in He.
Qed.

(** [multiplexed] fails only on an error of its socket. *)
Lemma multiplexed_error n e :
  Error e ∈ muxed n -> exists st, tr !! n = Some (SocketError c e, st).
Proof.
  intros (s & payload & k & st & _ & _ & Hy & _)%multiplexed_elem.
  apply subscriptionStream_elem in Hy
    as (_ & [(? & ? & ? & ? & _ & _ & _ & _ & [=])
            |[(err & st' & Hl & [= ->])|(? & ? & _ & _ & [[=]|[=]])]]).
  by exists st'.
Qed.

(** [multiplexed] delivers only [subscribed], [messageReceived] and
    [unsubscribed] actions, and none on an error of the socket. *)
Lemma multiplexed_next n a :
  Next a ∈ muxed n ->
  (exists p, a = subscribed p \/ a = unsubscribed p \/ exists mp, a = messageReceived mp)
  /\ (forall err st, tr !! n <> Some (SocketError c err, st)).
Proof.
  intros (s & payload & k & st & _ & _ & Hy & _)%multiplexed_elem.
  apply subscriptionStream_elem in Hy
    as (_ & [(e & st' & m & a' & Hl & _ & _ & Ha & [= ->])
            |[(? & ? & _ & [=])|(e & st' & Hl & He & [[= ->]|[=]])]]).
  - split; [|congruence]. exists payload. unfold onMessage in Ha.
    destruct (negb _); elem_inv Ha; eauto.
  - split; [eauto|]. intros err st'' Hl'. rewrite Hl in Hl'. simplify_eq.
Qed.




Lemma multiplexSubscriptions_noError n e : Error e ∉ muxSubs n.
Proof.
  unfold multiplexSubscriptions.
  intros [[_ H]|(p & e' & _ & _ & Hy)]%catchError_elem; [by apply (H e)|].
  by apply of_elem in Hy as (_ & [(? & [=] & _)|[=]]).
Qed.

End MultiplexedStream.

(** ** The connection stream *)

Section WsStream.
Variable getSubsId : Value -> string.
Variable JSON_parse : Value -> Completion Value.
Variable cacheEnv : nat -> CacheEnv.
Variable tr : Trace.
Variable c : nat.
Variable connectionKey : string.
Variable cfg : WSConfig.
Variable handler : WSHandler.t.

Local Abbreviation parts :=
  [open_ tr c cfg handler;
   close_ tr c cfg handler;
   disconnect_ tr c connectionKey;
   multiplexSubscriptions getSubsId JSON_parse tr c connectionKey handler;
   unsubscribe_ getSubsId tr c connectionKey cfg handler;
   withCache_ cacheEnv tr c handler].

Local Abbreviation wsEnd :=
  (Rx.filter
     (fun a => match Match.disconnected a with
               | Some p => String.eqb (key (connectionInfo (config p))) connectionKey
               | None => false
               end)
     (Rx.filter (matches Match.disconnected) (Rx.subscribedAt c (action_ tr)))).

Local Abbreviation wsx :=
  (ws getSubsId JSON_parse cacheEnv tr c connectionKey cfg handler).

(** No [disconnected] action for the connection between [c] and [n],
    [n] included. *)
Local Abbreviation connectedUntil n :=
  (forall m e st, c < m <= n -> tr !! m = Some (e, st) ->
                  isDisconnectedFor connectionKey e = false).

Lemma wsEnd_values n :
  Rx.values (wsEnd n) =
  if c <? n then
    match tr !! n with
    | Some (Dispatch a, _) =>
        if isDisconnectedFor connectionKey (Dispatch a) then [a] else []
    | _ => []
    end
  else [].
Proof.
  unfold Rx.filter, Rx.subscribedAt, action_.
  destruct (c <? n); [|done].
  destruct (tr !! n) as [[[ |a| | | | ] st]|]; try done.
  destruct a; simpl; try done. by destruct (String.eqb _ _).
Qed.

Lemma wsEnd_silent n :
  connectedUntil n -> forall m, m <= n -> Rx.values (wsEnd m) = [].
Proof.
  intros Hc m Hm. rewrite wsEnd_values.
  destruct (Nat.ltb_spec c m); [|done].
  destruct (tr !! m) as [[[ |a| | | | ] st]|] eqn:Hl; try done.
  by rewrite (Hc m (Dispatch a) st).
Qed.

Lemma observer_noError (o : Obs unit) (f : unit -> Action) n e :
  (forall x, x ∈ o n -> x = Next tt) -> Error e ∉ Rx.map f o n.
Proof. intros H He%map_error. by apply H in He. Qed.

Lemma open_noError n e : Error e ∉ open_ tr c cfg handler n.
Proof.
  unfold open_. apply observer_noError. unfold openObserver. intros x Hx.
  destruct (tr !! n) as [[[ | |sock| | | ] st]|]; try by elem_inv Hx.
  destruct (sock =? c); by elem_inv Hx.
Qed.

Lemma close_noError n e : Error e ∉ close_ tr c cfg handler n.
Proof.
  unfold close_. apply observer_noError. unfold closeObserver. intros x Hx.
  destruct (tr !! n) as [[[ | | |sock| | ] st]|]; try by elem_inv Hx.
  destruct (sock =? c); by elem_inv Hx.
Qed.

Lemma disconnect_silent n : disconnect_ tr c connectionKey n = [].
Proof.
  apply elem_of_nil_inv. intros x [Hx Hp]%filter_elem.
  destruct x; [done|exfalso..]; unfold Rx.tap in Hx;
    apply filter_elem in Hx as [[[_ Hx]%subscribedAt_elem _]%filter_elem _];
    by apply action_elem in Hx as (? & ? & _ & [=]).
Qed.

Lemma unsubscribe_noError n e :
  Error e ∉ unsubscribe_ getSubsId tr c connectionKey cfg handler n.
Proof.
  unfold unsubscribe_. intros (o & Ho & He & _)%merge_elem. elem_inv Ho.
  - unfold unsubscribeOnTimeout in He.
    apply mergeMap_elem in He as [(p & a & _ & Ha & He & _)|(? & _ & He)].
    + apply subscriptions_elem in Ha as (payload & ? & [= ->] & _).
      by apply idleRace_noError in He.
    + by apply subscriptions_elem in He as (? & ? & [=] & _).
  - unfold unsubscribeOnNoResponse in He.
    apply mergeMap_elem in He as [(p & [a st] & _ & Ha & He & _)|(? & _ & He)].
    + apply withLatestFrom_next in Ha as [Ha _].
      apply message_elem in Ha as (mp & ? & [= ->] & _).
      by apply unresponsiveRace_noError in He.
    + by apply withLatestFrom_error, message_elem in He as (? & ? & [=] & _).
Qed.

Lemma parts_noError o n e : o ∈ parts -> Error e ∉ o n.
Proof.
  intros Ho. elem_inv Ho.
  - apply open_noError.
  - apply close_noError.
  - rewrite disconnect_silent. apply not_elem_of_nil.
  - apply multiplexSubscriptions_noError.
  - apply unsubscribe_noError.
  - rewrite withCache_silent. apply not_elem_of_nil.
Qed.

Lemma merged_noTerminal n : existsb Rx.isTerminal (Rx.merge parts n) = false.
Proof.
  apply existsb_terminal_false. intros y (o & Ho & Hy & Hc)%merge_elem.
  destruct y; [done| |done]. by apply parts_noError in Hy.
Qed.

(** The connection stream never fails. *)
Lemma ws_noError n e : Error e ∉ wsx n.
Proof.
  unfold ws. intros [[He _]|[[=] _]]%takeUntil_elem.
  pose proof (merged_noTerminal n) as Hf.
  rewrite existsb_terminal_false in Hf. by apply Hf in He.
Qed.

(** Until the connection is reported disconnected, the connection stream
    delivers the actions of its six parts, in order. *)
Lemma ws_values n :
  connectedUntil n ->
  Rx.values (wsx n) = o ← parts; Rx.values (o n).
Proof.
  intros Hc. unfold ws, Rx.takeUntil. rewrite seal_id.
  - rewrite emittedBefore_false
      by (intros; apply (wsEnd_silent n); [done|lia]).
    rewrite (wsEnd_silent n Hc n) by done.
    rewrite bool_decide_eq_true_2 by done. cbv iota.
    apply merge_values. intros. by apply parts_noError.
  - intros m Hm.
    rewrite emittedBefore_false
      by (intros; apply (wsEnd_silent n); [done|lia]).
    rewrite (wsEnd_silent n Hc m) by done.
    rewrite bool_decide_eq_true_2 by done. cbv iota. apply merged_noTerminal.
Qed.

(** On the first [disconnected] action for its connection, the connection
    stream completes without delivering anything, and stays silent. *)
Lemma ws_end d e st :
  connectedUntil (pred d) -> c < d ->
  tr !! d = Some (e, st) -> isDisconnectedFor connectionKey e = true ->
  wsx d = [Complete] /\ forall n, d < n -> wsx n = [].
Proof.
  intros Hc Hd Hl He.
  assert (Rx.values (wsEnd d) <> []) as Hfire.
  { rewrite wsEnd_values. apply Nat.ltb_lt in Hd as ->. rewrite Hl.
    destruct e as [ |a| | | | ]; try done. by rewrite He. }
  assert (Rx.emittedBefore wsEnd d = false) as Hbefore.
  { apply emittedBefore_false. intros m Hm. apply (wsEnd_silent (pred d)); [done|lia]. }
  assert (forall m, m < d ->
            existsb Rx.isTerminal
              (if Rx.emittedBefore wsEnd m then []
               else if bool_decide (Rx.values (wsEnd m) = [])
                    then Rx.merge parts m else [Complete]) = false) as Hopen.
  { intros m Hm.
    rewrite emittedBefore_false
      by (intros; apply (wsEnd_silent (pred d)); [done|lia]).
    rewrite (wsEnd_silent (pred d) Hc m) by lia.
    rewrite bool_decide_eq_true_2 by done. cbv iota. apply merged_noTerminal. }
  split.
  - unfold ws, Rx.takeUntil. rewrite seal_open by done. rewrite Hbefore.
    by rewrite bool_decide_eq_false_2.
  - intros n Hn. unfold ws, Rx.takeUntil. apply (seal_closed _ d n Hn).
    rewrite Hbefore. by rewrite bool_decide_eq_false_2.
Qed.

End WsStream.

(** ** Activation of a subscription *)

Lemma running_of_allBetween (getSubsId : Value -> string) (tr : Trace)
    (c : nat) (ck k : string) (s n : nat) :
  allBetween tr (fun e => negb (endsSubscription getSubsId c ck k e)) s n = true ->
  forall m e st, s < m < n -> tr !! m = Some (e, st) ->
                 endsSubscription getSubsId c ck k e = false.
Proof.
  intros H m e st Hm Hl. apply negb_true_iff.
  by apply (allBetween_spec tr _ s n H m e st).
Qed.



(** ** Messages tagged as errors *)

Section ErrorMessages.
Variable getSubsId : Value -> string.
Variable JSON_parse : Value -> Completion Value.
Variable cacheEnv : nat -> CacheEnv.
Variable tr : Trace.
Variable c : nat.
Variable connectionKey : string.
Variable cfg : WSConfig.
Variable handler : WSHandler.t.

Lemma messageFilter_error k m :
  WSHandler.isError handler m = true -> messageFilter getSubsId handler k m = false.
Proof. unfold messageFilter. by intros ->. Qed.

Lemma messageFilter_accepts k m :
  messageFilter getSubsId handler k m = true ->
  WSHandler.isError handler m = false
  /\ getSubsId (WSHandler.subsFromMessage handler m) = k.
Proof.
  unfold messageFilter. destruct (WSHandler.isError handler m); [done|].
  by intros ?%String.eqb_eq.
Qed.

(** Every [messageReceived] action of [multiplexSubscriptions$] carries a
    message of the socket that passed the filter of its subscription. *)
Lemma multiplexSubscriptions_received n mp :
  Next (messageReceived mp)
    ∈ multiplexSubscriptions getSubsId JSON_parse tr c connectionKey handler n ->
  exists ev st,
    tr !! n = Some (SocketMessage c ev, st)
    /\ onmessage JSON_parse ev = Next (message mp)
    /\ messageFilter getSubsId handler (subscriptionKey mp) (message mp) = true.
Proof.
  unfold multiplexSubscriptions.
  intros [[Ha%seal_elem _]|(p & e & _ & _ & Hy)]%catchError_elem.
  - apply multiplexed_elem in Ha as (s & payload & k & st & _ & _ & Hy & _).
    apply subscriptionStream_elem in Hy
      as (_ & [(ev & st' & m & a & Hl & Hm & Hf & Ha & [= <-])
              |[(? & ? & _ & [=])|(? & ? & _ & _ & [[=]|[=]])]]).
    unfold onMessage in Ha. destruct (negb _); elem_inv Ha; by exists ev, st'.
  - by apply of_elem in Hy as (_ & [(? & [= <-] & Hx)|[=]]); elem_inv Hx.
Qed.

Lemma multiplexSubscriptions_on_message n ev st a :
  tr !! n = Some (SocketMessage c ev, st) ->
  Next a ∈ multiplexSubscriptions getSubsId JSON_parse tr c connectionKey handler n ->
  exists m k, onmessage JSON_parse ev = Next m
              /\ messageFilter getSubsId handler k m = true.
Proof.
  intros Hl. unfold multiplexSubscriptions.
  intros [[Ha%seal_elem _]|(p & e & _ & He & Hy)]%catchError_elem.
  - apply multiplexed_elem in Ha as (s & payload & k & st' & _ & _ & Hy & _).
    apply subscriptionStream_elem in Hy
      as (_ & [(ev' & st'' & m & a' & Hl' & Hm & Hf & _)
              |[(? & ? & _ & [=])|(e & ? & Hl' & He & _)]]).
    + rewrite Hl in Hl'. simplify_eq. by exists m, k.
    + rewrite Hl in Hl'. simplify_eq.
  - apply of_elem in Hy as (-> & _).
    apply seal_elem, multiplexed_error in He as (? & Hl'). congruence.
Qed.

End ErrorMessages.

(** C5: a message of the socket for which the provider's [isError] holds
    passes the filter of no subscription; on it [multiplexSubscriptions$]
    delivers no action (in particular no [subscribed] and no
    [messageReceived]) and the cache writer does nothing (no action enters
    it, it has no effect, and neither has the cache writer of any other
    connection stream); and no [messageReceived] action that
    [multiplexSubscriptions$] ever delivers carries a message tagged as an
    error. *)
Theorem error_message_rejected (getSubsId : Value -> string)
    (JSON_parse : Value -> Completion Value) (cacheEnv : nat -> CacheEnv)
    (tr : Trace) (c : nat) (connectionKey : string) (handler : WSHandler.t)
    (n : nat) (ev : Value) (st : State) (m : Value) :
  tr !! n = Some (SocketMessage c ev, st) ->
  onmessage JSON_parse ev = Next m ->
  WSHandler.isError handler m = true ->
  (forall k, messageFilter getSubsId handler k m = false)
  /\ Rx.values (multiplexSubscriptions getSubsId JSON_parse tr c connectionKey handler n)
     = []
  /\ (Rx.values (cacheRequests tr c handler n) = []
      /\ (forall cfg,
            cacheEffects getSubsId JSON_parse cacheEnv tr c connectionKey cfg handler n
            = [])
      /\ connectionEffects getSubsId JSON_parse cacheEnv tr n = [])
  /\ (forall n' mp,
        messageReceived mp
          ∈ Rx.values (multiplexSubscriptions getSubsId JSON_parse tr c
                         connectionKey handler n') ->
        WSHandler.isError handler (message mp) = false).
Proof.
  intros Hl Hm Herr. split_and!.
  - intros k. by apply messageFilter_error.
  - apply values_nil. intros a Ha.
    destruct (multiplexSubscriptions_on_message _ _ _ _ _ _ _ _ _ _ Hl Ha)
      as (m' & k & Hm' & Hf).
    rewrite Hm in Hm'. simplify_eq.
    rewrite messageFilter_error in Hf; done.
  - apply values_nil. intros [a st'] (p & _ & _ & Hl' & _)%cacheRequests_next.
    congruence.
  - intros cfg.
    destruct (cacheEffects getSubsId JSON_parse cacheEnv tr c connectionKey cfg
                handler n) eqn:He; [done|].
    destruct (cacheEffects_only_on_message getSubsId JSON_parse cacheEnv tr c
                connectionKey cfg handler n) as (? & ? & ?);
      [by rewrite He|congruence].
  - destruct (connectionEffects getSubsId JSON_parse cacheEnv tr n) eqn:He; [done|].
    destruct (connectionEffects_only_on_message getSubsId JSON_parse cacheEnv tr n)
      as (? & ? & ?); [by rewrite He|congruence].
  - intros n' mp Hin%values_elem.
    apply multiplexSubscriptions_received in Hin as (? & ? & _ & _ & Hf).
    by apply messageFilter_accepts in Hf as [? _].
Qed.

Lemma error_message_rejected_witness :
  Scenario.errorMessageRun !! 2
    = Some (SocketMessage 0 (VObj [("data", VObj [("sym", VStr "A");
                                                  ("error", VStr "rate limit")])]),
            Scenario.state0)
  /\ WSHandler.isError Scenario.handler
       (VObj [("sym", VStr "A"); ("error", VStr "rate limit")]) = true
  /\ Rx.values (multiplexSubscriptions Scenario.getSubsId Scenario.JSON_parse
                  Scenario.errorMessageRun 0 "K" Scenario.handler 2) = [].
Proof.
  split; [reflexivity|]. split; [reflexivity|].
  apply (error_message_rejected Scenario.getSubsId Scenario.JSON_parse
           Scenario.cacheOk Scenario.errorMessageRun 0 "K" Scenario.handler 2
           (VObj [("data", VObj [("sym", VStr "A"); ("error", VStr "rate limit")])])
           Scenario.state0 (VObj [("sym", VStr "A"); ("error", VStr "rate limit")]));
    reflexivity.
Defined.

(** ** Errors of the multiplexed stream *)

Section MultiplexError.
Variable getSubsId : Value -> string.
Variable JSON_parse : Value -> Completion Value.
Variable tr : Trace.
Variable c : nat.
Variable connectionKey : string.
Variable handler : WSHandler.t.

Local Abbreviation muxed :=
  (multiplexed getSubsId JSON_parse tr c connectionKey handler).
Local Abbreviation muxSubs :=
  (multiplexSubscriptions getSubsId JSON_parse tr c connectionKey handler).




(** At the position of its error, [multiplexed] delivers the error alone. *)
Lemma multiplexed_error_alone n e : Error e ∈ muxed n -> muxed n = [Error e].
Proof.
  intros He. pose proof He as Hcut. unfold multiplexed, Rx.mergeMap, Rx.seal in Hcut.
  destruct (Rx.closedBefore _ n) eqn:Hc; [elem_inv Hcut|].
  apply cut_error_last in Hcut as (l' & Heq & Hl').
  assert (muxed n = l' ++ [Error e]) as Hm.
  { unfold multiplexed, Rx.mergeMap, Rx.seal. by rewrite Hc. }
  destruct l' as [|x l']; [done|exfalso].
  apply multiplexed_error in He as (st & Hl).
  simpl in Hl'. apply orb_false_elim in Hl' as [Hx _].
  destruct x as [a| |]; [|done..].
  assert (Next a ∈ muxed n) as Ha by (rewrite Hm; left).
  apply multiplexed_next in Ha as [_ Hno]. by apply Hno in Hl.
Qed.



End MultiplexError.



(** ** Termination of a subscription *)




(** On the [disconnected] action that ends it, the connection stream
    completes before the streams of its subscriptions are heard: their
    [unsubscribed] actions are not delivered. *)
Lemma unsubscribed_lost_on_disconnected :
  subscriptionStream Scenario.getSubsId Scenario.JSON_parse Scenario.disconnectedRun
    0 "K" Scenario.handler 1 (Scenario.sub "A") "A" 3
  = [Next (unsubscribed (Scenario.sub "A")); Complete]
  /\ ws Scenario.getSubsId Scenario.JSON_parse Scenario.cacheOk
       Scenario.disconnectedRun 0 "K" Scenario.cfg Scenario.handler 3
     = [Complete]
  /\ Rx.values (connectEpic Scenario.getSubsId Scenario.JSON_parse Scenario.cacheOk
                  Scenario.disconnectedRun 3) = [].
Proof. split_and!; reflexivity. Qed.

(** ** The epic as a whole *)

Section ConnectEpic.
Variable getSubsId : Value -> string.
Variable JSON_parse : Value -> Completion Value.
Variable cacheEnv : nat -> CacheEnv.
Variable tr : Trace.

Lemma connectRequests_noTerminal n :
  existsb Rx.isTerminal (connectRequests tr n) = false.
Proof.
  unfold connectRequests. apply existsb_terminal_false. intros y Hy.
  apply filter_elem in Hy as [Hy _]. unfold Rx.withLatestFrom in Hy.
  destruct (tr !! n) as [[? ?]|]; [|elem_inv Hy].
  unfold Rx.map in Hy. apply list_elem_of_fmap in Hy as (y1 & -> & Hy).
  apply list_elem_of_fmap in Hy as (y2 & -> & Hy).
  apply list_elem_of_bind in Hy as (y3 & Hy & Hx).
  apply action_elem in Hx as (a & st & _ & ->).
  destruct (Match.connect a); by elem_inv Hy.
Qed.

(** [connectEpic] never fails, and delivers what the connection streams it
    has opened deliver, oldest connection first. *)
Lemma connectEpic_values n :
  Rx.values (connectEpic getSubsId JSON_parse cacheEnv tr n) =
  c ← seq 0 (S n);
  x ← Rx.values (connectRequests tr c);
  Rx.values (ws getSubsId JSON_parse cacheEnv tr c x.1.2
               (config x.1.1) (wsHandler x.1.1) n).
Proof.
  unfold connectEpic. rewrite mergeMap_values.
  - apply list_bind_ext; [|done]. intros c.
    apply list_bind_ext; [|done]. by intros [[payload ck] st].
  - intros. apply connectRequests_noTerminal.
  - intros c [[payload ck] st] m e _ _ _. apply ws_noError.
Qed.

End ConnectEpic.

(** ** The metrics epic *)

Section MetricsFacts.
Variable getFeedId : Value -> string.
Variable getSubsId : Value -> string.
Variable tr : Trace.

Lemma observed_values n :
  Rx.values (observed tr n) =
  match tr !! n with
  | Some (Dispatch a, st) => [(a, st)]
  | _ => []
  end.
Proof.
  unfold observed, Rx.withLatestFrom, Rx.map, action_.
  by destruct (tr !! n) as [[[ |a| | | | ] st]|].
Qed.

Lemma observed_noTerminal n : existsb Rx.isTerminal (observed tr n) = false.
Proof.
  unfold observed, Rx.withLatestFrom, Rx.map, action_.
  by destruct (tr !! n) as [[[ |a| | | | ] st]|].
Qed.

Lemma reports_at n :
  reports getFeedId getSubsId tr n =
  match tr !! n with
  | Some (Dispatch a, st) => report getFeedId getSubsId a st
  | _ => []
  end.
Proof.
  unfold reports. rewrite observed_values.
  destruct (tr !! n) as [[[ |a| | | | ] st]|]; try done.
  simpl. by rewrite app_nil_r.
Qed.

Lemma reportsBefore_S n :
  reportsBefore getFeedId getSubsId tr (S n) =
  reportsBefore getFeedId getSubsId tr n ++ reports getFeedId getSubsId tr n.
Proof.
  unfold reportsBefore. rewrite seq_S, bind_app. simpl. by rewrite app_nil_r.
Qed.

Lemma dispatched_S P n :
  dispatched tr P (S n) =
  dispatched tr P n +
  match tr !! n with
  | Some (Dispatch a, _) => if P a then 1 else 0
  | _ => 0
  end.
Proof.
  unfold dispatched.
  destruct (tr !! n) as [[e st]|] eqn:Hl.
  - rewrite (take_S_r _ _ _ Hl), List.filter_app, length_app. simpl.
    destruct e as [ |a| | | | ]; try done. by destruct (P a).
  - apply lookup_ge_None in Hl. rewrite !take_ge by lia. lia.
Qed.

End MetricsFacts.

Lemma seriesChange_app metric labels rs1 rs2 :
  seriesChange metric labels (rs1 ++ rs2) =
  (seriesChange metric labels rs1 + seriesChange metric labels rs2)%Z.
Proof.
  induction rs1 as [|r rs1 IH]; [done|]. simpl.
  destruct r as [m l op|]; [|done].
  destruct (Metric_eqb m metric && bool_decide (l = labels)); lia.
Qed.

(** [filter(() => false)] passes the terminal notifications only. *)
Lemma filter_none {A} (o : Obs A) n :
  existsb Rx.isTerminal (o n) = false -> Rx.filter (fun _ => false) o n = [].
Proof.
  rewrite existsb_terminal_false. intros Hn.
  apply elem_of_nil_inv. intros x [Hx Hp]%filter_elem.
  destruct x; [done|by apply Hn in Hx..].
Qed.

Lemma observed_actions_noTerminal tr n :
  existsb Rx.isTerminal
    (Rx.map (fun '(action, _) => action) (Rx.tap (observed tr)) n) = false.
Proof. apply map_noTerminal, observed_noTerminal. Qed.

(** X1: [metricsEpic] is a pure observer of the action stream: at no
    instant of any run does it deliver an action, fail or complete.  Its
    only trace is what its [tap] reports. *)
Theorem metricsEpic_silent (tr : Trace) (n : nat) : metricsEpic tr n = [].
Proof. apply filter_none, observed_actions_noTerminal. Qed.

(** X2: the [tap] of [metricsEpic] reports something exactly at the
    instants at which an action of one of the six lifecycle types
    ([connected], [connectionError], [disconnected], [subscribed],
    [unsubscribed], [messageReceived]) is dispatched.  Requests ([connect],
    [disconnect], [subscribe], [unsubscribe]), foreign actions, socket
    events and the passing of time are neither measured nor logged. *)
Theorem metrics_only_lifecycle (getFeedId getSubsId : Value -> string)
    (tr : Trace) (n : nat) :
  reports getFeedId getSubsId tr n <> [] <->
  exists a st, tr !! n = Some (Dispatch a, st) /\ isLifecycle a = true.
Proof.
  rewrite reports_at. split.
  - destruct (tr !! n) as [[[ |a| | | | ] st]|]; try done.
    intros H. exists a, st. split; [done|]. by destruct a.
  - intros (a & st & -> & Ha). by destruct a.
Qed.

(** X3: the gauge [ws_connection_active].  After any run, the value of the
    time series of a label set is the number of [connected] actions minus
    the number of [disconnected] actions dispatched so far whose payload
    gives these labels (the connection key of the configuration and the
    url of the handler). *)
Theorem connection_gauge_balance (getFeedId getSubsId : Value -> string)
    (tr : Trace) (labels : Labels) (n : nat) :
  seriesChange ws_connection_active labels (reportsBefore getFeedId getSubsId tr n) =
  (Z.of_nat (dispatched tr (connectedWith labels) n)
   - Z.of_nat (dispatched tr (disconnectedWith labels) n))%Z.
Proof.
  induction n as [|n IH]; [done|].
  rewrite reportsBefore_S, seriesChange_app, IH, !dispatched_S, reports_at.
  destruct (tr !! n) as [[[ |a| | | | ] st]|]; simpl; try lia.
  destruct a; simpl; try lia; destruct (bool_decide (_ = labels)); simpl; lia.
Qed.

(** X4: the gauge [ws_subscription_active] and the counter
    [ws_subscription_total].  For every label set, the counter is the
    number of [subscribed] actions dispatched so far with these labels, the
    gauge is that number minus the number of [unsubscribed] actions with
    these labels; so the gauge never exceeds the counter. *)
Theorem subscription_gauge_bounded (getFeedId getSubsId : Value -> string)
    (tr : Trace) (labels : Labels) (n : nat) :
  let rs := reportsBefore getFeedId getSubsId tr n in
  let subscribes :=
    Z.of_nat (dispatched tr (subscribedWith getFeedId getSubsId labels) n) in
  let unsubscribes :=
    Z.of_nat (dispatched tr (unsubscribedWith getFeedId getSubsId labels) n) in
  seriesChange ws_subscription_total labels rs = subscribes
  /\ seriesChange ws_subscription_active labels rs = (subscribes - unsubscribes)%Z
  /\ (seriesChange ws_subscription_active labels rs
      <= seriesChange ws_subscription_total labels rs)%Z.
Proof.
  intros rs subscribes unsubscribes.
  assert (seriesChange ws_subscription_total labels rs = subscribes
          /\ seriesChange ws_subscription_active labels rs
             = (subscribes - unsubscribes)%Z) as [H1 H2].
  { unfold rs, subscribes, unsubscribes. clear.
    induction n as [|n [IH1 IH2]]; [done|].
    rewrite reportsBefore_S, !seriesChange_app, IH1, IH2, !dispatched_S, reports_at.
    destruct (tr !! n) as [[[ |a| | | | ] st]|]; simpl; try lia.
    destruct a; simpl; try lia; destruct (bool_decide (_ = labels)); simpl; lia. }
  split_and!; [done..|]. rewrite H1, H2. lia.
Qed.

Lemma seriesChange_counter_nonneg (getFeedId getSubsId : Value -> string)
    (tr : Trace) (metric : Metric) (labels : Labels) (n : nat) :
  isCounter metric = true ->
  (0 <= seriesChange metric labels (reports getFeedId getSubsId tr n))%Z.
Proof.
  intros Hc. rewrite reports_at.
  destruct (tr !! n) as [[[ |a| | | | ] st]|]; try done.
  destruct a, metric; try done; simpl;
    destruct (bool_decide (_ = labels)); simpl; lia.
Qed.

(** X5: the collectors [ws_connection_errors], [ws_subscription_total] and
    [ws_message_total] behave as counters: along any run, the value of each
    of their time series never decreases. *)
Theorem counters_never_decrease (getFeedId getSubsId : Value -> string)
    (tr : Trace) (metric : Metric) (labels : Labels) (m n : nat) :
  isCounter metric = true -> m <= n ->
  (seriesChange metric labels (reportsBefore getFeedId getSubsId tr m)
   <= seriesChange metric labels (reportsBefore getFeedId getSubsId tr n))%Z.
Proof.
  intros Hc. induction 1 as [|n Hle IH]; [lia|].
  rewrite reportsBefore_S, seriesChange_app.
  pose proof (seriesChange_counter_nonneg getFeedId getSubsId tr metric labels n Hc).
  lia.
Qed.

Lemma counters_never_decrease_witness :
  (seriesChange ws_subscription_total
     [("connection_key", "K"); ("connection_url", "wss://provider");
      ("feed_id", "A"); ("subscription_key", "A")]
     (reportsBefore Runs.getFeedId Scenario.getSubsId Runs.busyRun 2)
   <= seriesChange ws_subscription_total
        [("connection_key", "K"); ("connection_url", "wss://provider");
         ("feed_id", "A"); ("subscription_key", "A")]
        (reportsBefore Runs.getFeedId Scenario.getSubsId Runs.busyRun 9))%Z.
Proof.
  apply (counters_never_decrease Runs.getFeedId Scenario.getSubsId Runs.busyRun
           ws_subscription_total _ 2 9 eq_refl ltac:(lia)).
Defined.

Lemma logged_app rs1 rs2 : logged (rs1 ++ rs2) = logged rs1 ++ logged rs2.
Proof. apply omap_app. Qed.

Lemma dispatchedActions_S tr n :
  dispatchedActions tr (S n) =
  dispatchedActions tr n ++
  match tr !! n with
  | Some (Dispatch a, _) => [a]
  | _ => []
  end.
Proof.
  unfold dispatchedActions.
  destruct (tr !! n) as [[e st]|] eqn:Hl.
  - rewrite (take_S_r _ _ _ Hl), omap_app. by destruct e.
  - apply lookup_ge_None in Hl. rewrite !take_ge by lia. by rewrite app_nil_r.
Qed.

(** X6: the log of the metrics epic is a journal of the lifecycle.  The
    actions logged in a run (each at level info, with itself as payload)
    are, in order and each once, the dispatched [connected],
    [connectionError], [disconnected], [subscribed] and [unsubscribed]
    actions; received messages are counted but never logged, and nothing
    else is logged. *)
Theorem log_is_lifecycle_journal (getFeedId getSubsId : Value -> string)
    (tr : Trace) (n : nat) :
  (logged (reportsBefore getFeedId getSubsId tr n)).*2
  = List.filter (fun a => isLifecycle a && negb (matches Match.messageReceived a))
      (dispatchedActions tr n).
Proof.
  induction n as [|n IH]; [done|].
  rewrite reportsBefore_S, logged_app, fmap_app, IH, dispatchedActions_S,
    List.filter_app, reports_at.
  f_equal. destruct (tr !! n) as [[[ |a| | | | ] st]|]; try done. by destruct a.
Qed.

(** ** What the epics deliver *)

Section EpicFacts.
Variable getSubsId : Value -> string.
Variable JSON_parse : Value -> Completion Value.
Variable cacheEnv : nat -> CacheEnv.
Variable tr : Trace.

(** Every notification of [connectEpic] is a value that one of the
    connection streams it opened delivers. *)
Lemma connectEpic_elem n y :
  y ∈ connectEpic getSubsId JSON_parse cacheEnv tr n ->
  exists c payload st a,
    y = Next a /\ c <= n
    /\ tr !! c = Some (Dispatch (connect payload), st)
    /\ isActiveConnection st (key (connectionInfo (config payload))) = false
    /\ isConnecting st (key (connectionInfo (config payload))) = false
    /\ Next a ∈ ws getSubsId JSON_parse cacheEnv tr c
                  (key (connectionInfo (config payload)))
                  (config payload) (wsHandler payload) n.
Proof.
  unfold connectEpic.
  intros [(c & [[payload k] st] & Hc & Hr & Hy & Hne)|(e & _ & He)]%mergeMap_elem.
  - apply connectRequests_next in Hr as (Hl & -> & Ha & Hb).
    destruct y as [a|e|]; [|by apply ws_noError in Hy|done].
    by exists c, payload, st, a.
  - pose proof (connectRequests_noTerminal tr n) as Hn.
    rewrite existsb_terminal_false in Hn. by apply Hn in He.
Qed.

Lemma openObserver_elem c n x :
  x ∈ openObserver tr c n -> x = Next tt /\ exists st, tr !! n = Some (SocketOpen c, st).
Proof.
  unfold openObserver.
  destruct (tr !! n) as [[[ | |sock| | | ] st]|]; try (intros H; by elem_inv H).
  destruct (Nat.eqb_spec sock c) as [->|]; intros H; elem_inv H. eauto.
Qed.

Lemma closeObserver_elem c n x :
  x ∈ closeObserver tr c n -> x = Next tt /\ exists st, tr !! n = Some (SocketClose c, st).
Proof.
  unfold closeObserver.
  destruct (tr !! n) as [[[ | | |sock| | ] st]|]; try (intros H; by elem_inv H).
  destruct (Nat.eqb_spec sock c) as [->|]; intros H; elem_inv H. eauto.
Qed.

Lemma onMessage_elem payload k m st a :
  a ∈ onMessage payload k m st ->
  a = subscribed payload
  \/ a = messageReceived {| message := m; subscriptionKey := k |}.
Proof.
  unfold onMessage. destruct (negb _); intros H; elem_inv H; auto.
Qed.

Section OneConnection.
Variable c : nat.
Variable connectionKey : string.
Variable cfg : WSConfig.
Variable handler : WSHandler.t.

Lemma unresponsiveRace_kind i p state n a :
  a ∈ Rx.values (unresponsiveRace tr connectionKey cfg handler i p state n) ->
  (a = unsubscribe (recyclePayload connectionKey handler state (subscriptionKey p))
   \/ a = subscribe (recyclePayload connectionKey handler state (subscriptionKey p)))
  /\ Rx.due tr (subscriptionUnresponsiveTTL cfg) i n = true.
Proof.
  intros Ha%values_elem. rewrite unresponsiveRace_unfold in Ha.
  apply filter_elem in Ha as [[Ha|Ha]%race_elem Hk].
  - apply take1_elem, messageResets_dropped in Ha. congruence.
  - rewrite delay_of in Ha.
    destruct (Rx.due tr (subscriptionUnresponsiveTTL cfg) i n); [|by elem_inv Ha].
    elem_inv Ha; auto.
Qed.

(** The timers deliver their actions when a millisecond elapses. *)
Lemma unsubscribe_elem n a :
  Next a ∈ unsubscribe_ getSubsId tr c connectionKey cfg handler n ->
  (exists p, a = unsubscribe p \/ a = subscribe p)
  /\ exists st, tr !! n = Some (Tick, st).
Proof.
  unfold unsubscribe_. intros (o & Ho & Ha & _)%merge_elem. elem_inv Ho.
  - unfold unsubscribeOnTimeout in Ha.
    apply mergeMap_elem in Ha as [(i & a0 & _ & Ha0 & Ha & _)|(? & [=] & _)].
    apply subscriptions_elem in Ha0 as (payload & ? & [= ->] & _). simpl in Ha.
    apply values_elem, idleRace_value in Ha as [-> Hd].
    apply due_spec in Hd as [Ht _]. split; [|done]. exists payload. by left.
  - unfold unsubscribeOnNoResponse in Ha.
    apply mergeMap_elem in Ha as [(i & [a0 st0] & _ & Ha0 & Ha & _)|(? & [=] & _)].
    apply withLatestFrom_next in Ha0 as [Ha0 _].
    apply message_elem in Ha0 as (mp & ? & [= ->] & _). simpl in Ha.
    apply values_elem, unresponsiveRace_kind in Ha as [Hk Hd].
    apply due_spec in Hd as [Ht _]. split; [|done]. eexists. exact Hk.
Qed.

(** What [multiplexSubscriptions$] delivers, by the event it answers. *)
Lemma multiplexSubscriptions_elem n a :
  Next a ∈ multiplexSubscriptions getSubsId JSON_parse tr c connectionKey handler n ->
  c < n /\
  ((exists ev st p, tr !! n = Some (SocketMessage c ev, st)
                    /\ (a = subscribed p \/ exists mp, a = messageReceived mp))
   \/ (exists err st, tr !! n = Some (SocketError c err, st)
                      /\ a = connectionError
                             {| ep_connectionInfo :=
                                  Build_ConnectionInfo connectionKey (WSHandler.url handler);
                                ep_message := err |})
   \/ (exists e st p k, tr !! n = Some (e, st)
                        /\ notifiesEnd getSubsId connectionKey k e = true
                        /\ a = unsubscribed p)).
Proof.
  unfold multiplexSubscriptions.
  intros [[Ha%seal_elem _]|(p & e & Hp & He%seal_elem & Hy)]%catchError_elem.
  - apply multiplexed_elem in Ha as (s & payload & k & st0 & Hs & Hr & Ha & _).
    apply subscriptionRequests_next in Hr as (Hc & _).
    apply subscriptionStream_elem in Ha
      as (Hsn & [(ev & st & m & a' & Hl & _ & _ & Ha' & [= ->])
                |[(? & ? & _ & [=])|(e & st & Hl & He & [[= ->]|[=]])]]).
    + split; [lia|]. left. exists ev, st, payload. split; [done|].
      apply onMessage_elem in Ha' as [->| ->]; eauto.
    + split; [lia|]. right. right. by exists e, st, payload, k.
  - apply of_elem in Hy as (-> & [(a' & [= ->] & Ha')|[=]]). elem_inv Ha'.
    pose proof He as (s & payload & k & st0 & Hs & Hr & _)%multiplexed_elem.
    apply subscriptionRequests_next in Hr as (Hc & _).
    apply multiplexed_error in He as [st Hl].
    split; [lia|]. right. left. by exists e, st.
Qed.

Lemma notifiesEnd_inv ck k e :
  notifiesEnd getSubsId ck k e = true ->
  (exists p, e = Dispatch (unsubscribe p))
  \/ (exists p, e = Dispatch (disconnected p) /\ isDisconnectedFor ck e = true).
Proof.
  unfold notifiesEnd. intros [H|H]%orb_true_iff.
  - destruct e as [ |[]| | | | ]; try done. eauto.
  - destruct e as [ |[]| | | | ]; try done. eauto.
Qed.

(** The kinds of action with which a connection stream answers each kind
    of event. *)
Lemma ws_answers n a :
  Next a ∈ ws getSubsId JSON_parse cacheEnv tr c connectionKey cfg handler n ->
  exists e st, tr !! n = Some (e, st) /\ answers e a = true.
Proof.
  unfold ws. intros [[Ha Hquiet]|[[=] _]]%takeUntil_elem.
  apply merge_elem in Ha as (o & Ho & Ha & _). elem_inv Ho.
  - apply map_next in Ha as (? & -> & (_ & st & Hl)%openObserver_elem).
    by exists (SocketOpen c), st.
  - apply map_next in Ha as (? & -> & (_ & st & Hl)%closeObserver_elem).
    by exists (SocketClose c), st.
  - rewrite disconnect_silent in Ha. elem_inv Ha.
  - apply multiplexSubscriptions_elem in Ha
      as (Hc & [(ev & st & p & Hl & [->|[mp ->]])
               |[(err & st & Hl & ->)|(e & st & p & k & Hl & He & ->)]]).
    + by exists (SocketMessage c ev), st.
    + by exists (SocketMessage c ev), st.
    + by exists (SocketError c err), st.
    + exists e, st. split; [done|].
      apply notifiesEnd_inv in He as [[p' ->]|(p' & -> & Hd)]; [done|].
      rewrite wsEnd_values in Hquiet. apply Nat.ltb_lt in Hc.
      by rewrite Hc, Hl, Hd in Hquiet.
  - apply unsubscribe_elem in Ha as [[p [-> | ->]] [st Hl]]; by exists Tick, st.
  - rewrite withCache_silent in Ha. elem_inv Ha.
Qed.

End OneConnection.
End EpicFacts.



(** X9: the table of reactions of [connectEpic].  Every action that it
    delivers at an instant answers the event of that instant, and the kind
    of the event fixes the kind of the action: the passing of time is
    answered by [unsubscribe] and [subscribe] (the two timers), the opening
    and the closing of a socket by [connected] and [disconnected], a message
    of a socket by [subscribed] and [messageReceived], an error of a socket
    by [connectionError], and a dispatched [unsubscribe] by [unsubscribed].
    No other dispatched action is answered at its instant (in particular not
    [disconnected]), and [connect], [disconnect] and foreign actions are
    never delivered. *)
Theorem connectEpic_reactions (getSubsId : Value -> string)
    (JSON_parse : Value -> Completion Value) (cacheEnv : nat -> CacheEnv)
    (tr : Trace) (n : nat) :
  Forall (fun a => exists e st, tr !! n = Some (e, st) /\ answers e a = true)
    (Rx.values (connectEpic getSubsId JSON_parse cacheEnv tr n)).
Proof.
  apply Forall_forall. intros a Ha%values_elem.
  apply connectEpic_elem in Ha as (c & payload & st & a' & [= <-] & _ & _ & _ & _ & Ha).
  by apply ws_answers in Ha.
Qed.

(** ** The connection stream, end to end *)

Section ConnectionFacts.
Variable getSubsId : Value -> string.
Variable JSON_parse : Value -> Completion Value.
Variable cacheEnv : nat -> CacheEnv.
Variable tr : Trace.
Variable c : nat.
Variable connectionKey : string.
Variable cfg : WSConfig.
Variable handler : WSHandler.t.

Lemma connectedUntil_of_allBetween n :
  allBetween tr (fun e => negb (isDisconnectedFor connectionKey e)) c (S n) = true ->
  forall m e st, c < m <= n -> tr !! m = Some (e, st) ->
                 isDisconnectedFor connectionKey e = false.
Proof.
  intros H m e st Hm Hl. apply negb_true_iff.
  apply (allBetween_spec tr _ c (S n) H m e st); [lia|done].
Qed.

Lemma ws_open n :
  (forall m e st, c < m <= n -> tr !! m = Some (e, st) ->
                  isDisconnectedFor connectionKey e = false) ->
  Rx.closedBefore (ws getSubsId JSON_parse cacheEnv tr c connectionKey cfg handler)
    (S n) = false.
Proof.
  intros Hc. apply closedBefore_false. intros m Hm.
  apply existsb_terminal_false. intros y Hy.
  destruct y as [a|e|]; [done|by apply ws_noError in Hy|].
  unfold ws in Hy. apply takeUntil_elem in Hy as [[Hy _]|[_ Hfire]].
  - by apply merge_elem in Hy as (? & _ & _ & ?).
  - destruct Hfire. apply (wsEnd_silent tr c connectionKey n); [done|lia].
Qed.

Lemma open_at n st :
  tr !! n = Some (SocketOpen c, st) ->
  open_ tr c cfg handler n
  = [Next (connected {| config := cfg; wsHandler := handler |})].
Proof.
  intros Hl. unfold open_, Rx.map, openObserver. by rewrite Hl, Nat.eqb_refl.
Qed.

Lemma close_at n st :
  tr !! n = Some (SocketClose c, st) ->
  close_ tr c cfg handler n
  = [Next (disconnected {| config := cfg; wsHandler := handler |})].
Proof.
  intros Hl. unfold close_, Rx.map, closeObserver. by rewrite Hl, Nat.eqb_refl.
Qed.

End ConnectionFacts.

Lemma connectEpic_delivers (getSubsId : Value -> string)
    (JSON_parse : Value -> Completion Value) (cacheEnv : nat -> CacheEnv)
    (tr : Trace) (c : nat) (payload : WSConfigPayload) (st : State) (n : nat)
    (a : Action) :
  tr !! c = Some (Dispatch (connect payload), st) ->
  isActiveConnection st (key (connectionInfo (config payload))) = false ->
  isConnecting st (key (connectionInfo (config payload))) = false ->
  c <= n ->
  a ∈ Rx.values (ws getSubsId JSON_parse cacheEnv tr c
                   (key (connectionInfo (config payload)))
                   (config payload) (wsHandler payload) n) ->
  a ∈ Rx.values (connectEpic getSubsId JSON_parse cacheEnv tr n).
Proof.
  intros Hl Ha Hb Hc Hin. rewrite connectEpic_values.
  apply list_elem_of_bind. exists c. split; [|apply elem_of_seq; lia].
  apply list_elem_of_bind.
  exists (payload, key (connectionInfo (config payload)), st). split; [done|].
  apply values_elem. by apply connectRequests_next.
Qed.

(** X10: the socket that [connectEpic] creates for an accepted [connect]
    request reports its life to the action stream.  As long as the
    connection has not been reported disconnected, the opening of the
    socket makes [connectEpic] deliver [connected], and its closing
    [disconnected], both with the configuration and the handler of the
    request. *)
Theorem socket_lifecycle_reported (getSubsId : Value -> string)
    (JSON_parse : Value -> Completion Value) (cacheEnv : nat -> CacheEnv)
    (tr : Trace) (c : nat) (payload : WSConfigPayload) (st : State) (n : nat) :
  tr !! c = Some (Dispatch (connect payload), st) ->
  isActiveConnection st (key (connectionInfo (config payload))) = false ->
  isConnecting st (key (connectionInfo (config payload))) = false ->
  c < n ->
  allBetween tr
    (fun e => negb (isDisconnectedFor (key (connectionInfo (config payload))) e))
    c (S n) = true ->
  (forall st', tr !! n = Some (SocketOpen c, st') ->
     connected payload ∈ Rx.values (connectEpic getSubsId JSON_parse cacheEnv tr n))
  /\ (forall st', tr !! n = Some (SocketClose c, st') ->
        disconnected payload
          ∈ Rx.values (connectEpic getSubsId JSON_parse cacheEnv tr n)).
Proof.
  intros Hl Ha Hb Hc Hconn.
  pose proof (connectedUntil_of_allBetween _ _ _ _ Hconn) as Hu.
  split; intros st' Hn;
    apply (connectEpic_delivers _ _ _ _ c payload st); [done|done|done|lia| |done|done|done|lia|];
    rewrite ws_values by done; apply list_elem_of_bind.
  - exists (open_ tr c (config payload) (wsHandler payload)). split; [|left].
    rewrite (open_at _ _ _ _ _ st') by done. destruct payload. left.
  - exists (close_ tr c (config payload) (wsHandler payload)).
    split; [|right; left].
    rewrite (close_at _ _ _ _ _ st') by done. destruct payload. left.
Qed.

Lemma socket_lifecycle_reported_witness :
  connected Scenario.connectPayload
    ∈ Rx.values (connectEpic Scenario.getSubsId Scenario.JSON_parse Scenario.cacheOk
                   Scenario.connectRun 1).
Proof.
  destruct (socket_lifecycle_reported Scenario.getSubsId Scenario.JSON_parse
              Scenario.cacheOk Scenario.connectRun 0 Scenario.connectPayload
              Scenario.stateConnecting 1
              eq_refl eq_refl eq_refl ltac:(lia) eq_refl) as [H _].
  exact (H Scenario.stateConnecting eq_refl).
Defined.

(** X11: connections are isolated from each other.  As long as no
    [disconnected] action for its own key has been dispatched, a connection
    stream is open, whatever [disconnected] actions for other keys and
    whatever [disconnect] requests have occurred, and it delivers what
    [open$], [close$], [multiplexSubscriptions$] and [unsubscribe$] deliver,
    in this order; [disconnect$] and [withCache$] contribute nothing. *)
Theorem other_connections_untouched (getSubsId : Value -> string)
    (JSON_parse : Value -> Completion Value) (cacheEnv : nat -> CacheEnv)
    (tr : Trace) (c : nat) (connectionKey : string) (cfg : WSConfig)
    (handler : WSHandler.t) (n : nat) :
  allBetween tr (fun e => negb (isDisconnectedFor connectionKey e)) c (S n) = true ->
  let ws := ws getSubsId JSON_parse cacheEnv tr c connectionKey cfg handler in
  Rx.closedBefore ws (S n) = false
  /\ Rx.values (ws n)
     = Rx.values (open_ tr c cfg handler n)
       ++ Rx.values (close_ tr c cfg handler n)
       ++ Rx.values (multiplexSubscriptions getSubsId JSON_parse tr c connectionKey
                       handler n)
       ++ Rx.values (unsubscribe_ getSubsId tr c connectionKey cfg handler n).
Proof.
  intros Hconn ws0.
  pose proof (connectedUntil_of_allBetween _ _ _ _ Hconn) as Hu.
  split; [by apply ws_open|].
  unfold ws0. rewrite ws_values by done. simpl.
  by rewrite disconnect_silent, withCache_silent, !app_nil_r.
Qed.

Lemma other_connections_untouched_witness :
  Rx.values (ws Scenario.getSubsId Scenario.JSON_parse Scenario.cacheOk
               Runs.otherKeyRun 0 "K" Scenario.cfg Scenario.handler 2)
  = [connected Scenario.connectPayload].
Proof.
  destruct (other_connections_untouched Scenario.getSubsId Scenario.JSON_parse
              Scenario.cacheOk Runs.otherKeyRun 0 "K" Scenario.cfg Scenario.handler
              2 eq_refl) as [_ H].
  rewrite H. reflexivity.
Defined.

(** X12: the end of a connection stream.  At the first [disconnected]
    action for its key the stream completes without delivering any action,
    so whatever its parts produce at that instant (the [unsubscribed]
    actions of its open subscriptions) is lost; from then on it is silent:
    socket events, pending timers and requests of that connection are
    answered no more. *)
Theorem disconnected_silences_connection (getSubsId : Value -> string)
    (JSON_parse : Value -> Completion Value) (cacheEnv : nat -> CacheEnv)
    (tr : Trace) (c : nat) (connectionKey : string) (cfg : WSConfig)
    (handler : WSHandler.t) (d : nat) (e : Event) (st : State) :
  c < d ->
  allBetween tr (fun e => negb (isDisconnectedFor connectionKey e)) c d = true ->
  tr !! d = Some (e, st) ->
  isDisconnectedFor connectionKey e = true ->
  let ws := ws getSubsId JSON_parse cacheEnv tr c connectionKey cfg handler in
  ws d = [Complete] /\ forall n, d < n -> ws n = [].
Proof.
  intros Hc Hconn Hl He ws0.
  apply (ws_end _ _ _ _ _ _ _ _ d e st); [|done..].
  intros m e' st' Hm Hl'. apply negb_true_iff.
  apply (allBetween_spec tr _ c d Hconn m e' st'); [lia|done].
Qed.

Lemma disconnected_silences_connection_witness :
  ws Scenario.getSubsId Scenario.JSON_parse Scenario.cacheOk
    Scenario.disconnectedRun 0 "K" Scenario.cfg Scenario.handler 3 = [Complete].
Proof.
  apply (disconnected_silences_connection Scenario.getSubsId Scenario.JSON_parse
           Scenario.cacheOk Scenario.disconnectedRun 0 "K" Scenario.cfg
           Scenario.handler 3 (Dispatch (disconnected Scenario.connectPayload))
           Scenario.state0 ltac:(lia) eq_refl eq_refl eq_refl).
Defined.

(** ** The multiplexer, at its edges *)

(** X13: a frame that is not JSON is not dropped.  The deserializer hands
    the event object itself to the multiplexer, so it is the event object
    that goes through the message filter of a running subscription and, when
    the provider's handler attributes it to the subscription, that is
    delivered as the message of a [messageReceived] action (after
    [subscribed] when the subscription is not active yet). *)
Theorem unparsable_frame_matched_raw (getSubsId : Value -> string)
    (JSON_parse : Value -> Completion Value) (tr : Trace) (c : nat)
    (connectionKey : string) (handler : WSHandler.t)
    (s : nat) (payload : WSSubscriptionPayload) (k : string)
    (n : nat) (ev : Value) (st : State) (err : string) :
  s < n ->
  allBetween tr (fun e => negb (endsSubscription getSubsId c connectionKey k e)) s n
    = true ->
  tr !! n = Some (SocketMessage c ev, st) ->
  JSON_parse (prop "data" ev) = Throw err ->
  subscriptionStream getSubsId JSON_parse tr c connectionKey handler s payload k n
  = if messageFilter getSubsId handler k ev
    then Next <$> onMessage payload k ev st
    else [].
Proof.
  intros Hs Hrun Hl Hp.
  pose proof (running_of_allBetween _ _ _ _ _ _ _ Hrun) as Hrunning.
  rewrite (subscriptionStream_at _ _ _ _ _ _ _ _ _ n _ st Hrunning Hs Hl).
  unfold subscriptionReaction. simpl. rewrite Nat.eqb_refl.
  unfold onmessage, deserializer, tryCatch, lift. by rewrite Hp.
Qed.

Lemma unparsable_frame_matched_raw_witness :
  subscriptionStream Scenario.getSubsId Scenario.JSON_parse Runs.garbledRun 0 "K"
    Scenario.handler 1 (Scenario.sub "A") "A" 2
  = [Next (subscribed (Scenario.sub "A"));
     Next (messageReceived {| message := Runs.garbledEvent; subscriptionKey := "A" |})].
Proof.
  rewrite (unparsable_frame_matched_raw Scenario.getSubsId Scenario.JSON_parse
             Runs.garbledRun 0 "K" Scenario.handler 1 (Scenario.sub "A") "A" 2
             Runs.garbledEvent Scenario.state0 "Unexpected token"
             ltac:(lia) eq_refl eq_refl eq_refl).
  reflexivity.
Defined.

(** X15: what a running subscription is sensitive to.  An event that is
    neither a message nor an error of the socket of its connection, nor an
    [unsubscribe] action with its key, nor a [disconnected] action for its
    connection, leaves the stream of the subscription silent and open: in
    particular the messages and the errors of the sockets of other
    connections, and the requests for other subscriptions. *)
Theorem subscription_frame (getSubsId : Value -> string)
    (JSON_parse : Value -> Completion Value) (tr : Trace) (c : nat)
    (connectionKey : string) (handler : WSHandler.t)
    (s : nat) (payload : WSSubscriptionPayload) (k : string)
    (n : nat) (e : Event) (st : State) :
  s < n ->
  allBetween tr (fun e => negb (endsSubscription getSubsId c connectionKey k e)) s n
    = true ->
  tr !! n = Some (e, st) ->
  endsSubscription getSubsId c connectionKey k e = false ->
  isSocketMessageOf c e = false ->
  let stream :=
    subscriptionStream getSubsId JSON_parse tr c connectionKey handler s payload k in
  stream n = [] /\ Rx.closedBefore stream (S n) = false.
Proof.
  intros Hs Hrun Hl He Hm stream.
  pose proof (running_of_allBetween _ _ _ _ _ _ _ Hrun) as Hrunning.
  assert (stream n = []) as Hn.
  { unfold stream.
    rewrite (subscriptionStream_at _ _ _ _ _ _ _ _ _ n _ st Hrunning Hs Hl).
    unfold subscriptionReaction. unfold endsSubscription in He.
    apply orb_false_elim in He as [-> He].
    destruct e as [ | | | |sock ev|sock err]; simpl in *; try done.
    - by rewrite Hm.
    - by rewrite He. }
  split; [done|]. simpl. rewrite Hn. simpl. rewrite orb_false_r.
  by apply subscriptionStream_open.
Qed.

Lemma subscription_frame_witness :
  subscriptionStream Scenario.getSubsId Scenario.JSON_parse Runs.foreignErrorRun 0
    "K" Scenario.handler 1 (Scenario.sub "A") "A" 2 = [].
Proof.
  apply (subscription_frame Scenario.getSubsId Scenario.JSON_parse
           Runs.foreignErrorRun 0 "K" Scenario.handler 1 (Scenario.sub "A") "A" 2
           (SocketError 7 "ECONNRESET") Scenario.state0
           ltac:(lia) eq_refl eq_refl eq_refl eq_refl).
Defined.

(** ** The request written to the cache *)

Lemma setProp_same k v fs : assoc k fs = Some v -> setProp k v fs = fs.
Proof.
  induction fs as [|[k' v'] fs IH]; simpl; [done|].
  destruct (String.eqb_spec k k') as [->|Hne].
  - by intros [= ->].
  - intros H. by rewrite IH.
Qed.

Lemma setProp_idem k v fs : setProp k v (setProp k v fs) = setProp k v fs.
Proof. apply setProp_same, assoc_setProp_eq. Qed.

(** X16: forcing the cache marker is idempotent.  The request that the
    cache writer builds from an input, built again from that request, is
    the same request: [data.maxAge] and [debug] are overwritten in place and
    every other property keeps its value and its position. *)
Theorem wsResponseOf_idempotent (input : Value) :
  wsResponseOf (wsResponseOf input) = wsResponseOf input.
Proof.
  unfold wsResponseOf at 1.
  set (data := VObj (setProp "maxAge" (VNum (-1)) (spread (prop "data" input)))).
  assert (prop "data" (wsResponseOf input) = data) as Hd.
  { unfold wsResponseOf, prop. rewrite assoc_setProp_ne by done.
    by rewrite assoc_setProp_eq. }
  rewrite Hd. unfold data at 1. simpl. rewrite setProp_idem. fold data.
  unfold wsResponseOf. simpl. fold data.
  rewrite (setProp_same "data" data).
  - by rewrite setProp_idem.
  - rewrite assoc_setProp_ne by done. apply assoc_setProp_eq.
Qed.

(** ** The timers, end to end *)

Section TimerStreams.
Variable getSubsId : Value -> string.
Variable tr : Trace.
Variable c : nat.
Variable connectionKey : string.
Variable cfg : WSConfig.
Variable handler : WSHandler.t.

Lemma unsubscribeOnTimeout_noError n e :
  Error e ∉ unsubscribeOnTimeout getSubsId tr c cfg n.
Proof.
  unfold unsubscribeOnTimeout.
  intros [(p & a & _ & Ha & He & _)|(? & _ & He)]%mergeMap_elem.
  - apply subscriptions_elem in Ha as (payload & ? & [= ->] & _).
    by apply idleRace_noError in He.
  - by apply subscriptions_elem in He as (? & ? & [=] & _).
Qed.

Lemma unsubscribeOnNoResponse_noError n e :
  Error e ∉ unsubscribeOnNoResponse tr c connectionKey cfg handler n.
Proof.
  unfold unsubscribeOnNoResponse.
  intros [(p & [a st] & _ & Ha & He & _)|(? & _ & He)]%mergeMap_elem.
  - apply withLatestFrom_next in Ha as [Ha _].
    apply message_elem in Ha as (mp & ? & [= ->] & _).
    by apply unresponsiveRace_noError in He.
  - by apply withLatestFrom_error, message_elem in He as (? & ? & [=] & _).
Qed.

(** [unsubscribe$] delivers the actions of the idle timers, then those of
    the unresponsive timers. *)
Lemma unsubscribe_values n :
  Rx.values (unsubscribe_ getSubsId tr c connectionKey cfg handler n)
  = Rx.values (unsubscribeOnTimeout getSubsId tr c cfg n)
    ++ Rx.values (unsubscribeOnNoResponse tr c connectionKey cfg handler n).
Proof.
  unfold unsubscribe_. rewrite merge_values.
  - simpl. by rewrite app_nil_r.
  - intros o m e Ho _. elem_inv Ho.
    + apply unsubscribeOnTimeout_noError.
    + apply unsubscribeOnNoResponse_noError.
Qed.

End TimerStreams.

(** What [unsubscribe$] of the connection stream of an accepted [connect]
    request delivers, [connectEpic] delivers, as long as the connection has
    not been reported disconnected. *)
Lemma connectEpic_delivers_timers (getSubsId : Value -> string)
    (JSON_parse : Value -> Completion Value) (cacheEnv : nat -> CacheEnv)
    (tr : Trace) (c : nat) (cp : WSConfigPayload) (st0 : State) (q : nat)
    (a : Action) :
  tr !! c = Some (Dispatch (connect cp), st0) ->
  isActiveConnection st0 (key (connectionInfo (config cp))) = false ->
  isConnecting st0 (key (connectionInfo (config cp))) = false ->
  c <= q ->
  allBetween tr
    (fun e => negb (isDisconnectedFor (key (connectionInfo (config cp))) e))
    c (S q) = true ->
  a ∈ Rx.values (unsubscribe_ getSubsId tr c (key (connectionInfo (config cp)))
                   (config cp) (wsHandler cp) q) ->
  a ∈ Rx.values (connectEpic getSubsId JSON_parse cacheEnv tr q).
Proof.
  intros Hl Ha Hb Hc Hconn Hin.
  pose proof (connectedUntil_of_allBetween _ _ _ _ Hconn) as Hu.
  apply (connectEpic_delivers _ _ _ _ c cp st0); [done..|].
  rewrite ws_values by done. apply list_elem_of_bind.
  exists (unsubscribe_ getSubsId tr c (key (connectionInfo (config cp)))
            (config cp) (wsHandler cp)).
  split; [done|]. do 4 right. left.
Qed.

(** X17: the idle timeout, end to end.  After an accepted [connect]
    request, every [subscribe] action arms an idle timer of the connection
    stream, whichever connection the action names: the timers are started
    from all subscription requests, not from those of the connection.  If
    no [subscribe] action with the same subscription key follows before the
    time to live of the connection's configuration has elapsed, and the
    connection has not been reported disconnected, [connectEpic] delivers
    the [unsubscribe] action for the request at the expiry. *)
Theorem idle_timeout_end_to_end (getSubsId : Value -> string)
    (JSON_parse : Value -> Completion Value) (cacheEnv : nat -> CacheEnv)
    (tr : Trace) (c : nat) (cp : WSConfigPayload) (st0 : State)
    (i : nat) (payload : WSSubscriptionPayload) (st : State) (q : nat) :
  tr !! c = Some (Dispatch (connect cp), st0) ->
  isActiveConnection st0 (key (connectionInfo (config cp))) = false ->
  isConnecting st0 (key (connectionInfo (config cp))) = false ->
  c < i ->
  tr !! i = Some (Dispatch (subscribe payload), st) ->
  Rx.due tr (subscriptionTTL (config cp)) i q = true ->
  allBetween tr
    (fun e => negb (isSubscribeFor getSubsId (getSubsId (subscriptionMsg payload)) e))
    i q = true ->
  allBetween tr
    (fun e => negb (isDisconnectedFor (key (connectionInfo (config cp))) e))
    c (S q) = true ->
  unsubscribe payload ∈ Rx.values (connectEpic getSubsId JSON_parse cacheEnv tr q).
Proof.
  intros Hl Ha Hb Hc Hi Hdue Hquiet Hconn.
  pose proof Hdue as (_ & Hiq & _)%due_spec.
  apply (connectEpic_delivers_timers _ _ _ _ c cp st0); [done|done|done|lia|done|].
  rewrite unsubscribe_values. apply elem_of_app. left.
  apply (unsubscribeOnTimeout_race _ _ _ _ i payload st); [done..|].
  rewrite (idleRace_timeout _ _ _ _ _ q) by done.
  rewrite decide_True by done. left.
Qed.

Lemma idle_timeout_end_to_end_witness :
  unsubscribe (Scenario.sub "A")
    ∈ Rx.values (connectEpic Scenario.getSubsId Scenario.JSON_parse Scenario.cacheOk
                   Runs.crossRun 3).
Proof.
  apply (idle_timeout_end_to_end Scenario.getSubsId Scenario.JSON_parse
           Scenario.cacheOk Runs.crossRun 0 Runs.connectPayloadL Scenario.state0
           1 (Scenario.sub "A") Scenario.state0 3
           eq_refl eq_refl eq_refl ltac:(lia) eq_refl eq_refl eq_refl eq_refl).
Defined.

(** X18: the recovery of an unresponsive channel, end to end.  After an
    accepted [connect] request, every [messageReceived] action arms an
    unresponsive timer of the connection stream, whichever connection the
    message came from (the action does not say).  If no message for the
    same subscription key follows before the unresponsive time to live has
    elapsed, and the connection has not been reported disconnected,
    [connectEpic] delivers at the expiry an [unsubscribe] and a [subscribe]
    action that are addressed to the connection of the stream: they carry
    its key and the url of its handler, the input that the state held for
    the subscription key when the message arrived, and the subscription
    message that the handler derives from that input. *)
Theorem recovery_end_to_end (getSubsId : Value -> string)
    (JSON_parse : Value -> Completion Value) (cacheEnv : nat -> CacheEnv)
    (tr : Trace) (c : nat) (cp : WSConfigPayload) (st0 : State)
    (i : nat) (p : WSMessagePayload) (st : State) (q : nat) :
  tr !! c = Some (Dispatch (connect cp), st0) ->
  isActiveConnection st0 (key (connectionInfo (config cp))) = false ->
  isConnecting st0 (key (connectionInfo (config cp))) = false ->
  c < i ->
  tr !! i = Some (Dispatch (messageReceived p), st) ->
  Rx.due tr (subscriptionUnresponsiveTTL (config cp)) i q = true ->
  allBetween tr (fun e => negb (isMessageFor (subscriptionKey p) e)) i q = true ->
  allBetween tr
    (fun e => negb (isDisconnectedFor (key (connectionInfo (config cp))) e))
    c (S q) = true ->
  let action :=
    {| sp_connectionInfo :=
         {| key := key (connectionInfo (config cp));
            url := WSHandler.url (wsHandler cp) |};
       subscriptionMsg :=
         WSHandler.subscribe (wsHandler cp) (inputOf st (subscriptionKey p));
       input := inputOf st (subscriptionKey p) |} in
  unsubscribe action ∈ Rx.values (connectEpic getSubsId JSON_parse cacheEnv tr q)
  /\ subscribe action ∈ Rx.values (connectEpic getSubsId JSON_parse cacheEnv tr q).
Proof.
  intros Hl Ha Hb Hc Hi Hdue Hquiet Hconn action.
  pose proof Hdue as (_ & Hiq & _)%due_spec.
  assert (forall a, a ∈ [unsubscribe action; subscribe action] ->
            a ∈ Rx.values (connectEpic getSubsId JSON_parse cacheEnv tr q)) as H.
  { intros a Hin.
    apply (connectEpic_delivers_timers _ _ _ _ c cp st0); [done|done|done|lia|done|].
    rewrite unsubscribe_values. apply elem_of_app. right.
    apply (unsubscribeOnNoResponse_race _ _ _ _ _ i p st); [done..|].
    rewrite (unresponsiveRace_timeout _ _ _ _ _ _ _ q) by done.
    by rewrite decide_True by done. }
  split; apply H; [left|right; left].
Qed.

Lemma recovery_end_to_end_witness :
  subscribe {| sp_connectionInfo := {| key := "L"; url := "wss://provider" |};
               subscriptionMsg := VObj [("id", VUndefined)];
               input := VObj [] |}
    ∈ Rx.values (connectEpic Scenario.getSubsId Scenario.JSON_parse Scenario.cacheOk
                   Runs.crossSilentRun 4).
Proof.
  destruct (recovery_end_to_end Scenario.getSubsId Scenario.JSON_parse
              Scenario.cacheOk Runs.crossSilentRun 0 Runs.connectPayloadL
              Scenario.state0 1 (Scenario.received "A" 5) Scenario.state0 4
              eq_refl eq_refl eq_refl ltac:(lia) eq_refl eq_refl eq_refl eq_refl)
    as [_ H].
  exact H.
Defined.

(** * The accounts endpoint of the Bank Frick adapter *)

Section Validation.
Import BankFrick.

Lemma validateId_nan (m : gmap string JsNumber) (errs : list string) (v : string) :
  map_Forall (fun _ x => x = NaN) m ->
  exists m',
    validateId (m, errs) v
    = (m', errs ++ (if negb (ibanPattern v)
                    then [("Invalid IBAN: " ++ v)%string] else []))
    /\ map_Forall (fun _ x => x = NaN) m'.
Proof.
  intros Hm.
  assert (plusOne (m !! v) = NaN) as Hp.
  { destruct (m !! v) as [x|] eqn:Hl; [|done]. by rewrite (Hm v x Hl). }
  exists (<[v := NaN]> m). split.
  - unfold validateId. rewrite Hp, lookup_insert_eq. simpl.
    destruct (negb (ibanPattern v)); [done|by rewrite app_nil_r].
  - by apply map_Forall_insert_2.
Qed.

Lemma validate_fold (l : list string) (m : gmap string JsNumber) (errs : list string) :
  map_Forall (fun _ x => x = NaN) m ->
  (fold_left validateId l (m, errs)).2
  = errs ++ ((fun v => ("Invalid IBAN: " ++ v)%string)
             <$> List.filter (fun v => negb (ibanPattern v)) l).
Proof.
  revert m errs. induction l as [|v l IH]; intros m errs Hm.
  - simpl. by rewrite app_nil_r.
  - cbn [fold_left List.filter]. destruct (validateId_nan m errs v Hm) as (m' & -> & Hm').
    rewrite IH by done. rewrite <- app_assoc. f_equal.
    by destruct (negb (ibanPattern v)).
Qed.

End Validation.

(** X19: the validation of the requested IBANs reports the ill-formed
    ones, in the order of the request, and nothing else.  The check for an
    IBAN that appears more than once never fires: the counter of an IBAN is
    incremented without having been initialised, so it is never a number
    greater than one.  A request that names a well-formed IBAN twice passes
    the validation. *)
Theorem validation_misses_duplicates (ibanIDs : list string) :
  BankFrick.validateInputParams ibanIDs
  = (fun v => ("Invalid IBAN: " ++ v)%string)
    <$> List.filter (fun v => negb (BankFrick.ibanPattern v)) ibanIDs.
Proof.
  unfold BankFrick.validateInputParams. rewrite validate_fold; [done|].
  apply map_Forall_empty.
Qed.

(** ** The request and its retries *)

Section Retry.
Import BankFrick.
Context {num : Type}.
Variable generateJWT : nat -> Completion string.
Variable cfg : Config.

Local Abbreviation MAX := (REST_TRANSPORT_MAX_RATE_LIMIT_RETRIES cfg).

Lemma retryLoop_eq req (answers : list (Answer num)) k response w :
  retryLoop generateJWT cfg req answers k response w =
  if (status response =? 200)%Z then (w, answers, Returned response)
  else
    let retryNumber := (k + 1)%Z in
    let w := emit (Logged warn "Encountered error when fetching accounts from Bank Frick:") w in
    let again (w : World) :=
      let w := emit (Sleep (REST_TRANSPORT_MS_BETWEEN_RATE_LIMIT_RETRIES cfg)) w in
      let w := emit (Request req) w in
      match answers with
      | [] => (w, [], Waiting)
      | Reject reason :: rest => (w, rest, Thrown (Rejection reason))
      | Resolve response :: rest =>
          retryLoop generateJWT cfg req rest retryNumber response w
      end in
    if FatalErrors (status response) then
      (w, answers, Thrown (AdapterError (status response) (statusText response)))
    else if AuthErrors (status response) then
      let w := emit (Logged info "Auth error received from the Bank Frick API, attempting to refresh the token") w in
      match refreshToken generateJWT w with
      | (w, Returned _) => again w
      | (w, Thrown e) => (w, answers, Thrown e)
      | (w, _) => (w, answers, Waiting)
      end
    else if (retryNumber =? MAX)%Z then
      (w, answers,
       Thrown (AdapterError 504
                 ("Bank Frick transport hit the max number of retries ("
                  ++ pretty MAX ++ " retries) and aborted")%string))
    else again w.
Proof. by destruct answers. Qed.

Lemma requests_app l1 l2 : requests (l1 ++ l2) = requests l1 ++ requests l2.
Proof. apply omap_app. Qed.

Lemma requests_emit io w :
  requests (journal (emit io w)) =
  requests (journal w) ++ match io with Request r => [r] | _ => [] end.
Proof. unfold requests, emit. simpl. rewrite omap_app. by destruct io. Qed.

Lemma retryContract_cons k (response r : Response num) used rest out :
  retryContract generateJWT cfg (k + 1) (Some r) used rest out ->
  retryContract generateJWT cfg k (Some response) (Resolve r :: used) rest out.
Proof.
  unfold retryContract.
  destruct out as [r'|[code msg| |reason]| |]; try done.
  - intros [? [[= ->]|?]]; (split; [done|]); right; [left|by right].
  - intros [(Hf & r'' & [[= ->]|?] & ? & ?)|[-> Hk]].
    + left. split; [done|]. exists r. split; [right; left|done].
    + left. split; [done|]. exists r''. split; [right; by right|done].
    + right. split; [done|]. simpl. simpl in Hk. lia.
  - intros [?|?]; [left; by right|by right].
Qed.

(** One turn of the retry loop. *)
Lemma retryLoop_cases req (answers : list (Answer num)) k response w :
  let result := retryLoop generateJWT cfg req answers k response w in
  (status response = 200%Z /\ result = (w, answers, Returned response))
  \/ (status response <> 200%Z /\
      ((FatalErrors (status response) = true
        /\ exists w1,
             requests (journal w1) = requests (journal w)
             /\ result = (w1, answers,
                          Thrown (AdapterError (status response) (statusText response))))
       \/ (FatalErrors (status response) = false
           /\ AuthErrors (status response) = true
           /\ exists w1 n reason,
                generateJWT n = Throw reason
                /\ requests (journal w1) = requests (journal w)
                /\ result = (w1, answers, Thrown (Rejection reason)))
       \/ (FatalErrors (status response) = false
           /\ AuthErrors (status response) = false
           /\ (k + 1)%Z = MAX
           /\ exists w1 msg,
                requests (journal w1) = requests (journal w)
                /\ result = (w1, answers, Thrown (AdapterError 504 msg)))
       \/ (FatalErrors (status response) = false
           /\ (AuthErrors (status response) = true
               /\ (exists t, generateJWT (generated w) = Normal t)
               \/ AuthErrors (status response) = false /\ (k + 1)%Z <> MAX)
           /\ exists w1,
                requests (journal w1) = requests (journal w) ++ [req]
                /\ result
                   = match answers with
                     | [] => (w1, [], Waiting)
                     | Reject reason :: rest => (w1, rest, Thrown (Rejection reason))
                     | Resolve r :: rest =>
                         retryLoop generateJWT cfg req rest (k + 1) r w1
                     end))).
Proof.
  intros result. unfold result. rewrite retryLoop_eq. cbv zeta.
  destruct (Z.eqb_spec (status response) 200) as [H200|H200]; [by left|right].
  split; [done|].
  destruct (FatalErrors (status response)) eqn:Hf.
  { left. split; [done|]. eexists. split; [|done].
    rewrite requests_emit. by rewrite app_nil_r. }
  right. destruct (AuthErrors (status response)) eqn:Ha.
  - unfold refreshToken. simpl.
    destruct (generateJWT (generated w)) as [t|reason] eqn:Hj.
    + right. right. split; [done|]. split; [left; split; [done|by exists t]|].
      eexists. split; [|done].
      rewrite !requests_emit. simpl. rewrite !requests_app. simpl.
      by rewrite !app_nil_r.
    + left. split; [done|]. split; [done|].
      eexists _, _, _. split; [done|]. split; [|done].
      simpl. rewrite !requests_app. simpl. by rewrite !app_nil_r.
  - right. destruct (Z.eqb_spec (k + 1) MAX) as [Hk|Hk].
    + left. split; [done|]. split; [done|]. split; [done|].
      eexists _, _. split; [|done].
      rewrite requests_emit. by rewrite app_nil_r.
    + right. split; [done|]. split; [by right|]. eexists. split; [|done].
      rewrite !requests_emit. simpl. by rewrite !app_nil_r.
Qed.

Lemma retryLoop_spec req (answers : list (Answer num)) k response w w' rest out :
  retryLoop generateJWT cfg req answers k response w = (w', rest, out) ->
  exists used,
    answers = used ++ rest
    /\ requests (journal w')
       = requests (journal w) ++ replicate (length used + pendingRequests out) req
    /\ retryContract generateJWT cfg k (Some response) used rest out.
Proof.
  revert k response w.
  induction answers as [|a answers IH]; intros k response w;
    match goal with
    | |- retryLoop _ _ _ ?l _ _ _ = _ -> _ =>
        destruct (retryLoop_cases req l k response w)
          as [[H200 ->]|[H200 [(Hf & w1 & Hr & ->)
                              |[(Hf & Ha & w1 & n & reason & Hj & Hr & ->)
                               |[(Hf & Ha & Hk & w1 & msg & Hr & ->)
                                |(Hf & Hc & w1 & Hr & ->)]]]]]
    end.
  1,6: intros [= <- <- <-]; exists []; split_and!;
       [done|simpl; by rewrite app_nil_r|split; [done|by left]].
  1,5: intros [= <- <- <-]; exists []; split_and!;
       [done|simpl; by rewrite app_nil_r
       |left; split; [done|exists response; split; [by left|done]]].
  1,4: intros [= <- <- <-]; exists []; split_and!;
       [done|simpl; by rewrite app_nil_r|right; by exists n].
  1,3: intros [= <- <- <-]; exists []; split_and!;
       [done|simpl; by rewrite app_nil_r|right; split; [done|simpl; lia]].
  - intros [= <- <- <-]. exists []. split_and!; [done| |done].
    simpl. by rewrite Hr.
  - destruct a as [r|reason].
    + intros (used & -> & Hreq & Hcon)%IH. exists (Resolve r :: used).
      split_and!; [done| |by apply retryContract_cons].
      rewrite Hreq, Hr, <- app_assoc. done.
    + intros [= <- <- <-]. exists [Reject reason]. split_and!; [done| |left; left].
      simpl. by rewrite Hr.
Qed.

Lemma retryContract_first (r : Response num) used rest out :
  retryContract generateJWT cfg 0 (Some r) used rest out ->
  retryContract generateJWT cfg 0 None (Resolve r :: used) rest out.
Proof.
  unfold retryContract.
  destruct out as [r'|[code msg| |reason]| |]; try done.
  - intros [? [[= ->]|?]]; (split; [done|]); right; [left|by right].
  - intros [(Hf & r'' & [[= ->]|?] & ? & ?)|[-> Hk]].
    + left. split; [done|]. exists r. split; [right; left|done].
    + left. split; [done|]. exists r''. split; [right; by right|done].
    + right. split; [done|]. simpl. simpl in Hk. lia.
  - intros [?|?]; [left; by right|by right].
Qed.

Lemma makeRequest_spec req (answers : list (Answer num)) w w' rest out :
  makeRequest generateJWT cfg req answers w = (w', rest, out) ->
  exists used,
    answers = used ++ rest
    /\ requests (journal w')
       = requests (journal w) ++ replicate (length used + pendingRequests out) req
    /\ retryContract generateJWT cfg 0 None used rest out.
Proof.
  unfold makeRequest. destruct answers as [|[r|reason] answers].
  - intros [= <- <- <-]. exists []. split_and!; [done| |done].
    by rewrite requests_emit.
  - intros (used & -> & Hreq & Hcon)%retryLoop_spec. exists (Resolve r :: used).
    split_and!; [done| |by apply retryContract_first].
    rewrite Hreq, requests_emit, <- app_assoc. done.
  - intros [= <- <- <-]. exists [Reject reason]. split_and!; [done| |left; left].
    by rewrite requests_emit.
Qed.

Lemma auth_not_fatal s : AuthErrors s = true -> FatalErrors s = false.
Proof.
  unfold AuthErrors, FatalErrors. rewrite orb_true_iff, orb_false_iff, !Z.eqb_eq, !Z.eqb_neq.
  lia.
Qed.

End Retry.

Section AuthOnly.
Import BankFrick.
Context {num : Type}.
Variable tokens : nat -> string.
Variable cfg : Config.

Local Abbreviation refused :=
  (fun a : Answer num =>
     match a with
     | Resolve r => (status r =? 200)%Z || AuthErrors (status r)
     | Reject _ => false
     end).

Lemma retryLoop_auth_only req (answers : list (Answer num)) k response w w' rest out :
  (status response =? 200)%Z || AuthErrors (status response) = true ->
  forallb refused answers = true ->
  retryLoop (fun n => Normal (tokens n)) cfg req answers k response w = (w', rest, out) ->
  (exists r, out = Returned r)
  \/ (out = Waiting /\ rest = []
      /\ length (requests (journal w'))
         = length (requests (journal w)) + length answers + 1).
Proof.
  revert k response w.
  induction answers as [|a answers IH]; intros k response w Hres Hall;
    match goal with
    | |- retryLoop _ _ _ ?l _ _ _ = _ -> _ =>
        destruct (retryLoop_cases (fun n => Normal (tokens n)) cfg req l k response w)
          as [[H200 ->]|[H200 [(Hf & w1 & Hr & ->)
                              |[(Hf & Ha & w1 & n & reason & Hj & Hr & ->)
                               |[(Hf & Ha & Hk & w1 & msg & Hr & ->)
                                |(Hf & Hc & w1 & Hr & ->)]]]]]
    end;
    try done;
    try (intros [= <- <- <-]; left; by eexists);
    (apply orb_true_iff in Hres as [Hres%Z.eqb_eq|Hres]; [done|]);
    try (apply auth_not_fatal in Hres; congruence);
    try congruence.
  - intros [= <- <- <-]. right. split_and!; [done..|].
    rewrite Hr, length_app. simpl. lia.
  - simpl in Hall. apply andb_true_iff in Hall as [Hok Hall].
    destruct a as [r|reason]; [|done]. intros H.
    apply IH in H as [?|(-> & -> & Hlen)]; [by left| |done..].
    right. split_and!; [done..|]. rewrite Hlen, Hr, length_app. simpl. lia.
Qed.

End AuthOnly.

(** X20: the contract of [makeRequest].  A call uses up a prefix of the
    bank's answers.  It returns only a response with status 200.  It throws
    the bank's own status and status text only for a response with status
    400 or 423; it gives up with status 504 only when the number of answers
    it has received equals the configured maximum of retries; any other
    exception is a rejection of [axios.request] or of [generateJWT].  When
    it has neither returned nor thrown, no answer is left: it is waiting
    for the bank. *)
Theorem makeRequest_contract {num : Type}
    (generateJWT : nat -> Completion string) (cfg : BankFrick.Config)
    (req : BankFrick.AxiosRequest) (answers : list (BankFrick.Answer num))
    (w : BankFrick.World) :
  let '(_, rest, out) := BankFrick.makeRequest generateJWT cfg req answers w in
  exists used,
    answers = used ++ rest /\
    match out with
    | BankFrick.Returned r =>
        BankFrick.status r = 200%Z /\ BankFrick.Resolve r ∈ used
    | BankFrick.Thrown (BankFrick.AdapterError code msg) =>
        (BankFrick.FatalErrors code = true
         /\ exists r, BankFrick.Resolve r ∈ used
                      /\ BankFrick.status r = code /\ BankFrick.statusText r = msg)
        \/ (code = 504%Z
            /\ Z.of_nat (length used)
               = BankFrick.REST_TRANSPORT_MAX_RATE_LIMIT_RETRIES cfg)
    | BankFrick.Thrown (BankFrick.AdapterInputError _ _) => False
    | BankFrick.Thrown (BankFrick.Rejection reason) =>
        BankFrick.Reject reason ∈ used \/ exists n, generateJWT n = Throw reason
    | BankFrick.Waiting => rest = []
    | BankFrick.OutOfFuel => False
    end.
Proof.
  destruct (BankFrick.makeRequest generateJWT cfg req answers w)
    as [[w' rest] out] eqn:H.
  apply makeRequest_spec in H as (used & -> & _ & Hcon). exists used.
  split; [done|]. unfold BankFrick.retryContract in Hcon.
  destruct out as [r|[code msg| |reason]| |]; try done.
  - destruct Hcon as [? [[=]|?]]. done.
  - destruct Hcon as [(Hf & r & [[=]|?] & ? & ?)|[-> Hk]].
    + left. split; [done|]. by exists r.
    + right. split; [done|]. lia.
Qed.

(** X21: authentication errors are not counted against the maximum of
    retries.  When the bank answers every request with status 401 or 403
    until it answers with status 200, and [generateJWT] succeeds, a call of
    [makeRequest] never gives up, whatever the configured maximum: it
    returns the response with status 200, or, when the answers are used up,
    it has sent one request more than it has received answers and is
    waiting. *)
Theorem auth_errors_bypass_retry_limit {num : Type} (tokens : nat -> string)
    (cfg : BankFrick.Config) (req : BankFrick.AxiosRequest)
    (answers : list (BankFrick.Answer num)) (w : BankFrick.World) :
  forallb (fun a => match a with
                    | BankFrick.Resolve r =>
                        (BankFrick.status r =? 200)%Z
                        || BankFrick.AuthErrors (BankFrick.status r)
                    | BankFrick.Reject _ => false
                    end) answers = true ->
  let '(w', rest, out) :=
    BankFrick.makeRequest (fun n => Normal (tokens n)) cfg req answers w in
  (exists r, out = BankFrick.Returned r /\ BankFrick.status r = 200%Z)
  \/ (out = BankFrick.Waiting /\ rest = []
      /\ length (BankFrick.requests (BankFrick.journal w'))
         = length (BankFrick.requests (BankFrick.journal w)) + length answers + 1).
Proof.
  intros Hall.
  destruct (BankFrick.makeRequest _ cfg req answers w) as [[w' rest] out] eqn:H.
  pose proof (makeRequest_spec _ _ _ _ _ _ _ _ H) as (used & _ & _ & Hcon).
  assert ((exists r, out = BankFrick.Returned r)
          \/ (out = BankFrick.Waiting /\ rest = []
              /\ length (BankFrick.requests (BankFrick.journal w'))
                 = length (BankFrick.requests (BankFrick.journal w))
                   + length answers + 1)) as [[r ->]|?]; [|left|by right].
  - unfold BankFrick.makeRequest in H. destruct answers as [|[r|reason] answers].
    + injection H as <- <- <-. right. split_and!; [done..|].
      rewrite requests_emit, length_app. simpl. lia.
    + simpl in Hall. apply andb_true_iff in Hall as [Hr Hall].
      apply retryLoop_auth_only in H as [?|(-> & -> & Hlen)]; [by left|right|done..].
      split_and!; [done..|]. rewrite Hlen, requests_emit, length_app. simpl. lia.
    + done.
  - exists r. split; [done|]. by destruct Hcon.
Qed.

Lemma auth_errors_bypass_retry_limit_witness :
  let '(w', rest, out) :=
    BankFrick.makeRequest (fun n => Normal (BankFrick.Bank.tokens n)) BankFrick.Bank.cfg
      (BankFrick.prepareRequest BankFrick.Bank.cfg 0 BankFrick.Bank.signedIn)
      BankFrick.Bank.refusals BankFrick.Bank.signedIn in
  (exists r, out = BankFrick.Returned r /\ BankFrick.status r = 200%Z)
  \/ (out = BankFrick.Waiting /\ rest = []
      /\ length (BankFrick.requests (BankFrick.journal w'))
         = length (BankFrick.requests (BankFrick.journal BankFrick.Bank.signedIn))
           + length BankFrick.Bank.refusals + 1).
Proof.
  apply (auth_errors_bypass_retry_limit BankFrick.Bank.tokens BankFrick.Bank.cfg
           (BankFrick.prepareRequest BankFrick.Bank.cfg 0 BankFrick.Bank.signedIn)
           BankFrick.Bank.refusals BankFrick.Bank.signedIn eq_refl).
Defined.

(** X22: the retries of [makeRequest] resend the request as it was
    prepared.  Every request that a call sends is the request it was given,
    and it sends one for each answer it receives, and one more when it is
    left waiting.  So the [Authorization] header of the retries is the one
    built from the token held before the call, also after an authentication
    error has made the transport generate a new token. *)
Theorem retries_resend_same_request {num : Type}
    (generateJWT : nat -> Completion string) (cfg : BankFrick.Config)
    (req : BankFrick.AxiosRequest) (answers : list (BankFrick.Answer num))
    (w : BankFrick.World) :
  let '(w', rest, out) := BankFrick.makeRequest generateJWT cfg req answers w in
  BankFrick.requests (BankFrick.journal w')
  = BankFrick.requests (BankFrick.journal w)
    ++ replicate (length answers - length rest + BankFrick.pendingRequests out) req.
Proof.
  destruct (BankFrick.makeRequest generateJWT cfg req answers w)
    as [[w' rest] out] eqn:H.
  apply makeRequest_spec in H as (used & -> & -> & _).
  rewrite length_app. do 3 f_equal. lia.
Qed.

(** ** The scan of the pages *)

Section Pages.
Import BankFrick.
Context {num : Type}.
Variable zero : num.
Variable add : num -> num -> num.
Variable generateJWT : nat -> Completion string.
Variable cfg : Config.

Lemma indexOf_lookup x l i : indexOf x l = Some i -> l !! i = Some x.
Proof.
  revert i. induction l as [|y l IH]; intros i; simpl; [done|].
  destruct (String.eqb_spec y x) as [->|Hne].
  - by intros [= <-].
  - destruct (indexOf x l) as [j|]; [|done]. intros [= <-]. by apply IH.
Qed.

Lemma scan_spec (page : list (Account num)) keys sum :
  exists keys',
    fold_left (scanAccount add) page (keys, sum)
    = (keys', fold_left add (balance <$> counted keys page) sum)
    /\ keys ≡ₚ (iban <$> counted keys page) ++ keys'
    /\ sublist (counted keys page) page.
Proof.
  revert keys sum. induction page as [|v page IH]; intros keys sum.
  - exists keys. split_and!; [done..|]. apply sublist_nil_l.
  - cbn [fold_left counted]. unfold scanAccount at 2.
    destruct (indexOf (iban v) keys) as [i|] eqn:Hi.
    + destruct (IH (delete i keys) (add sum (balance v))) as (keys' & -> & Hp & Hs).
      exists keys'. split_and!; [done| |by apply sublist_skip].
      rewrite fmap_cons. simpl. rewrite <- Hp.
      by apply delete_Permutation, indexOf_lookup.
    + destruct (IH keys sum) as (keys' & -> & Hp & Hs).
      exists keys'. split_and!; [done..|]. by apply sublist_cons.
Qed.

Lemma listed_app (l1 l2 : list (Answer num)) :
  listed (l1 ++ l2) = listed l1 ++ listed l2.
Proof. unfold listed. apply bind_app. Qed.

Lemma listed_elem (r : Response num) used :
  Resolve r ∈ used -> status r = 200%Z -> sublist (accounts r) (listed used).
Proof.
  intros (u1 & u2 & ->)%list_elem_of_split Hs.
  rewrite listed_app. apply sublist_inserts_l.
  unfold listed at 1. cbn [mbind list_bind]. rewrite Hs. simpl.
  by apply sublist_inserts_r.
Qed.

Lemma pageLoop_spec fuel (answers : list (Answer num)) position keys sum w w' out :
  pageLoop add generateJWT cfg fuel answers position keys sum w = (w', out) ->
  match out with
  | Returned (keys', sum') =>
      exists cs,
        sublist cs (listed answers)
        /\ keys ≡ₚ (iban <$> cs) ++ keys'
        /\ sum' = fold_left add (balance <$> cs) sum
  | OutOfFuel => fuel <= length answers
  | _ => True
  end.
Proof.
  revert answers position keys sum w.
  induction fuel as [|fuel IH]; intros answers position keys sum w.
  { intros [= <- <-]. lia. }
  cbn [pageLoop]. destruct (0 <? length keys).
  - destruct (makeRequest generateJWT cfg (prepareRequest cfg position w) answers w)
      as [[w1 rest] out1] eqn:Hm.
    apply makeRequest_spec in Hm as (used & -> & _ & Hcon).
    unfold retryContract in Hcon.
    destruct out1 as [r| | |]; [|by intros [= <- <-]..|done].
    destruct Hcon as [H200 [[=]|Hin]].
    destruct (scan_spec (accounts r) keys sum) as (keys1 & -> & Hp1 & Hs1).
    pose proof (listed_elem r used Hin H200) as Hl.
    destruct (negb (moreResults r)).
    + intros [= <- <-]. exists (counted keys (accounts r)). split_and!; [|done..].
      rewrite listed_app. etrans; [done|]. etrans; [done|]. by apply sublist_inserts_r.
    + intros H%IH. destruct out as [[keys' sum']| | |]; [|done|done|].
      * destruct H as (cs & Hs & Hp & ->).
        exists (counted keys (accounts r) ++ cs). split_and!.
        -- rewrite listed_app. apply sublist_app; [by etrans|done].
        -- rewrite fmap_app, <- app_assoc, <- Hp. done.
        -- by rewrite fmap_app, fold_left_app.
      * rewrite length_app. apply list_elem_of_split in Hin as (u1 & u2 & ->).
        rewrite length_app. simpl. lia.
  - intros [= <- <-]. exists []. split_and!; [apply sublist_nil_l|done..].
Qed.

Lemma foregroundExecute_returned ibanIDs (answers : list (Answer num)) w w' sum :
  foregroundExecute zero add generateJWT cfg ibanIDs answers w = (w', Returned sum) ->
  validateInputParams ibanIDs = []
  /\ exists cs,
       sublist cs (listed answers)
       /\ (iban <$> cs) ≡ₚ ibanIDs
       /\ sum = fold_left add (balance <$> cs) zero.
Proof.
  unfold foregroundExecute.
  destruct (validateInputParams ibanIDs) as [|err errs] eqn:Hv; cbn [length];
    [change (0 <? 0) with false; cbv iota
    |change (0 <? S (length errs)) with true; by cbv iota].
  destruct (if tokenMissing (token w) then refreshToken generateJWT w
            else (w, Returned ())) as [w1 [[]| | |]]; try done.
  destruct (pageLoop add generateJWT cfg (S (length answers)) answers 0 ibanIDs zero
              (emit (Logged info "Fetching accounts from Bank Frick's API...") w1))
    as [w2 out] eqn:Hp.
  apply pageLoop_spec in Hp.
  destruct out as [[keys sum']| | |]; try done.
  destruct keys as [|key keys]; [|done]. simpl. intros [= <- <-].
  split; [done|]. destruct Hp as (cs & Hs & Hperm & ->). exists cs.
  split_and!; [done| |done]. by rewrite app_nil_r in Hperm.
Qed.

Lemma foregroundExecute_fuel ibanIDs (answers : list (Answer num)) w :
  (foregroundExecute zero add generateJWT cfg ibanIDs answers w).2 <> OutOfFuel.
Proof.
  unfold foregroundExecute.
  destruct (0 <? length (validateInputParams ibanIDs)); [done|].
  destruct (if tokenMissing (token w) then refreshToken generateJWT w
            else (w, Returned ())) as [w1 [[]| | |]]; try done.
  destruct (pageLoop add generateJWT cfg (S (length answers)) answers 0 ibanIDs zero
              (emit (Logged info "Fetching accounts from Bank Frick's API...") w1))
    as [w2 out] eqn:Hp.
  apply pageLoop_spec in Hp.
  destruct out as [[keys sum']| | |]; try done.
  - simpl. by destruct (0 <? length keys).
  - lia.
Qed.

End Pages.

(** X23: the scan of a page of accounts.  An account is counted when its
    IBAN is among the keys still sought, and it then removes one occurrence
    of that IBAN from the keys.  So after the scan, the keys that were
    sought are, up to their order, the IBANs of the counted accounts
    together with the keys that remain; the sum has grown by the balances
    of the counted accounts, added in the order of the page; and no account
    is counted twice, whatever the page lists. *)
Theorem scan_counts_each_key_once {num : Type} (add : num -> num -> num)
    (page : list (BankFrick.Account num)) (keys : list string) (sum : num) :
  let '(keys', sum') :=
    fold_left (BankFrick.scanAccount add) page (keys, sum) in
  let cs := BankFrick.counted keys page in
  keys ≡ₚ (BankFrick.iban <$> cs) ++ keys'
  /\ sum' = fold_left add (BankFrick.balance <$> cs) sum
  /\ sublist cs page.
Proof.
  destruct (scan_spec add page keys sum) as (keys' & -> & Hp & Hs). done.
Qed.

(** X24: what the accounts endpoint returns.  When [foregroundExecute]
    returns a result, every requested IBAN is well formed, and the result is
    the sum, from zero and in the order of the bank's listing, of the
    balances of accounts that the bank listed in responses with status 200,
    a selection of that listing whose IBANs are, up to their order, exactly
    the requested ones. *)
Theorem foregroundExecute_result {num : Type} (zero : num)
    (add : num -> num -> num) (generateJWT : nat -> Completion string)
    (cfg : BankFrick.Config) (ibanIDs : list string)
    (answers : list (BankFrick.Answer num)) (w : BankFrick.World) (sum : num) :
  (BankFrick.foregroundExecute zero add generateJWT cfg ibanIDs answers w).2
  = BankFrick.Returned sum ->
  Forall (fun v => BankFrick.ibanPattern v = true) ibanIDs
  /\ exists cs,
       sublist cs (BankFrick.listed answers)
       /\ (BankFrick.iban <$> cs) ≡ₚ ibanIDs
       /\ sum = fold_left add (BankFrick.balance <$> cs) zero.
Proof.
  destruct (BankFrick.foregroundExecute zero add generateJWT cfg ibanIDs answers w)
    as [w' out] eqn:H.
  simpl. intros ->. apply foregroundExecute_returned in H as [Hv H].
  split; [|done].
  unfold BankFrick.validateInputParams in Hv.
  rewrite validate_fold in Hv by apply map_Forall_empty. simpl in Hv.
  apply fmap_nil_inv in Hv. apply Forall_forall. intros v Hin.
  destruct (BankFrick.ibanPattern v) eqn:Hpat; [done|exfalso].
  assert (v ∈ List.filter (fun v => negb (BankFrick.ibanPattern v)) ibanIDs) as Hf.
  { apply list_elem_of_In, filter_In. split; [by apply list_elem_of_In|by rewrite Hpat]. }
  rewrite Hv in Hf. by apply elem_of_nil in Hf.
Qed.

Lemma foregroundExecute_result_witness :
  exists cs,
    sublist cs (BankFrick.listed BankFrick.Bank.twoPages)
    /\ (BankFrick.iban <$> cs) ≡ₚ [BankFrick.Bank.ibanB; BankFrick.Bank.ibanA]
    /\ 42%Z = fold_left Z.add (BankFrick.balance <$> cs) 0%Z.
Proof.
  apply (foregroundExecute_result 0%Z Z.add BankFrick.Bank.generateJWT
           BankFrick.Bank.cfg [BankFrick.Bank.ibanB; BankFrick.Bank.ibanA]
           BankFrick.Bank.twoPages BankFrick.Bank.world0 42%Z eq_refl).
Defined.

(** X25: the page loop ends with the answers.  Every turn of the loop of
    [foregroundExecute] uses up at least one answer of the bank, so on any
    list of answers the endpoint has returned, has thrown, or is waiting for
    an answer that the list does not hold: the bound that the model puts on
    the number of turns is never reached. *)
Theorem page_loop_bounded {num : Type} (zero : num)
    (add : num -> num -> num) (generateJWT : nat -> Completion string)
    (cfg : BankFrick.Config) (ibanIDs : list string)
    (answers : list (BankFrick.Answer num)) (w : BankFrick.World) :
  let out :=
    (BankFrick.foregroundExecute zero add generateJWT cfg ibanIDs answers w).2 in
  (exists sum, out = BankFrick.Returned sum)
  \/ (exists e, out = BankFrick.Thrown e)
  \/ out = BankFrick.Waiting.
Proof.
  intros out. pose proof (foregroundExecute_fuel zero add generateJWT cfg ibanIDs answers w) as H.
  fold out in H. destruct out; [left|right; left|right; right|done]; eauto.
Qed.

(** X26: a request that names an IBAN twice.  The validation lets it pass
    (its check for duplicates never fires), and the scan removes one
    occurrence of a key for each listed account.  So whenever the bank
    lists every IBAN at most once and the endpoint returns a result, the
    requested IBANs are pairwise distinct: against such a bank a request
    with a repeated IBAN never yields a balance. *)
Theorem repeated_iban_not_served {num : Type} (zero : num)
    (add : num -> num -> num) (generateJWT : nat -> Completion string)
    (cfg : BankFrick.Config) (ibanIDs : list string)
    (answers : list (BankFrick.Answer num)) (w : BankFrick.World) (sum : num) :
  (BankFrick.foregroundExecute zero add generateJWT cfg ibanIDs answers w).2
  = BankFrick.Returned sum ->
  NoDup (BankFrick.iban <$> BankFrick.listed answers) ->
  NoDup ibanIDs.
Proof.
  destruct (BankFrick.foregroundExecute zero add generateJWT cfg ibanIDs answers w)
    as [w' out] eqn:H.
  simpl. intros -> Hnd.
  apply foregroundExecute_returned in H as [_ (cs & Hs & Hp & _)].
  rewrite <- Hp. eapply sublist_NoDup; [done|]. by apply fmap_sublist.
Qed.

Lemma repeated_iban_not_served_witness :
  NoDup [BankFrick.Bank.ibanB; BankFrick.Bank.ibanA].
Proof.
  apply (repeated_iban_not_served 0%Z Z.add BankFrick.Bank.generateJWT
           BankFrick.Bank.cfg [BankFrick.Bank.ibanB; BankFrick.Bank.ibanA]
           BankFrick.Bank.twoPages BankFrick.Bank.world0 42%Z eq_refl).
  apply (bool_decide_unpack _). vm_compute. exact I.
Defined.

(** ** The cache key *)

Section CacheKey.
Import BankFrick.

Lemma ascii_compare_refl a : Ascii.compare a a = Eq.
Proof. unfold Ascii.compare. apply N.compare_refl. Qed.

Lemma keyOrder_trans : Transitive keyOrder.
Proof.
  unfold keyOrder, String.leb. intros s1.
  induction s1 as [|a s1 IH]; intros [|b s2] [|c s3]; simpl; try done.
  destruct (Ascii.compare a b) eqn:H1; [| |done];
    destruct (Ascii.compare b c) eqn:H2; try done.
  - apply Ascii.compare_eq_iff in H1 as ->. apply Ascii.compare_eq_iff in H2 as ->.
    rewrite ascii_compare_refl. apply IH.
  - apply Ascii.compare_eq_iff in H1 as ->. by rewrite H2.
  - apply Ascii.compare_eq_iff in H2 as <-. by rewrite H1.
  - unfold Ascii.compare in *. rewrite N.compare_lt_iff in H1, H2.
    assert ((N_of_ascii a ?= N_of_ascii c)%N = Lt) as ->; [|done].
    apply N.compare_lt_iff. lia.
Qed.

Lemma keyOrder_total : Total keyOrder.
Proof.
  intros s1 s2. unfold keyOrder.
  destruct (String.leb_total s1 s2) as [->| ->]; [by left|by right].
Qed.

Lemma keyOrder_antisym : AntiSymm eq keyOrder.
Proof.
  intros s1 s2 H1 H2. unfold keyOrder in *.
  apply String.leb_antisym; by apply Is_true_true.
Qed.

(** A list of keys has one sorted arrangement. *)
Lemma sort_Permutation (l1 l2 : list string) :
  l1 ≡ₚ l2 -> merge_sort keyOrder l1 = merge_sort keyOrder l2.
Proof.
  intros Hp.
  apply (@Sorted_unique _ keyOrder keyOrder_trans keyOrder_antisym).
  - apply Sorted_merge_sort, keyOrder_total.
  - apply Sorted_merge_sort, keyOrder_total.
  - by rewrite !merge_sort_Permutation.
Qed.

(** Reading a property does not depend on the order of the properties. *)
Lemma assoc_Permutation (d1 d2 : list (string * Value)) k :
  NoDup d1.*1 -> d1 ≡ₚ d2 -> assoc k d1 = assoc k d2.
Proof.
  intros Hnd Hp. induction Hp as [|[k1 v1] l1 l2 Hp IH|[k1 v1] [k2 v2] l|l1 l2 l3 Hp1 IH1 Hp2 IH2].
  - done.
  - simpl. apply NoDup_cons in Hnd as [_ Hnd]. by rewrite IH.
  - simpl. destruct (String.eqb_spec k k1) as [E1|N1], (String.eqb_spec k k2) as [E2|N2];
      try done.
    subst. apply NoDup_cons in Hnd as [Hnd _]. destruct Hnd. left.
  - rewrite IH1 by done. apply IH2. by rewrite <- Hp1.
Qed.

End CacheKey.

(** X27: the cache key of a request does not depend on the order of its
    parameters.  [cacheKeyGenerator] rebuilds the parameters with their
    names sorted before it serializes them, so two objects with the same
    properties, inserted in any two orders, get the same key. *)
Theorem cache_key_ignores_parameter_order (stringify : Value -> string)
    (data data' : list (string * Value)) :
  NoDup data.*1 ->
  data ≡ₚ data' ->
  BankFrick.cacheKeyGenerator stringify data
  = BankFrick.cacheKeyGenerator stringify data'.
Proof.
  intros Hnd Hp. unfold BankFrick.cacheKeyGenerator.
  rewrite (sort_Permutation data.*1 data'.*1) by (by rewrite Hp).
  do 2 f_equal. generalize (@nil (string * Value)).
  induction (merge_sort BankFrick.keyOrder data'.*1) as [|k ks IH]; intros acc; [done|].
  simpl. rewrite IH. do 2 f_equal. unfold prop.
  by rewrite (assoc_Permutation data data' k).
Qed.

Lemma cache_key_ignores_parameter_order_witness :
  BankFrick.cacheKeyGenerator BankFrick.Bank.stringify BankFrick.Bank.params
  = BankFrick.cacheKeyGenerator BankFrick.Bank.stringify BankFrick.Bank.paramsSwapped.
Proof.
  apply (cache_key_ignores_parameter_order BankFrick.Bank.stringify
           BankFrick.Bank.params BankFrick.Bank.paramsSwapped).
  - apply (bool_decide_unpack _). vm_compute. exact I.
  - apply perm_swap.
Defined.

(** * The websocket transport of the DxFeed adapter *)

Section DxFeedFacts.
Import DxFeed.
Variable parseInt : string -> option Z.

Lemma heartbeatIds_app l1 l2 :
  heartbeatIds (l1 ++ l2) = heartbeatIds l1 ++ heartbeatIds l2.
Proof. apply omap_app. Qed.

Lemma listener_spec mem m :
  let '(mem', sent, resolve) := listener parseInt mem m in
  connectionClientId mem'
  = (if isHandshake m then default "" (clientId m) else connectionClientId mem)
  /\ heartbeatIds sent = (if isConnect m then [connectionClientId mem'] else [])
  /\ resolve = isConnect m.
Proof.
  unfold listener. destruct (isHandshake m), (isConnect m); simpl; done.
Qed.

(** While no handshake reply is acted on, the module keeps its client id
    and every heartbeat carries it. *)
Lemma receive_after_handshake mem c post :
  connectionClientId mem = c ->
  forallb (fun m => negb (isHandshake m)) post = true ->
  let '(mem', sent, resolved) := receive parseInt mem post in
  connectionClientId mem' = c
  /\ heartbeatIds sent = replicate (length (List.filter isConnect post)) c
  /\ resolved = existsb isConnect post.
Proof.
  revert mem. induction post as [|m post IH]; intros mem Hc Hall; [done|].
  cbn [forallb] in Hall. apply andb_true_iff in Hall as [Hm%negb_true_iff Hall].
  cbn [receive]. pose proof (listener_spec mem m) as Hl.
  destruct (listener parseInt mem m) as [[mem1 sent1] resolve].
  destruct Hl as (Hc1 & Hs1 & ->). rewrite Hm in Hc1.
  specialize (IH mem1 ltac:(congruence) Hall).
  destruct (receive parseInt mem1 post) as [[mem2 sent2] resolved].
  destruct IH as (Hc2 & Hs2 & ->).
  split_and!; [done| |done].
  rewrite heartbeatIds_app, Hs1, Hs2. cbn [List.filter existsb].
  destruct (isConnect m); [|done]. simpl. congruence.
Qed.

Lemma handshake_not_connect m : isHandshake m = true -> isConnect m = false.
Proof.
  unfold isHandshake, isConnect. destruct (clientId m); [|done].
  intros [_ Hc%String.eqb_eq]%andb_true_iff. by rewrite Hc.
Qed.

End DxFeedFacts.

(** X28: the client id of a DxFeed session.  Once the listener of [open]
    has acted on a handshake reply, which gives the client id, and as long
    as it acts on no other one, every heartbeat that it sends carries that
    client id, one heartbeat is sent for each [/meta/connect] frame, the
    promise of [open] is resolved exactly when such a frame has arrived,
    and the subscription and unsubscription messages built afterwards carry
    the same client id and the same upper-case symbol, whatever was kept
    from an earlier connection. *)
Theorem heartbeats_carry_handshake_id (parseInt : string -> option Z)
    (toUpperCase : string -> string) (mem : DxFeed.Memory)
    (h : DxFeed.Entry) (post : list DxFeed.Entry) (base : string) :
  DxFeed.isHandshake h = true ->
  forallb (fun m => negb (DxFeed.isHandshake m)) post = true ->
  let c := default "" (DxFeed.clientId h) in
  let '(mem', sent, resolved) := DxFeed.receive parseInt mem (h :: post) in
  DxFeed.FirstHeartbeat c ∈ sent
  /\ DxFeed.heartbeatIds sent
     = replicate (length (List.filter DxFeed.isConnect (h :: post))) c
  /\ resolved = existsb DxFeed.isConnect (h :: post)
  /\ DxFeed.subscribeMessage toUpperCase mem' base
     = DxFeed.Subscription true (toUpperCase base) c
  /\ DxFeed.unsubscribeMessage toUpperCase mem' base
     = DxFeed.Subscription false (toUpperCase base) c.
Proof.
  intros Hh Hpost c. cbn [DxFeed.receive].
  pose proof (listener_spec parseInt mem h) as Hl.
  assert (exists mem1 sent1,
            DxFeed.listener parseInt mem h = (mem1, DxFeed.FirstHeartbeat c :: sent1, false)
            /\ DxFeed.heartbeatIds sent1 = []) as (mem1 & sent1 & Hh1 & Hs1).
  { unfold DxFeed.listener.
    rewrite Hh, (handshake_not_connect h Hh). by eexists _, _. }
  rewrite Hh1 in *. destruct Hl as (Hc1 & _). rewrite Hh in Hc1.
  pose proof (receive_after_handshake parseInt mem1 c post Hc1 Hpost) as Hr.
  destruct (DxFeed.receive parseInt mem1 post) as [[mem2 sent2] resolved].
  destruct Hr as (Hc2 & Hs2 & ->).
  cbn [List.filter existsb]. rewrite (handshake_not_connect h Hh).
  split_and!; [left| |done|..].
  - rewrite <- Hs2, heartbeatIds_app.
    change (DxFeed.heartbeatIds (DxFeed.FirstHeartbeat c :: sent1))
      with (DxFeed.heartbeatIds sent1).
    by rewrite Hs1.
  - unfold DxFeed.subscribeMessage. by rewrite Hc2.
  - unfold DxFeed.unsubscribeMessage. by rewrite Hc2.
Qed.

Lemma heartbeats_carry_handshake_id_witness :
  DxFeed.heartbeatIds
    (DxFeed.receive DxFeed.Session.parseInt DxFeed.loaded
       [DxFeed.Session.hello; DxFeed.Session.beat "2"; DxFeed.Session.quoteData;
        DxFeed.Session.beat "3"]).1.2
  = ["c-42"; "c-42"].
Proof.
  pose proof (heartbeats_carry_handshake_id DxFeed.Session.parseInt (fun s => s)
                DxFeed.loaded DxFeed.Session.hello
                [DxFeed.Session.beat "2"; DxFeed.Session.quoteData;
                 DxFeed.Session.beat "3"] "AAPL" eq_refl eq_refl) as H.
  destruct (DxFeed.receive _ _ _) as [[mem' sent] resolved].
  destruct H as (_ & H & _). exact H.
Defined.

(** ** The timers fire only after a real silence *)

Section TimerSafety.
Variable tr : Trace.

(** A timer set by a dispatched action is not yet due at the instants
    before it fires. *)
Lemma due_clock_before d i a st n m :
  tr !! i = Some (Dispatch a, st) ->
  Rx.due tr d i n = true -> m < n ->
  clock tr m < clock tr i + Nat.max 1 d.
Proof.
  intros Hi ([st' Hn] & Hin & Hc)%due_spec Hm.
  rewrite (clock_dispatch tr i a st Hi) in Hc.
  rewrite clock_S, Hn in Hc.
  pose proof (clock_mono tr m n ltac:(lia)). lia.
Qed.

End TimerSafety.

(** X29: an idle unsubscription is only emitted for a feed that has been
    idle.  Every action that [unsubscribeOnTimeout$] delivers at an instant
    is the [unsubscribe] action for the payload of a [subscribe] action that
    was dispatched after the [connect] action, whose timer of
    [subscriptionTTL] milliseconds fires at that instant, and after which no
    [subscribe] action with the same subscription key has been dispatched:
    a request that was renewed in time never leads to an unsubscription. *)
Theorem idle_unsubscribe_only_when_idle (getSubsId : Value -> string)
    (tr : Trace) (c : nat) (cfg : WSConfig) (n : nat) :
  Forall
    (fun a =>
       exists p i st,
         a = unsubscribe p
         /\ c < i
         /\ tr !! i = Some (Dispatch (subscribe p), st)
         /\ Rx.due tr (subscriptionTTL cfg) i n = true
         /\ allBetween tr
              (fun e => negb (isSubscribeFor getSubsId
                                (getSubsId (subscriptionMsg p)) e)) i n = true)
    (Rx.values (unsubscribeOnTimeout getSubsId tr c cfg n)).
Proof.
  apply Forall_forall. intros a Ha%values_elem. unfold unsubscribeOnTimeout in Ha.
  apply mergeMap_elem in Ha as [(i & a0 & _ & Ha0 & Ha & _)|(? & [=] & _)].
  apply subscriptions_elem in Ha0 as (p & st & [= ->] & Hc & Hi). simpl in Ha.
  apply values_elem in Ha. pose proof Ha as [-> Hdue]%idleRace_value.
  exists p, i, st. split_and!; [done..|].
  unfold allBetween. apply forallb_forall. intros m [Hm1 Hm2]%in_seq.
  destruct (tr !! m) as [[e st']|] eqn:Hl; [|done].
  destruct (isSubscribeFor getSubsId (getSubsId (subscriptionMsg p)) e) eqn:He;
    [exfalso|done].
  destruct e as [ |[]| | | | ]; try done. simpl in He. apply String.eqb_eq in He.
  rewrite (idleRace_reset getSubsId tr cfg i p m payload st') in Ha;
    [by apply elem_of_nil in Ha|lia|done|done|].
  apply (due_clock_before tr _ i (subscribe p) st n); [done|done|lia].
Qed.

(** X30: a channel is recycled only after it has been silent.  Every action
    that [unsubscribeOnNoResponse$] delivers at an instant is the
    [unsubscribe] or the [subscribe] action of the recovery of a
    [messageReceived] action that was dispatched after the [connect] action,
    whose timer of [subscriptionUnresponsiveTTL] milliseconds fires at that
    instant, and after which no message for the same subscription key has
    been reported: a subscription that keeps receiving messages is never
    recycled. *)
Theorem recovery_only_after_silence (tr : Trace) (c : nat)
    (connectionKey : string) (cfg : WSConfig) (handler : WSHandler.t) (n : nat) :
  Forall
    (fun a =>
       exists p i st,
         (a = unsubscribe (recyclePayload connectionKey handler st (subscriptionKey p))
          \/ a = subscribe (recyclePayload connectionKey handler st (subscriptionKey p)))
         /\ c < i
         /\ tr !! i = Some (Dispatch (messageReceived p), st)
         /\ Rx.due tr (subscriptionUnresponsiveTTL cfg) i n = true
         /\ allBetween tr (fun e => negb (isMessageFor (subscriptionKey p) e)) i n
            = true)
    (Rx.values (unsubscribeOnNoResponse tr c connectionKey cfg handler n)).
Proof.
  apply Forall_forall. intros a Ha%values_elem. unfold unsubscribeOnNoResponse in Ha.
  apply mergeMap_elem in Ha as [(i & [a0 st] & _ & Ha0 & Ha & _)|(? & [=] & _)].
  apply withLatestFrom_next in Ha0 as [Ha0 [e0 Hst]].
  apply message_elem in Ha0 as (p & st0 & [= ->] & Hc & Hi). simpl in Ha.
  rewrite Hi in Hst. injection Hst as _ <-.
  apply values_elem in Ha. pose proof Ha as [Hkind Hdue]%unresponsiveRace_kind.
  exists p, i, st0. split_and!; [done..|].
  unfold allBetween. apply forallb_forall. intros m [Hm1 Hm2]%in_seq.
  destruct (tr !! m) as [[e st']|] eqn:Hl; [|done].
  destruct (isMessageFor (subscriptionKey p) e) eqn:He; [exfalso|done].
  destruct e as [ |[]| | | | ]; try done. simpl in He. apply String.eqb_eq in He.
  rewrite (unresponsiveRace_reset tr connectionKey cfg handler i p st0 m payload st')
    in Ha; [by apply elem_of_nil in Ha|lia|done|done|].
  apply (due_clock_before tr _ i (messageReceived p) st0 n); [done|done|lia].
Qed.

(** * The timers, the guard and the cache writers, on the epic *)

(** ** Connections that are live *)

Section Between.
Variable tr : Trace.

Lemma allBetween_S (P : Event -> bool) a b :
  a < b ->
  allBetween tr P a (S b) =
  allBetween tr P a b && match tr !! b with Some (e, _) => P e | None => true end.
Proof.
  intros Hab. unfold allBetween.
  replace (S b - S a) with (S (b - S a)) by lia.
  rewrite seq_S, forallb_app. cbn [forallb].
  replace (S a + (b - S a)) with b by lia. by rewrite andb_true_r.
Qed.

Lemma allBetween_empty (P : Event -> bool) a b :
  b <= S a -> allBetween tr P a b = true.
Proof.
  intros Hab. unfold allBetween. by replace (b - S a) with 0 by lia.
Qed.

Lemma allBetween_intro (P : Event -> bool) a b :
  (forall m e st, a < m < b -> tr !! m = Some (e, st) -> P e = true) ->
  allBetween tr P a b = true.
Proof.
  intros H. unfold allBetween. apply forallb_forall. intros m [Hm1 Hm2]%in_seq.
  destruct (tr !! m) as [[e st]|] eqn:Hl; [|done].
  apply (H m e st); [lia|done].
Qed.

Lemma allBetween_shorter (P : Event -> bool) a b b' :
  b' <= b -> allBetween tr P a b = true -> allBetween tr P a b' = true.
Proof.
  intros Hb H. apply allBetween_intro. intros m e st Hm Hl.
  apply (allBetween_spec tr P a b H m e st); [lia|done].
Qed.

(** The first position that breaks a condition. *)
Lemma allBetween_first (P : Event -> bool) a b :
  allBetween tr P a b = false ->
  exists d e st,
    a < d < b /\ allBetween tr P a d = true
    /\ tr !! d = Some (e, st) /\ P e = false.
Proof.
  induction b as [|b IH]; [by rewrite allBetween_empty by lia|].
  destruct (decide (a < b)) as [Hab|Hab];
    [|by rewrite allBetween_empty by lia].
  rewrite allBetween_S by done.
  destruct (allBetween tr P a b) eqn:Hb.
  - simpl. destruct (tr !! b) as [[e st]|] eqn:Hl; [|done].
    intros HP. exists b, e, st. split_and!; (done || lia).
  - intros _. destruct IH as (d & e & st & Hd & ?); [done|].
    exists d, e, st. split; [lia|done].
Qed.

End Between.

Section LiveStream.
Variable getSubsId : Value -> string.
Variable JSON_parse : Value -> Completion Value.
Variable cacheEnv : nat -> CacheEnv.
Variable tr : Trace.
Variable c : nat.
Variable connectionKey : string.
Variable cfg : WSConfig.
Variable handler : WSHandler.t.

Local Abbreviation wsx :=
  (ws getSubsId JSON_parse cacheEnv tr c connectionKey cfg handler).
Local Abbreviation connectedBefore n :=
  (allBetween tr (fun e => negb (isDisconnectedFor connectionKey e)) c n).

Lemma connected_until n :
  connectedBefore (S n) = true ->
  forall m e st, c < m <= n -> tr !! m = Some (e, st) ->
                 isDisconnectedFor connectionKey e = false.
Proof.
  intros H m e st Hm Hl. apply negb_true_iff.
  apply (allBetween_spec tr _ c (S n) H m e st); [lia|done].
Qed.

(** The connection stream has completed before a position exactly when its
    connection has been reported disconnected before. *)
Lemma ws_closedBefore n :
  Rx.closedBefore wsx n = negb (connectedBefore n).
Proof.
  destruct (connectedBefore n) eqn:Hc; simpl.
  - destruct n as [|n]; [done|]. apply ws_open. by apply connected_until.
  - apply allBetween_first in Hc as (d & e & st & Hd & Hbefore & Hl & He).
    apply negb_false_iff in He.
    destruct (ws_end getSubsId JSON_parse cacheEnv tr c connectionKey cfg handler
                d e st) as [Hend _]; [|lia|done|done|].
    { intros m e' st' Hm Hl'. apply negb_true_iff.
      apply (allBetween_spec tr _ c d Hbefore m e' st'); [lia|done]. }
    apply closedBefore_true. exists d. split; [lia|]. by rewrite Hend.
Qed.

(** What the connection stream delivers: the actions of its parts while the
    connection has not been reported disconnected, nothing from then on. *)
Lemma ws_values_live n :
  Rx.values (wsx n) =
  if connectedBefore (S n)
  then Rx.values (open_ tr c cfg handler n)
       ++ Rx.values (close_ tr c cfg handler n)
       ++ Rx.values (multiplexSubscriptions getSubsId JSON_parse tr c connectionKey
                       handler n)
       ++ Rx.values (unsubscribe_ getSubsId tr c connectionKey cfg handler n)
  else [].
Proof.
  destruct (connectedBefore (S n)) eqn:Hc.
  - rewrite ws_values by (by apply connected_until). simpl.
    by rewrite disconnect_silent, withCache_silent, !app_nil_r.
  - apply allBetween_first in Hc as (d & e & st & Hd & Hbefore & Hl & He).
    apply negb_false_iff in He.
    destruct (ws_end getSubsId JSON_parse cacheEnv tr c connectionKey cfg handler
                d e st) as [Hend Hafter]; [|lia|done|done|].
    { intros m e' st' Hm Hl'. apply negb_true_iff.
      apply (allBetween_spec tr _ c d Hbefore m e' st'); [lia|done]. }
    destruct (decide (d = n)) as [->|Hne].
    + by rewrite Hend.
    + by rewrite Hafter by lia.
Qed.

(** When a millisecond elapses, only the timers deliver. *)
Lemma ws_values_tick n st :
  tr !! n = Some (Tick, st) ->
  Rx.values (wsx n) =
  if connectedBefore (S n)
  then Rx.values (unsubscribeOnTimeout getSubsId tr c cfg n)
       ++ Rx.values (unsubscribeOnNoResponse tr c connectionKey cfg handler n)
  else [].
Proof.
  intros Hl. rewrite ws_values_live. destruct (connectedBefore (S n)); [|done].
  rewrite unsubscribe_values.
  assert (Rx.values (open_ tr c cfg handler n) = []) as ->.
  { unfold open_, Rx.map, openObserver. by rewrite Hl. }
  assert (Rx.values (close_ tr c cfg handler n) = []) as ->.
  { unfold close_, Rx.map, closeObserver. by rewrite Hl. }
  assert (Rx.values (multiplexSubscriptions getSubsId JSON_parse tr c connectionKey
                       handler n) = []) as ->; [|done].
  apply values_nil. intros a Ha.
  apply multiplexSubscriptions_elem in Ha
    as (_ & [(? & ? & ? & ? & _)|[(? & ? & ? & _)|(e & ? & ? & k & Hl' & He & _)]]);
    try congruence.
  rewrite Hl in Hl'. by simplify_eq.
Qed.

(** The unsubscribe requests that the connection stream delivers are those
    of its timers. *)
Lemma ws_unsubscribes k n :
  unsubscribesFor getSubsId k (Rx.values (wsx n)) =
  if connectedBefore (S n)
  then unsubscribesFor getSubsId k
         (Rx.values (unsubscribeOnTimeout getSubsId tr c cfg n))
       ++ unsubscribesFor getSubsId k
            (Rx.values (unsubscribeOnNoResponse tr c connectionKey cfg handler n))
  else [].
Proof.
  rewrite ws_values_live. destruct (connectedBefore (S n)); [|done].
  unfold unsubscribesFor. rewrite !List.filter_app, unsubscribe_values, List.filter_app.
  assert (forall l : list Action,
            (forall a, a ∈ l -> forall p, a <> unsubscribe p) ->
            List.filter (fun a => isUnsubscribeFor getSubsId k (Dispatch a)) l = [])
    as Hnone.
  { intros l Hl. apply elem_of_nil_inv. intros a Ha.
    apply list_elem_of_In, filter_In in Ha as [Ha Hk]. apply list_elem_of_In in Ha.
    destruct a; try done. by destruct (Hl _ Ha payload). }
  rewrite (Hnone (Rx.values (open_ _ _ _ _ _))), (Hnone (Rx.values (close_ _ _ _ _ _))),
    (Hnone (Rx.values (multiplexSubscriptions _ _ _ _ _ _ _))); [done|..].
  - intros a Ha%values_elem p ->.
    apply multiplexSubscriptions_elem in Ha
      as (_ & [(? & ? & ? & _ & [?|[? ?]])|[(? & ? & _ & ?)|(? & ? & ? & ? & _ & _ & ?)]]);
      done.
  - intros a Ha%values_elem p ->. unfold close_ in Ha.
    by apply map_next in Ha as (? & ? & _).
  - intros a Ha%values_elem p ->. unfold open_ in Ha.
    by apply map_next in Ha as (? & ? & _).
Qed.

End LiveStream.

(** ** The epic, connection by connection *)

Lemma bind_bind {A B C} (l : list A) (f : A -> list B) (g : B -> list C) :
  (l ≫= f) ≫= g = l ≫= (fun x => f x ≫= g).
Proof.
  induction l as [|x l IH]; [done|].
  change ((x :: l) ≫= f) with (f x ++ (l ≫= f)).
  rewrite bind_app, IH. done.
Qed.

Section LiveEpic.
Variable getSubsId : Value -> string.
Variable JSON_parse : Value -> Completion Value.
Variable cacheEnv : nat -> CacheEnv.
Variable tr : Trace.

Local Abbreviation epic := (connectEpic getSubsId JSON_parse cacheEnv tr).
Local Abbreviation keyOf cp := (key (connectionInfo (config cp))).
Local Abbreviation connectedBefore ck c n :=
  (allBetween tr (fun e => negb (isDisconnectedFor ck e)) c n).

Lemma liveConnections_bind {B} (F : nat -> WSConfigPayload -> list B) n :
  (liveConnections tr n ≫= fun x => F x.1 x.2) =
  c ← seq 0 (S n);
  x ← Rx.values (connectRequests tr c);
  if connectedBefore x.1.2 c (S n) then F c x.1.1 else [].
Proof.
  unfold liveConnections. rewrite bind_bind.
  apply list_bind_ext; [|done]. intros c. rewrite bind_bind.
  apply list_bind_ext; [|done]. intros [[payload k] st]. simpl.
  destruct (connectedBefore k c (S n)); [|done]. simpl. by rewrite app_nil_r.
Qed.

Lemma liveConnections_elem n c cp :
  (c, cp) ∈ liveConnections tr n <->
  c <= n
  /\ (exists st, tr !! c = Some (Dispatch (connect cp), st)
                 /\ isActiveConnection st (keyOf cp) = false
                 /\ isConnecting st (keyOf cp) = false)
  /\ connectedBefore (keyOf cp) c (S n) = true.
Proof.
  unfold liveConnections. rewrite list_elem_of_bind. split.
  - intros (c' & (x & Hx & Hv)%list_elem_of_bind & Hc%elem_of_seq).
    destruct x as [[payload k] st].
    apply values_elem, connectRequests_next in Hv as (Hl & -> & Ha & Hb).
    destruct (connectedBefore _ c' (S n)) eqn:Hlive; elem_inv Hx.
    split; [lia|]. split; [by exists st|done].
  - intros (Hc & (st & Hl & Ha & Hb) & Hlive). exists c.
    split; [|apply elem_of_seq; lia].
    apply list_elem_of_bind. exists (cp, keyOf cp, st). rewrite Hlive.
    split; [left|]. apply values_elem. by apply connectRequests_next.
Qed.

(** The unsubscribe requests that [connectEpic] delivers are those of the
    timers of the connections that are live. *)
Lemma connectEpic_unsubscribes k n :
  unsubscribesFor getSubsId k (Rx.values (epic n)) =
  liveConnections tr n ≫= fun x =>
    unsubscribesFor getSubsId k
      (Rx.values (unsubscribeOnTimeout getSubsId tr x.1 (config x.2) n))
    ++ unsubscribesFor getSubsId k
         (Rx.values (unsubscribeOnNoResponse tr x.1 (keyOf x.2) (config x.2)
                       (wsHandler x.2) n)).
Proof.
  rewrite (liveConnections_bind
             (fun c cp =>
                unsubscribesFor getSubsId k
                  (Rx.values (unsubscribeOnTimeout getSubsId tr c (config cp) n))
                ++ unsubscribesFor getSubsId k
                     (Rx.values (unsubscribeOnNoResponse tr c (keyOf cp) (config cp)
                                   (wsHandler cp) n)))).
  rewrite connectEpic_values. unfold unsubscribesFor at 1. rewrite filter_bind.
  apply list_bind_ext; [|done]. intros c. rewrite filter_bind.
  apply Forall_bind_ext, Forall_forall. intros [[payload ck] st] Hx.
  apply values_elem, connectRequests_next in Hx as (_ & -> & _). simpl.
  apply ws_unsubscribes.
Qed.

(** When a millisecond elapses, [connectEpic] delivers what the timers of
    the live connections deliver, oldest connection first. *)
Lemma connectEpic_tick n st :
  tr !! n = Some (Tick, st) ->
  Rx.values (epic n) =
  liveConnections tr n ≫= fun x =>
    Rx.values (unsubscribeOnTimeout getSubsId tr x.1 (config x.2) n)
    ++ Rx.values (unsubscribeOnNoResponse tr x.1 (keyOf x.2) (config x.2)
                    (wsHandler x.2) n).
Proof.
  intros Hl.
  rewrite (liveConnections_bind
             (fun c cp =>
                Rx.values (unsubscribeOnTimeout getSubsId tr c (config cp) n)
                ++ Rx.values (unsubscribeOnNoResponse tr c (keyOf cp) (config cp)
                                (wsHandler cp) n))).
  rewrite connectEpic_values.
  apply list_bind_ext; [|done]. intros c.
  apply Forall_bind_ext, Forall_forall. intros [[payload ck] st'] Hx.
  apply values_elem, connectRequests_next in Hx as (_ & -> & _). simpl.
  by apply ws_values_tick with st.
Qed.

(** Every action of a live connection stream is delivered by the epic. *)
Lemma connectEpic_delivers_live n c cp a :
  (c, cp) ∈ liveConnections tr n ->
  a ∈ Rx.values (ws getSubsId JSON_parse cacheEnv tr c (keyOf cp) (config cp)
                   (wsHandler cp) n) ->
  a ∈ Rx.values (epic n).
Proof.
  intros (Hc & (st & Hl & Ha & Hb) & _)%liveConnections_elem Hin.
  by apply (connectEpic_delivers _ _ _ _ c cp st).
Qed.

End LiveEpic.

(** ** The idle timers of a connection stream, counted *)

Section IdleCount.
Variable getSubsId : Value -> string.
Variable tr : Trace.

Local Abbreviation quietFor k i q :=
  (allBetween tr (fun e => negb (isSubscribeFor getSubsId k e)) i q).

(** What the race of a subscribe action delivers, in closed form. *)
Lemma idleRace_values cfg i payload st q :
  tr !! i = Some (Dispatch (subscribe payload), st) ->
  Rx.values (idleRace getSubsId tr cfg i payload q) =
  if Rx.due tr (subscriptionTTL cfg) i q
     && quietFor (getSubsId (subscriptionMsg payload)) i q
  then [unsubscribe payload] else [].
Proof.
  intros Hi. destruct (Rx.due tr (subscriptionTTL cfg) i q) eqn:Hdue; simpl.
  - destruct (quietFor _ i q) eqn:Hquiet.
    + rewrite (idleRace_timeout _ _ _ _ _ q) by done. by rewrite decide_True.
    + apply allBetween_first in Hquiet as (j & e & st' & Hj & _ & Hl & He).
      apply negb_false_iff in He.
      destruct e as [ |[?|?|?|?|?|p'|?|?|?|?|?]| | | | ]; try done.
      simpl in He. apply String.eqb_eq in He.
      apply (idleRace_reset getSubsId tr cfg i payload j p' st');
        [lia|done|done|].
      apply (due_clock_before tr _ i (subscribe payload) st q); [done|done|lia].
  - apply values_nil. intros a Ha%values_elem.
    apply idleRace_value in Ha as [_ Hd]. congruence.
Qed.

(** While [i] holds the most recent subscribe action for a key, the idle
    timers of a connection stream deliver an unsubscribe action for the key
    only at the expiry of the TTL since [i], and then exactly one. *)
Lemma unsubscribeOnTimeout_count c cfg i payload st q :
  tr !! i = Some (Dispatch (subscribe payload), st) ->
  i < q ->
  quietFor (getSubsId (subscriptionMsg payload)) i q = true ->
  unsubscribesFor getSubsId (getSubsId (subscriptionMsg payload))
    (Rx.values (unsubscribeOnTimeout getSubsId tr c cfg q))
  = if (c <? i) && Rx.due tr (subscriptionTTL cfg) i q
    then [unsubscribe payload] else [].
Proof.
  intros Hi Hiq Hquiet. unfold unsubscribesFor.
  rewrite unsubscribeOnTimeout_values, filter_bind.
  rewrite (bind_seq_single _ i).
  - replace (i <? S q) with true by (symmetry; apply Nat.ltb_lt; lia).
    destruct (Nat.ltb_spec c i) as [Hc|Hc]; simpl.
    + rewrite (subscriptions_at _ _ _ payload st) by done. simpl.
      rewrite app_nil_r, (idleRace_values _ _ _ st) by done. rewrite Hquiet, andb_true_r.
      destruct (Rx.due _ _ _ _); [|done]. simpl. by rewrite String.eqb_refl.
    + assert (subscriptions_ tr c i = []) as ->; [|done].
      apply elem_of_nil_inv. intros x (? & ? & _ & ? & _)%subscriptions_elem. lia.
  - intros p Hp. apply elem_of_nil_inv. intros a Ha.
    apply list_elem_of_In, filter_In in Ha as [Ha Hk].
    apply list_elem_of_In, list_elem_of_bind in Ha as (x & Ha & Hx).
    apply values_elem, subscriptions_elem in Hx as (pp & stp & [= ->] & Hcp & Hlp).
    simpl in Ha. rewrite (idleRace_values _ _ _ stp) in Ha by done.
    destruct (Rx.due tr (subscriptionTTL cfg) p q) eqn:Hdue; [|elem_inv Ha].
    destruct (quietFor _ p q) eqn:Hq; [|elem_inv Ha]. simpl in Ha. elem_inv Ha.
    simpl in Hk. apply String.eqb_eq in Hk.
    pose proof Hdue as (_ & Hpq & _)%due_spec.
    destruct (decide (i < p)) as [Hip|Hip].
    + pose proof (allBetween_spec tr _ _ _ Hquiet p _ _ ltac:(lia) Hlp) as Hb.
      simpl in Hb. rewrite Hk, String.eqb_refl in Hb. done.
    + pose proof (allBetween_spec tr _ _ _ Hq i _ _ ltac:(lia) Hi) as Hb.
      simpl in Hb. rewrite Hk, String.eqb_refl in Hb. done.
Qed.

End IdleCount.

(** C1 (as the code has it): every connection stream starts, for a
    subscribe action, a race between the next subscribe action with the same
    derived key and an unsubscribe action delayed by the [subscriptionTTL]
    of its connection.  If a matching subscribe action arrives strictly
    before the TTL has elapsed, the race delivers no action; if none arrives
    before the TTL expires, it delivers exactly the unsubscribe action for
    the same payload, at the expiry, and nothing at any other time.  As long
    as the action at [i] is the most recent subscribe action for its key, a
    connection stream subscribed before [i] delivers, from its idle timers,
    exactly one unsubscribe action for the key at the expiry of its TTL and
    none at any other instant, provided its connection has not been reported
    disconnected; once it has, the stream delivers nothing.  [connectEpic]
    delivers what the live connection streams deliver: for the key, one
    unsubscribe action of an idle timer per live connection stream whose
    TTL expires, next to those that the recovery timers of
    [unsubscribeOnNoResponse$] emit for the key at the same instant. *)
Theorem idle_unsubscribe_timer (getSubsId : Value -> string)
    (JSON_parse : Value -> Completion Value) (cacheEnv : nat -> CacheEnv)
    (tr : Trace) (i : nat) (payload : WSSubscriptionPayload) (st : State) :
  tr !! i = Some (Dispatch (subscribe payload), st) ->
  let k := getSubsId (subscriptionMsg payload) in
  let quiet q := allBetween tr (fun e => negb (isSubscribeFor getSubsId k e)) i q in
  let epic := connectEpic getSubsId JSON_parse cacheEnv tr in
  (forall cfg,
     let race := idleRace getSubsId tr cfg i payload in
     (forall j p' st',
        i < j -> tr !! j = Some (Dispatch (subscribe p'), st') ->
        getSubsId (subscriptionMsg p') = k ->
        clock tr j < clock tr i + subscriptionTTL cfg ->
        forall n, Rx.values (race n) = [])
     /\ (forall q,
           Rx.due tr (subscriptionTTL cfg) i q = true -> quiet q = true ->
           forall n, Rx.values (race n) =
                     if decide (n = q) then [unsubscribe payload] else []))
  /\ (forall c connectionKey cfg handler q,
        c < i -> i < q -> quiet q = true ->
        unsubscribesFor getSubsId k
          (Rx.values (ws getSubsId JSON_parse cacheEnv tr c connectionKey cfg handler q))
        = if allBetween tr (fun e => negb (isDisconnectedFor connectionKey e)) c (S q)
          then (if Rx.due tr (subscriptionTTL cfg) i q then [unsubscribe payload] else [])
               ++ unsubscribesFor getSubsId k
                    (Rx.values (unsubscribeOnNoResponse tr c connectionKey cfg handler q))
          else [])
  /\ (forall q,
        i < q -> quiet q = true ->
        unsubscribesFor getSubsId k (Rx.values (epic q))
        = liveConnections tr q ≫= fun x =>
            (if (x.1 <? i) && Rx.due tr (subscriptionTTL (config x.2)) i q
             then [unsubscribe payload] else [])
            ++ unsubscribesFor getSubsId k
                 (Rx.values (unsubscribeOnNoResponse tr x.1
                               (key (connectionInfo (config x.2))) (config x.2)
                               (wsHandler x.2) q)))
  /\ (forall c cp q,
        (c, cp) ∈ liveConnections tr q -> c < i ->
        Rx.due tr (subscriptionTTL (config cp)) i q = true -> quiet q = true ->
        unsubscribe payload ∈ Rx.values (epic q)).
Proof.
  intros Hi k quiet epic. unfold quiet, k, epic. clear k quiet epic. split_and!.
  - intros cfg. cbv zeta. split.
    + intros j p' st' ????. eapply idleRace_reset; [done..|lia].
    + intros q ??. by apply idleRace_timeout.
  - intros c connectionKey cfg handler q Hc Hq Hquiet. rewrite ws_unsubscribes.
    destruct (allBetween _ _ c (S q)); [|done].
    rewrite (unsubscribeOnTimeout_count _ _ _ _ i _ st) by done.
    by apply Nat.ltb_lt in Hc as ->.
  - intros q Hq Hquiet. rewrite connectEpic_unsubscribes.
    apply list_bind_ext; [|done]. intros [c cp]. simpl.
    by rewrite (unsubscribeOnTimeout_count _ _ _ _ i _ st).
  - intros c cp q Hlive Hc Hdue Hquiet.
    apply (connectEpic_delivers_live _ _ _ _ q c cp); [done|].
    pose proof Hdue as ([stq Hlq] & Hiq & _)%due_spec.
    rewrite (ws_values_tick _ _ _ _ _ _ _ _ _ stq) by done.
    apply liveConnections_elem in Hlive as (_ & _ & ->).
    apply elem_of_app. left.
    apply (unsubscribeOnTimeout_race _ _ _ _ i payload st); [done..|].
    rewrite (idleRace_timeout _ _ _ _ _ q) by done.
    rewrite decide_True by done. left.
Qed.

Lemma idle_unsubscribe_timer_witness :
  Scenario.idleRun !! 3 = Some (Dispatch (subscribe (Scenario.sub "A")), Scenario.state0)
  /\ unsubscribesFor Scenario.getSubsId "A"
       (Rx.values (connectEpic Scenario.getSubsId Scenario.JSON_parse Scenario.cacheOk
                     Scenario.idleRun 5))
     = [unsubscribe (Scenario.sub "A")].
Proof.
  split; [reflexivity|].
  destruct (idle_unsubscribe_timer Scenario.getSubsId Scenario.JSON_parse
              Scenario.cacheOk Scenario.idleRun 3 (Scenario.sub "A") Scenario.state0
              eq_refl) as (_ & _ & H & _).
  etrans; [exact (H 5 ltac:(lia) eq_refl)|]. vm_compute. reflexivity.
Defined.

(** C1, as stated, fails on the epic: when the connection is reported
    disconnected before the TTL has elapsed, no unsubscribe action is
    delivered at the expiry; and while two connections are open, the idle
    timer of each delivers one. *)
Lemma idle_unsubscribe_timer_counterexample :
  ~ unsubscribesOnceAtExpiry Scenario.getSubsId Scenario.JSON_parse Scenario.cacheOk
      Sessions.droppedIdleRun
  /\ ~ unsubscribesOnceAtExpiry Scenario.getSubsId Scenario.JSON_parse Scenario.cacheOk
         Sessions.twoConnectionsIdleRun.
Proof.
  split; intros H.
  - destruct (H 0 Scenario.connectPayload Scenario.state0 1 (Scenario.sub "A")
                Scenario.state0 4 eq_refl eq_refl eq_refl ltac:(lia) eq_refl eq_refl
                eq_refl eq_refl) as [a Ha].
    vm_compute in Ha. discriminate.
  - destruct (H 0 Scenario.connectPayload Scenario.state0 2 (Scenario.sub "A")
                Scenario.state0 4 eq_refl eq_refl eq_refl ltac:(lia) eq_refl eq_refl
                eq_refl eq_refl) as [a Ha].
    vm_compute in Ha. discriminate.
Qed.

(** ** The recovery timers of a connection stream, one by one *)

Section RecoveryCount.
Variable tr : Trace.
Variable connectionKey : string.
Variable cfg : WSConfig.
Variable handler : WSHandler.t.

Local Abbreviation silentFor k i q :=
  (allBetween tr (fun e => negb (isMessageFor k e)) i q).
Local Abbreviation recycled st k := (recyclePayload connectionKey handler st k).

(** What the race of a [messageReceived] action delivers, in closed form. *)
Lemma unresponsiveRace_values i p st q :
  tr !! i = Some (Dispatch (messageReceived p), st) ->
  Rx.values (unresponsiveRace tr connectionKey cfg handler i p st q) =
  if Rx.due tr (subscriptionUnresponsiveTTL cfg) i q
     && silentFor (subscriptionKey p) i q
  then [unsubscribe (recycled st (subscriptionKey p));
        subscribe (recycled st (subscriptionKey p))]
  else [].
Proof.
  intros Hi.
  destruct (Rx.due tr (subscriptionUnresponsiveTTL cfg) i q) eqn:Hdue; simpl.
  - destruct (silentFor _ i q) eqn:Hquiet.
    + rewrite (unresponsiveRace_timeout _ _ _ _ _ _ _ q) by done.
      by rewrite decide_True.
    + apply allBetween_first in Hquiet as (j & e & st' & Hj & _ & Hl & He).
      apply negb_false_iff in He.
      destruct e as [ |[?|?|?|?|?|?|?|?|?|p'|?]| | | | ]; try done.
      simpl in He. apply String.eqb_eq in He.
      apply (unresponsiveRace_reset tr connectionKey cfg handler i p st j p' st');
        [lia|done|done|].
      apply (due_clock_before tr _ i (messageReceived p) st q); [done|done|lia].
  - apply values_nil. intros a Ha%values_elem.
    apply unresponsiveRace_value in Ha. congruence.
Qed.

(** The contribution of the position [i'] to what [unsubscribeOnNoResponse$]
    delivers at [q]. *)
Local Abbreviation recoveryOf c i' q :=
  (x ← Rx.values (Rx.withLatestFrom tr (message_ tr c) i'%nat);
   Rx.values (match Match.messageReceived x.1 with
              | Some mp => unresponsiveRace tr connectionKey cfg handler i' mp x.2
              | None => fun _ => []
              end q)).

Lemma recoveryOf_at c i p st q :
  tr !! i = Some (Dispatch (messageReceived p), st) ->
  recoveryOf c i q =
  if c <? i
  then Rx.values (unresponsiveRace tr connectionKey cfg handler i p st q)
  else [].
Proof.
  intros Hi. destruct (Nat.ltb_spec c i) as [Hc|Hc].
  - rewrite (withLatestFrom_at _ _ _ _ st (messageReceived p) Hi)
      by (by apply message_at with st).
    simpl. by rewrite app_nil_r.
  - assert (message_ tr c i = []) as Hm.
    { apply elem_of_nil_inv. intros x (? & ? & _ & ? & _)%message_elem. lia. }
    unfold Rx.withLatestFrom, Rx.map. rewrite Hi, Hm. done.
Qed.

(** A recovery that is not the one of the most recent message for the key
    [k] is the recovery of a message for another key. *)
Lemma recoveryOf_other c i p st q i' a :
  tr !! i = Some (Dispatch (messageReceived p), st) ->
  i < q ->
  silentFor (subscriptionKey p) i q = true ->
  i' <> i ->
  a ∈ recoveryOf c i' q ->
  exists p' st',
    subscriptionKey p' <> subscriptionKey p
    /\ tr !! i' = Some (Dispatch (messageReceived p'), st')
    /\ (a = unsubscribe (recycled st' (subscriptionKey p'))
        \/ a = subscribe (recycled st' (subscriptionKey p'))).
Proof.
  intros Hi Hiq Hquiet Hne Ha.
  apply list_elem_of_bind in Ha as ([a0 st'] & Ha & Hx).
  apply values_elem, withLatestFrom_next in Hx as [Hx [e0 Hst]].
  apply message_elem in Hx as (p' & st0 & [= ->] & Hc & Hi').
  rewrite Hi' in Hst. injection Hst as _ <-. simpl in Ha.
  rewrite (unresponsiveRace_values _ _ st0) in Ha by done.
  destruct (Rx.due tr (subscriptionUnresponsiveTTL cfg) i' q) eqn:Hdue;
    [|elem_inv Ha].
  destruct (silentFor (subscriptionKey p') i' q) eqn:Hq; [|elem_inv Ha].
  simpl in Ha. exists p', st0. split; [|split; [done|]].
  - intros Hk. pose proof Hdue as (_ & Hpq & _)%due_spec.
    destruct (decide (i < i')) as [Hii|Hii].
    + pose proof (allBetween_spec tr _ _ _ Hquiet i' _ _ ltac:(lia) Hi') as Hb.
      simpl in Hb. rewrite Hk, String.eqb_refl in Hb. done.
    + pose proof (allBetween_spec tr _ _ _ Hq i _ _ ltac:(lia) Hi) as Hb.
      simpl in Hb. rewrite Hk, String.eqb_refl in Hb. done.
  - elem_inv Ha; auto.
Qed.

Lemma seq_split i q : i < q -> seq 0 (S q) = seq 0 i ++ i :: seq (S i) (q - i).
Proof.
  intros Hiq. replace (S q) with (i + S (q - i)) by lia.
  by rewrite seq_app.
Qed.

(** While [i] holds the most recent message for a key, the recovery timers
    of a connection stream deliver for it the pair of its recovery at the
    expiry of the unresponsive TTL since [i], once, and at no other
    instant; whatever surrounds the pair is the recovery of messages for
    other keys. *)
Lemma unsubscribeOnNoResponse_split c i p st q :
  tr !! i = Some (Dispatch (messageReceived p), st) ->
  i < q ->
  silentFor (subscriptionKey p) i q = true ->
  exists before after,
    Rx.values (unsubscribeOnNoResponse tr c connectionKey cfg handler q)
    = before
      ++ (if (c <? i) && Rx.due tr (subscriptionUnresponsiveTTL cfg) i q
          then [unsubscribe (recycled st (subscriptionKey p));
                subscribe (recycled st (subscriptionKey p))]
          else [])
      ++ after
    /\ Forall
         (fun a =>
            exists i' p' st',
              subscriptionKey p' <> subscriptionKey p
              /\ tr !! i' = Some (Dispatch (messageReceived p'), st')
              /\ (a = unsubscribe (recycled st' (subscriptionKey p'))
                  \/ a = subscribe (recycled st' (subscriptionKey p'))))
         (before ++ after).
Proof.
  intros Hi Hiq Hquiet.
  exists (seq 0 i ≫= fun i' => recoveryOf c i' q),
         (seq (S i) (q - i) ≫= fun i' => recoveryOf c i' q).
  split.
  - rewrite unsubscribeOnNoResponse_values, (seq_split i q) by done.
    rewrite bind_app. f_equal.
    change ((i :: seq (S i) (q - i)) ≫= fun i' => recoveryOf c i' q)
      with (recoveryOf c i q ++ (seq (S i) (q - i) ≫= fun i' => recoveryOf c i' q)).
    f_equal. rewrite (recoveryOf_at c i p st q Hi).
    destruct (c <? i); [|done]. simpl.
    rewrite (unresponsiveRace_values _ _ st) by done. by rewrite Hquiet, andb_true_r.
  - apply Forall_forall. intros a [Ha|Ha]%elem_of_app;
      apply list_elem_of_bind in Ha as (i' & Ha & Hi'%elem_of_seq);
      (destruct (recoveryOf_other c i p st q i' a) as (p' & st' & ?);
       [done|done|done|lia|done|by exists i', p', st']).
Qed.

End RecoveryCount.

(** C2 (as the code has it): every connection stream starts, for a
    [messageReceived] action, a race between the next [messageReceived]
    action for the same subscription key and a pair of actions delayed by
    the [subscriptionUnresponsiveTTL] of its connection.  If a message for
    the key arrives before the TTL has elapsed, the race delivers nothing.
    Otherwise it delivers, once, at the expiry, an unsubscribe action
    immediately followed by a subscribe action with one payload: the input
    that the state held for the key when the message arrived, the
    subscription message that the handler builds from it, and the key and
    url of the connection of the stream.  As long as the action at [i] is
    the most recent message for its key, the recovery timers of a connection
    stream subscribed before [i] deliver this pair at the expiry of its TTL,
    once, and at no other instant; what they deliver besides belongs to
    messages for other keys.  When a millisecond elapses, [connectEpic]
    delivers what the timers of the live connection streams deliver, so the
    pair of every live connection stream whose TTL expires; a stream whose
    connection has been reported disconnected delivers nothing. *)
Theorem unresponsive_recovery_timer (getSubsId : Value -> string)
    (JSON_parse : Value -> Completion Value) (cacheEnv : nat -> CacheEnv)
    (tr : Trace) (i : nat) (p : WSMessagePayload) (st : State) :
  tr !! i = Some (Dispatch (messageReceived p), st) ->
  let k := subscriptionKey p in
  let silent q := allBetween tr (fun e => negb (isMessageFor k e)) i q in
  let epic := connectEpic getSubsId JSON_parse cacheEnv tr in
  (forall connectionKey cfg handler,
     let race := unresponsiveRace tr connectionKey cfg handler i p st in
     let action := recyclePayload connectionKey handler st k in
     (forall j p' st',
        i < j -> tr !! j = Some (Dispatch (messageReceived p'), st') ->
        subscriptionKey p' = k ->
        clock tr j < clock tr i + subscriptionUnresponsiveTTL cfg ->
        forall n, Rx.values (race n) = [])
     /\ (forall q,
           Rx.due tr (subscriptionUnresponsiveTTL cfg) i q = true ->
           silent q = true ->
           forall n, Rx.values (race n) =
                     if decide (n = q) then [unsubscribe action; subscribe action]
                     else [])
     /\ input action = inputOf st k
     /\ subscriptionMsg action = WSHandler.subscribe handler (inputOf st k)
     /\ sp_connectionInfo action
        = {| key := connectionKey; url := WSHandler.url handler |})
  /\ (forall c connectionKey cfg handler q,
        c < i -> i < q -> silent q = true ->
        let action := recyclePayload connectionKey handler st k in
        exists before after,
          Rx.values (unsubscribeOnNoResponse tr c connectionKey cfg handler q)
          = before
            ++ (if Rx.due tr (subscriptionUnresponsiveTTL cfg) i q
                then [unsubscribe action; subscribe action] else [])
            ++ after
          /\ Forall
               (fun a =>
                  exists i' p' st',
                    subscriptionKey p' <> k
                    /\ tr !! i' = Some (Dispatch (messageReceived p'), st')
                    /\ (a = unsubscribe
                              (recyclePayload connectionKey handler st'
                                 (subscriptionKey p'))
                        \/ a = subscribe
                                 (recyclePayload connectionKey handler st'
                                    (subscriptionKey p'))))
               (before ++ after))
  /\ (forall q stq,
        tr !! q = Some (Tick, stq) ->
        Rx.values (epic q)
        = liveConnections tr q ≫= fun x =>
            Rx.values (unsubscribeOnTimeout getSubsId tr x.1 (config x.2) q)
            ++ Rx.values (unsubscribeOnNoResponse tr x.1
                            (key (connectionInfo (config x.2))) (config x.2)
                            (wsHandler x.2) q))
  /\ (forall c cp q,
        (c, cp) ∈ liveConnections tr q -> c < i ->
        Rx.due tr (subscriptionUnresponsiveTTL (config cp)) i q = true ->
        silent q = true ->
        let action :=
          recyclePayload (key (connectionInfo (config cp))) (wsHandler cp) st k in
        exists before after,
          Rx.values (epic q)
          = before ++ unsubscribe action :: subscribe action :: after)
  /\ (forall c connectionKey cfg handler q,
        allBetween tr (fun e => negb (isDisconnectedFor connectionKey e)) c (S q)
        = false ->
        Rx.values (ws getSubsId JSON_parse cacheEnv tr c connectionKey cfg handler q)
        = []).
Proof.
  intros Hi k silent epic. unfold silent, k, epic. clear k silent epic. split_and!.
  - intros connectionKey cfg handler. cbv zeta. split_and!.
    + intros j p' st' ????. eapply unresponsiveRace_reset; [done..|lia].
    + intros q ??. by apply unresponsiveRace_timeout.
    + reflexivity.
    + reflexivity.
    + reflexivity.
  - intros c connectionKey cfg handler q Hc Hq Hsilent. cbv zeta.
    destruct (unsubscribeOnNoResponse_split tr connectionKey cfg handler c i p st q)
      as (before & after & Hv & Hother); [done..|].
    exists before, after. split; [|exact Hother].
    rewrite Hv. apply Nat.ltb_lt in Hc. rewrite Hc. reflexivity.
  - intros q stq Hq. by apply connectEpic_tick with stq.
  - intros c cp q Hlive Hc Hdue Hsilent. cbv zeta.
    pose proof Hdue as ([stq Hlq] & Hiq & _)%due_spec.
    rewrite (connectEpic_tick _ _ _ _ _ stq) by done.
    apply list_elem_of_split in Hlive as (l1 & l2 & ->).
    rewrite bind_app.
    destruct (unsubscribeOnNoResponse_split tr (key (connectionInfo (config cp)))
                (config cp) (wsHandler cp) c i p st q)
      as (before & after & Hv & _); [done..|].
    apply Nat.ltb_lt in Hc. rewrite Hc, Hdue in Hv. cbn [andb] in Hv.
    rewrite bind_cons. cbn [fst snd]. rewrite Hv.
    match goal with
    | |- exists _ _, ?L1 ++ (?T ++ _) ++ ?L2 = _ =>
        exists (L1 ++ T ++ before), (after ++ L2)
    end.
    rewrite <- !app_assoc. reflexivity.
  - intros c connectionKey cfg handler q Hdead.
    rewrite ws_values_live. by rewrite Hdead.
Qed.

Lemma unresponsive_recovery_timer_witness :
  Sessions.silentRun !! 1
    = Some (Dispatch (messageReceived (Scenario.received "A" 5)),
            Sessions.stateSubscribed)
  /\ Rx.values (connectEpic Scenario.getSubsId Scenario.JSON_parse Scenario.cacheOk
                  Sessions.silentRun 4)
     = [unsubscribe {| sp_connectionInfo := {| key := "K"; url := "wss://provider" |};
                       subscriptionMsg := VObj [("id", VStr "A")];
                       input := Sessions.inputA |};
        subscribe {| sp_connectionInfo := {| key := "K"; url := "wss://provider" |};
                     subscriptionMsg := VObj [("id", VStr "A")];
                     input := Sessions.inputA |}].
Proof.
  split; [reflexivity|].
  destruct (unresponsive_recovery_timer Scenario.getSubsId Scenario.JSON_parse
              Scenario.cacheOk Sessions.silentRun 1 (Scenario.received "A" 5)
              Sessions.stateSubscribed eq_refl) as (_ & _ & H & _).
  etrans; [exact (H 4 Sessions.stateSubscribed eq_refl)|]. vm_compute. reflexivity.
Defined.

(** C2, as stated, fails on the epic: when the connection is reported
    disconnected before the unresponsive TTL has elapsed, nothing is
    delivered at the expiry; and while two connections are open, each
    delivers its own pair for the same input. *)
Lemma unresponsive_recovery_timer_counterexample :
  ~ recoversOncePerSilence Scenario.getSubsId Scenario.JSON_parse Scenario.cacheOk
      Sessions.droppedSilentRun
  /\ ~ recoversOncePerSilence Scenario.getSubsId Scenario.JSON_parse Scenario.cacheOk
         Sessions.twoConnectionsSilentRun.
Proof.
  split; intros H.
  - destruct (H 0 Scenario.connectPayload Scenario.state0 1 (Scenario.received "A" 5)
                Sessions.stateSubscribed 5 eq_refl eq_refl eq_refl ltac:(lia) eq_refl
                eq_refl eq_refl eq_refl) as (action & before & after & _ & Hv & _).
    assert (Rx.values (connectEpic Scenario.getSubsId Scenario.JSON_parse
                         Scenario.cacheOk Sessions.droppedSilentRun 5) = []) as E
      by (vm_compute; reflexivity).
    rewrite E in Hv. by destruct before.
  - destruct (H 0 Scenario.connectPayload Scenario.state0 2 (Scenario.received "A" 5)
                Sessions.stateSubscribed 5 eq_refl eq_refl eq_refl ltac:(lia) eq_refl
                eq_refl eq_refl eq_refl) as (action & before & after & Hin & Hv & Hno).
    assert (Rx.values (connectEpic Scenario.getSubsId Scenario.JSON_parse
                         Scenario.cacheOk Sessions.twoConnectionsSilentRun 5)
            = [unsubscribe (recyclePayload "K" Scenario.handler
                              Sessions.stateSubscribed "A");
               subscribe (recyclePayload "K" Scenario.handler
                            Sessions.stateSubscribed "A");
               unsubscribe (recyclePayload "L" Scenario.handler
                              Sessions.stateSubscribed "A");
               subscribe (recyclePayload "L" Scenario.handler
                            Sessions.stateSubscribed "A")]) as E
      by (vm_compute; reflexivity).
    rewrite E in Hv. clear E.
    destruct before as [|b1 [|b2 [|b3 [|b4 before]]]];
      injection Hv as ?; subst; try discriminate.
    + apply (Hno (recyclePayload "L" Scenario.handler Sessions.stateSubscribed "A"));
        [|reflexivity].
      apply elem_of_app. right. right. left.
    + apply (Hno (recyclePayload "K" Scenario.handler Sessions.stateSubscribed "A"));
        [|reflexivity].
      apply elem_of_app. left. right. left.
    + by destruct before.
Qed.

(** ** The cache writers, counted *)

Lemma cacheWrites_bind {A} (l : list A) (f : A -> list Effect) :
  cacheWrites (l ≫= f) = l ≫= fun x => cacheWrites (f x).
Proof.
  induction l as [|x l IH]; [done|].
  change ((x :: l) ≫= f) with (f x ++ (l ≫= f)).
  unfold cacheWrites in *. by rewrite omap_app, IH.
Qed.

Section CacheCount.
Variable getSubsId : Value -> string.
Variable JSON_parse : Value -> Completion Value.
Variable cacheEnv : nat -> CacheEnv.
Variable tr : Trace.

Section OneStream.
Variable c : nat.
Variable connectionKey : string.
Variable cfg : WSConfig.
Variable handler : WSHandler.t.

(** The [mergeMap] of [withCache$] never fails: the callback catches what
    is thrown. *)
Lemma cacheMergeMap_open n :
  Rx.closedBefore
    (Rx.mergeMap (fun n x => promise n (runCacheWriter cacheEnv handler n x))
       (cacheRequests tr c handler)) n = false.
Proof.
  apply closedBefore_false. intros m Hm. apply existsb_terminal_false.
  intros y [(q & [a st] & _ & Ha & Hy & Hc)|(e & -> & He)]%mergeMap_elem.
  - unfold promise, runCacheWriter in Hy.
    apply cacheRequests_next in Ha as (p & -> & _). simpl in Hy.
    rewrite cacheWriter_outcome in Hy.
    apply of_elem in Hy as (_ & [(? & -> & _)|?]); done.
  - pose proof (cacheRequests_noTerminal tr c handler m) as Hf.
    rewrite existsb_terminal_false in Hf. by apply Hf in He.
Qed.

(** For a [messageReceived] action, the cache writer of a connection stream
    runs once when the stream was subscribed before, its connection has not
    been reported disconnected and the filter of its handler accepts the
    message, and not at all otherwise. *)
Lemma cacheEffects_live n p st :
  tr !! n = Some (Dispatch (messageReceived p), st) ->
  cacheEffects getSubsId JSON_parse cacheEnv tr c connectionKey cfg handler n =
  if (c <? n)
     && allBetween tr (fun e => negb (isDisconnectedFor connectionKey e)) c n
     && WSHandler.filter handler (message p)
  then effects (cacheWriter handler (cacheEnv n) (messageReceived p) p st)
  else [].
Proof.
  intros Hl. unfold cacheEffects.
  rewrite ws_closedBefore, cacheMergeMap_open, orb_false_r.
  destruct (allBetween tr _ c n); simpl; [|by rewrite andb_false_r].
  rewrite andb_true_r.
  destruct ((c <? n) && WSHandler.filter handler (message p)) eqn:Hok.
  - apply andb_true_iff in Hok as [Hc%Nat.ltb_lt Hf].
    rewrite (cacheRequests_at _ _ _ n p st) by done. simpl. by rewrite app_nil_r.
  - assert (Rx.values (cacheRequests tr c handler n) = []) as ->; [|done].
    apply values_nil. intros [a st'] (p' & -> & Hc & Hl' & Hf)%cacheRequests_next.
    rewrite Hl in Hl'. simplify_eq.
    apply Nat.ltb_lt in Hc. by rewrite Hc, Hf in Hok.
Qed.

End OneStream.

(** [connectEpic] never completes or fails. *)
Lemma connectEpic_open n :
  Rx.closedBefore (connectEpic getSubsId JSON_parse cacheEnv tr) n = false.
Proof.
  apply closedBefore_false. intros m Hm. apply existsb_terminal_false.
  by intros y (? & ? & ? & ? & -> & _)%connectEpic_elem.
Qed.

(** For a [messageReceived] action, the cache writers that run are those of
    the live connections whose handler accepts the message, each once. *)
Lemma connectionEffects_at n p st :
  tr !! n = Some (Dispatch (messageReceived p), st) ->
  connectionEffects getSubsId JSON_parse cacheEnv tr n =
  liveConnections tr n ≫= fun x =>
    if WSHandler.filter (wsHandler x.2) (message p)
    then effects (cacheWriter (wsHandler x.2) (cacheEnv n) (messageReceived p) p st)
    else [].
Proof.
  intros Hl. unfold connectionEffects. rewrite connectEpic_open.
  rewrite (liveConnections_bind tr
             (fun c cp =>
                if WSHandler.filter (wsHandler cp) (message p)
                then effects (cacheWriter (wsHandler cp) (cacheEnv n)
                                (messageReceived p) p st)
                else [])).
  apply Forall_bind_ext, Forall_forall. intros c Hc%elem_of_seq.
  apply Forall_bind_ext, Forall_forall. intros [[cp ck] stc] Hx.
  apply values_elem, connectRequests_next in Hx as (Hlc & -> & _). simpl.
  assert (c < n) as Hcn.
  { destruct (decide (c = n)) as [->|]; [congruence|lia]. }
  rewrite (cacheEffects_live _ _ _ _ n p st) by done.
  rewrite allBetween_S, Hl by done. simpl. rewrite andb_true_r.
  apply Nat.ltb_lt in Hcn as ->. simpl.
  by destruct (allBetween tr _ c n).
Qed.

End CacheCount.

(** C6 (as the code has it): for a [messageReceived] action, the cache
    writer of a connection stream runs once when the stream was subscribed
    before, its connection has not been reported disconnected and the
    filter of its handler accepts the message, and not at all otherwise.  A
    run attempts at most one cache write, without retry: one when
    [toResponse] returns a truthy response and [withCache] succeeds, none
    when [toResponse] throws or returns a falsy response or [withCache]
    fails.  The request written is the input that the state holds for the
    subscription key (the empty object when it holds none) with
    [data.maxAge] set to [-1].  The writes of the epic are those of the
    live connection streams whose handler accepts the message, one stream
    after the other. *)
Theorem cache_write_per_message (getSubsId : Value -> string)
    (JSON_parse : Value -> Completion Value) (cacheEnv : nat -> CacheEnv)
    (tr : Trace) (n : nat) (p : WSMessagePayload) (st : State) :
  tr !! n = Some (Dispatch (messageReceived p), st) ->
  let input := inputOf st (subscriptionKey p) in
  let attempt handler :=
    match WSHandler.toResponse handler (message p), withCacheResult (cacheEnv n) with
    | Normal response, Normal _ => if truthy response then [wsResponseOf input] else []
    | _, _ => []
    end in
  (forall c connectionKey cfg handler,
     cacheWrites
       (cacheEffects getSubsId JSON_parse cacheEnv tr c connectionKey cfg handler n)
     = if (c <? n)
          && allBetween tr (fun e => negb (isDisconnectedFor connectionKey e)) c n
          && WSHandler.filter handler (message p)
       then attempt handler else [])
  /\ cacheWrites (connectionEffects getSubsId JSON_parse cacheEnv tr n)
     = (liveConnections tr n ≫= fun x =>
          if WSHandler.filter (wsHandler x.2) (message p)
          then attempt (wsHandler x.2) else [])
  /\ (forall handler, length (attempt handler) <= 1)
  /\ prop "maxAge" (prop "data" (wsResponseOf input)) = VNum (-1)
  /\ (forall k, k <> "data" -> k <> "debug" ->
        prop k (wsResponseOf input) = default VUndefined (assoc k (spread input)))
  /\ (forall s, subscriptions st !! subscriptionKey p = Some s ->
                truthy (sub_input s) = true -> input = sub_input s)
  /\ (subscriptions st !! subscriptionKey p = None -> input = VObj []).
Proof.
  intros Hl input attempt. unfold attempt, input. clear attempt input. split_and!.
  - intros c connectionKey cfg handler.
    rewrite (cacheEffects_live _ _ _ _ _ _ _ _ n p st) by done.
    destruct (_ && _); [|done]. apply cacheWrites_effects.
  - rewrite (connectionEffects_at _ _ _ _ n p st) by done. rewrite cacheWrites_bind.
    apply list_bind_ext; [|done]. intros [c cp]. cbn [fst snd].
    destruct (WSHandler.filter _ _); [|done]. apply cacheWrites_effects.
  - intros handler. destruct (WSHandler.toResponse handler (message p)); [|simpl; lia].
    destruct (withCacheResult (cacheEnv n)); [|simpl; lia].
    destruct (truthy a); simpl; lia.
  - apply wsResponseOf_props.
  - apply wsResponseOf_props.
  - intros s Hs Ht. unfold inputOf, orElse. by rewrite Hs, Ht.
  - apply inputOf_miss.
Qed.

Lemma cache_write_per_message_witness :
  Sessions.cachedRun !! 1
    = Some (Dispatch (messageReceived (Scenario.received "A" 5)),
            Sessions.stateSubscribed)
  /\ cacheWrites (connectionEffects Scenario.getSubsId Scenario.JSON_parse
                    Scenario.cacheOk Sessions.cachedRun 1)
     = [VObj [("sym", VStr "A");
              ("data", VObj [("base", VStr "A"); ("maxAge", VNum (-1))]);
              ("debug", VObj [("ws", VBool true)])]].
Proof.
  split; [reflexivity|].
  destruct (cache_write_per_message Scenario.getSubsId Scenario.JSON_parse
              Scenario.cacheOk Sessions.cachedRun 1 (Scenario.received "A" 5)
              Sessions.stateSubscribed eq_refl) as (_ & H & _).
  etrans; [exact H|]. vm_compute. reflexivity.
Defined.

(** C6, as stated, fails: a message that the filter accepts but from which
    [toResponse] derives a falsy response leads to no cache write; and while
    two connections are open, the cache writer of each writes once. *)
Lemma cache_write_per_message_counterexample :
  ~ writesOncePerMessage Scenario.getSubsId Scenario.JSON_parse Scenario.cacheOk
      Scenario.emptyResponseRun
  /\ ~ writesOncePerMessage Scenario.getSubsId Scenario.JSON_parse Scenario.cacheOk
         Sessions.twoConnectionsMessageRun.
Proof.
  split; intros H.
  - destruct (H 0 Scenario.connectPayload Scenario.state0 1 (Scenario.received "A" 0)
                Scenario.state0 eq_refl eq_refl eq_refl ltac:(lia) eq_refl eq_refl
                eq_refl) as [request Hr].
    vm_compute in Hr. discriminate.
  - destruct (H 0 Scenario.connectPayload Scenario.state0 2 (Scenario.received "A" 5)
                Sessions.stateSubscribed eq_refl eq_refl eq_refl ltac:(lia) eq_refl
                eq_refl eq_refl) as [request Hr].
    vm_compute in Hr. discriminate.
Qed.

(** ** The connection guard *)

Section StoreTracks.
Variable tr : Trace.
Variable k : string.

Local Abbreviation untouched :=
  {| trackedActive := false; trackedConnecting := 0%Z |}.
(** What the reducer has made of the key before it handles the event at
    position [n]. *)
Local Abbreviation trackedBefore n :=
  (foldl (track k) untouched (fst <$> take n tr)).

Lemma trackedAt_step n e st :
  tr !! n = Some (e, st) ->
  trackedAt tr k n = track k (trackedBefore n) e.
Proof.
  intros Hl. unfold trackedAt.
  by rewrite (take_S_r _ _ _ Hl), fmap_app, foldl_app.
Qed.

Lemma track_nonneg t e :
  (0 <= trackedConnecting t)%Z -> (0 <= trackedConnecting (track k t e))%Z.
Proof.
  intros Ht. destruct e as [ |[]| | | | ]; simpl; try done;
    destruct (String.eqb _ k); simpl; lia.
Qed.

Lemma trackedBefore_nonneg n : (0 <= trackedConnecting (trackedBefore n))%Z.
Proof.
  assert (forall l t, (0 <= trackedConnecting t)%Z ->
                      (0 <= trackedConnecting (foldl (track k) t l))%Z) as H.
  { induction l as [|e l IH]; [done|]. intros t Ht. simpl.
    by apply IH, track_nonneg. }
  by apply H.
Qed.

(** A connection that has been requested and not reported disconnected
    since is tracked as active or as being connected. *)
Lemma tracked_busy c cp st n :
  tr !! c = Some (Dispatch (connect cp), st) ->
  key (connectionInfo (config cp)) = k ->
  c <= n -> n < length tr ->
  allBetween tr (fun e => negb (isDisconnectedFor k e)) c (S n) = true ->
  trackedActive (trackedAt tr k n) = true
  \/ (1 <= trackedConnecting (trackedAt tr k n))%Z.
Proof.
  intros Hc Hk Hcn. induction Hcn as [|n Hcn IH]; intros Hn Hconn.
  - rewrite (trackedAt_step c _ st Hc). simpl. rewrite Hk, String.eqb_refl. simpl.
    pose proof (trackedBefore_nonneg c). right. lia.
  - destruct (lookup_lt_is_Some_2 tr (S n) Hn) as [[e stn] Hl].
    rewrite (trackedAt_step (S n) e stn Hl).
    change (trackedBefore (S n)) with (trackedAt tr k n).
    assert (n < length tr) as Hn' by lia.
    pose proof (allBetween_shorter tr _ c (S (S n)) (S n) ltac:(lia) Hconn) as Hconn'.
    specialize (IH Hn' Hconn').
    pose proof (allBetween_spec tr _ c (S (S n)) Hconn (S n) e stn ltac:(lia) Hl) as He.
    apply negb_true_iff in He.
    assert (0 <= trackedConnecting (trackedAt tr k n))%Z
      by apply (trackedBefore_nonneg (S n)).
    destruct e as [ |[]| | | | ]; simpl; try done; simpl in He;
      try (rewrite He; done); destruct (String.eqb _ k); simpl; try done; auto.
    right. lia.
Qed.

(** While it is, a further request for it is tracked as one attempt too
    many, unless the connection is tracked as active. *)
Lemma tracked_again c cp st c' cp' st' :
  tr !! c = Some (Dispatch (connect cp), st) ->
  key (connectionInfo (config cp)) = k ->
  c < c' ->
  tr !! c' = Some (Dispatch (connect cp'), st') ->
  key (connectionInfo (config cp')) = k ->
  allBetween tr (fun e => negb (isDisconnectedFor k e)) c c' = true ->
  trackedActive (trackedAt tr k c') = true
  \/ (2 <= trackedConnecting (trackedAt tr k c'))%Z.
Proof.
  intros Hc Hk Hcc Hc' Hk' Hconn.
  rewrite (trackedAt_step c' _ st' Hc'). simpl. rewrite Hk', String.eqb_refl. simpl.
  destruct c' as [|n]; [lia|].
  change (trackedBefore (S n)) with (trackedAt tr k n).
  destruct (tracked_busy c cp st n) as [?|?]; [done|done|lia| |done|by left|right; lia].
  apply lookup_lt_Some in Hc'. lia.
Qed.

End StoreTracks.

Lemma storeTracksConnections_spec (tr : Trace) n cp st :
  storeTracksConnections tr = true ->
  tr !! n = Some (Dispatch (connect cp), st) ->
  isActiveConnection st (key (connectionInfo (config cp)))
  = trackedActive (trackedAt tr (key (connectionInfo (config cp))) n)
  /\ (trackedActive (trackedAt tr (key (connectionInfo (config cp))) n) = false ->
      default 0%Z (connecting (connections st) !! key (connectionInfo (config cp)))
      = trackedConnecting (trackedAt tr (key (connectionInfo (config cp))) n)).
Proof.
  unfold storeTracksConnections. rewrite forallb_forall. intros H Hl.
  specialize (H n). rewrite Hl in H.
  assert (In n (seq 0 (length tr))) as Hn.
  { apply in_seq. apply lookup_lt_Some in Hl. lia. }
  apply H, andb_true_iff in Hn as [Ha Hb].
  split; [by apply Bool.eqb_prop|].
  intros Hf. rewrite Hf in Hb. by apply Z.eqb_eq.
Qed.

Section Guard.
Variable getSubsId : Value -> string.
Variable JSON_parse : Value -> Completion Value.
Variable cacheEnv : nat -> CacheEnv.
Variable tr : Trace.

Local Abbreviation epic := (connectEpic getSubsId JSON_parse cacheEnv tr).
Local Abbreviation opened := (openConnections getSubsId JSON_parse cacheEnv tr).

(** What the guard reads in the state. *)
Lemma guard_reads st k :
  isActiveConnection st k = false /\ isConnecting st k = false <->
  default false (active (connections st) !! k) = false
  /\ forall z, connecting (connections st) !! k = Some z -> (z <= 1)%Z.
Proof.
  unfold isActiveConnection, isConnecting.
  destruct (connecting (connections st) !! k) as [z|].
  - split.
    + intros [Ha Hz%Z.ltb_ge]. split; [done|]. by intros ? [= <-].
    + intros [Ha Hz]. split; [done|]. apply Z.ltb_ge. by apply Hz.
  - split; intros [Ha _]; split; done.
Qed.

(** A connection stream is open from the [connect] action that it was
    subscribed for, if the guard accepted it. *)
Lemma opened_at c cp st :
  tr !! c = Some (Dispatch (connect cp), st) ->
  (c, key (connectionInfo (config cp))) ∈ opened c <->
  isActiveConnection st (key (connectionInfo (config cp))) = false
  /\ isConnecting st (key (connectionInfo (config cp))) = false.
Proof.
  intros Hl. rewrite openConnections_elem. split.
  - intros (_ & cp' & st' & (Hl' & _ & ? & ?)%connectRequests_next & _).
    rewrite Hl in Hl'. by simplify_eq.
  - intros [Ha Hb]. split; [done|]. exists cp, st. split.
    + by apply connectRequests_next.
    + rewrite ws_closedBefore. by rewrite allBetween_empty by lia.
Qed.

Lemma opened_elem n c k :
  (c, k) ∈ opened n <->
  exists cp, (c, cp) ∈ liveConnections tr n /\ k = key (connectionInfo (config cp)).
Proof.
  rewrite openConnections_elem. split.
  - intros (Hc & cp & st & Hr & Hopen). exists cp.
    pose proof Hr as (Hl & -> & Ha & Hb)%connectRequests_next. split; [|done].
    apply liveConnections_elem. split; [done|]. split; [by exists st|].
    rewrite ws_closedBefore in Hopen. by apply negb_false_iff in Hopen.
  - intros (cp & (Hc & (st & Hl & Ha & Hb) & Hlive)%liveConnections_elem & ->).
    split; [done|]. exists cp, st. split; [by apply connectRequests_next|].
    rewrite ws_closedBefore. by rewrite Hlive.
Qed.

(** A connection stream answers the events of its own socket only. *)
Lemma ws_own_socket c connectionKey cfg handler n a e st sock :
  Next a ∈ ws getSubsId JSON_parse cacheEnv tr c connectionKey cfg handler n ->
  tr !! n = Some (e, st) -> socketOf e = Some sock -> sock = c.
Proof.
  unfold ws. intros [[Ha _]|[[=] _]]%takeUntil_elem Hl Hs.
  apply merge_elem in Ha as (o & Ho & Ha & _). elem_inv Ho.
  - apply map_next in Ha as (? & -> & (_ & st' & Hl')%openObserver_elem).
    rewrite Hl in Hl'. by simplify_eq/=.
  - apply map_next in Ha as (? & -> & (_ & st' & Hl')%closeObserver_elem).
    rewrite Hl in Hl'. by simplify_eq/=.
  - rewrite disconnect_silent in Ha. elem_inv Ha.
  - apply multiplexSubscriptions_elem in Ha
      as (_ & [(? & ? & ? & Hl' & _)|[(? & ? & Hl' & _)|(e' & ? & ? & k & Hl' & He & _)]]);
      rewrite Hl in Hl'; simplify_eq/=; [done|done|].
    apply notifiesEnd_inv in He as [[? ->]|(? & -> & _)]; done.
  - apply unsubscribe_elem in Ha as [_ [st' Hl']]. rewrite Hl in Hl'. by simplify_eq/=.
  - rewrite withCache_silent in Ha. elem_inv Ha.
Qed.

(** No socket exists for a [connect] action that the guard refused:
    whatever carries its name, the epic does not answer. *)
Lemma refused_silent c cp st n e stn :
  tr !! c = Some (Dispatch (connect cp), st) ->
  isActiveConnection st (key (connectionInfo (config cp))) = true
  \/ isConnecting st (key (connectionInfo (config cp))) = true ->
  tr !! n = Some (e, stn) -> socketOf e = Some c ->
  Rx.values (epic n) = [].
Proof.
  intros Hl Hrefused Hn Hs. apply values_nil. intros a Ha.
  apply connectEpic_elem in Ha
    as (c' & cp' & st' & a' & [= <-] & _ & Hl' & Ha' & Hb' & Ha).
  assert (c = c') as <- by (by eapply ws_own_socket).
  rewrite Hl in Hl'. simplify_eq. destruct Hrefused; congruence.
Qed.

End Guard.

(** C3: [connectEpic] subscribes a connection stream, and with it creates a
    socket, for a [connect] action exactly when the state shows, for the
    connection key of the action, no active connection ([active[key]] is
    not true) and no connection in progress ([connecting[key]] is not above
    one: the store has counted the action itself).  Nothing is ever
    delivered for the socket of a request that was refused, and the opening
    of the socket of an accepted one is reported as long as its connection
    has not been reported disconnected.  Provided the store tracks the
    connections, a request is accepted exactly when the connection is not
    tracked as active and the request is the first since the connection was
    last reported connected or disconnected; and no two connection streams
    for the same key are ever open together. *)
Theorem connection_guard (getSubsId : Value -> string)
    (JSON_parse : Value -> Completion Value) (cacheEnv : nat -> CacheEnv)
    (tr : Trace) :
  storeTracksConnections tr = true ->
  let epic := connectEpic getSubsId JSON_parse cacheEnv tr in
  let opened := openConnections getSubsId JSON_parse cacheEnv tr in
  (forall c cp st,
     tr !! c = Some (Dispatch (connect cp), st) ->
     let k := key (connectionInfo (config cp)) in
     ((c, k) ∈ opened c <->
      default false (active (connections st) !! k) = false
      /\ forall z, connecting (connections st) !! k = Some z -> (z <= 1)%Z)
     /\ ((c, k) ∈ opened c <->
         trackedActive (trackedAt tr k c) = false
         /\ trackedConnecting (trackedAt tr k c) = 1%Z))
  /\ (forall c cp st n e stn,
        tr !! c = Some (Dispatch (connect cp), st) ->
        let k := key (connectionInfo (config cp)) in
        default false (active (connections st) !! k) = true
        \/ (exists z, connecting (connections st) !! k = Some z /\ (1 < z)%Z) ->
        tr !! n = Some (e, stn) -> socketOf e = Some c ->
        Rx.values (epic n) = [])
  /\ (forall c cp st n stn,
        tr !! c = Some (Dispatch (connect cp), st) ->
        (c, key (connectionInfo (config cp))) ∈ opened n ->
        tr !! n = Some (SocketOpen c, stn) ->
        connected cp ∈ Rx.values (epic n))
  /\ (forall n c1 c2 k, (c1, k) ∈ opened n -> (c2, k) ∈ opened n -> c1 = c2).
Proof.
  intros Htracks epic opened. unfold epic, opened. clear epic opened. split_and!.
  - intros c cp st Hl. cbv zeta. split.
    + rewrite (opened_at _ _ _ _ c cp st Hl). apply guard_reads.
    + rewrite (opened_at _ _ _ _ c cp st Hl).
      destruct (storeTracksConnections_spec tr c cp st Htracks Hl) as [Ha Hb].
      rewrite Ha.
      destruct (trackedActive (trackedAt tr (key (connectionInfo (config cp))) c))
        eqn:Hact; [by split; intros [? _]|].
      specialize (Hb eq_refl). clear Hact. unfold isConnecting.
      pose proof (trackedBefore_nonneg tr (key (connectionInfo (config cp))) c) as Hnn.
      rewrite (trackedAt_step tr _ c _ st Hl) in Hb |- *. simpl in Hb |- *.
      rewrite String.eqb_refl in Hb |- *. simpl in Hb |- *.
      destruct (connecting (connections st) !! key (connectionInfo (config cp)))
        as [z|]; simpl in Hb.
      * split.
        -- intros [? Hz%Z.ltb_ge]. split; [done|lia].
        -- intros [? Hz]. split; [done|]. apply Z.ltb_ge. lia.
      * split; [lia|]. intros [? ?]. lia.
  - intros c cp st n e stn Hl. cbv zeta. intros Hrefused Hn Hs.
    apply (refused_silent _ _ _ _ c cp st n e stn); [done| |done..].
    unfold isActiveConnection, isConnecting.
    destruct Hrefused as [?|(z & -> & Hz)]; [by left|right]. by apply Z.ltb_lt.
  - intros c cp st n stn Hl Hopen Hn.
    apply opened_elem in Hopen as (cp' & Hlive & _).
    pose proof Hlive as (_ & (st' & Hl' & _) & Hconn)%liveConnections_elem.
    rewrite Hl in Hl'. simplify_eq.
    apply (connectEpic_delivers_live _ _ _ _ n c cp'); [done|].
    rewrite ws_values_live, Hconn. apply elem_of_app. left.
    rewrite (open_at _ _ _ _ _ stn) by done. destruct cp'. left.
  - assert (forall n c1 c2 k, c1 < c2 ->
              (c1, k) ∈ openConnections getSubsId JSON_parse cacheEnv tr n ->
              (c2, k) ∈ openConnections getSubsId JSON_parse cacheEnv tr n ->
              False) as Hlt.
    { intros n c1 c2 k Hc H1 H2.
      apply opened_elem in H1 as (cp1 & Hlive1 & Hk1).
      apply opened_elem in H2 as (cp2 & Hlive2 & Hk2).
      apply liveConnections_elem in Hlive1 as (_ & (st1 & Hl1 & _) & Hconn1).
      apply liveConnections_elem in Hlive2 as (Hn2 & (st2 & Hl2 & Ha2 & Hb2) & _).
      destruct (storeTracksConnections_spec tr c2 cp2 st2 Htracks Hl2) as [Ha Hb].
      rewrite <- Hk2 in *. rewrite <- Hk1 in Hconn1.
      destruct (tracked_again tr k c1 cp1 st1 c2 cp2 st2) as [Hact|Hcount];
        [done|done|done|done|done| | |].
      - by apply (allBetween_shorter tr _ c1 (S n) c2 ltac:(lia)).
      - congruence.
      - rewrite Ha in Ha2. specialize (Hb Ha2). unfold isConnecting in Hb2.
        destruct (connecting (connections st2) !! k) as [z|]; simpl in Hb; [|lia].
        apply Z.ltb_ge in Hb2. lia. }
    intros n c1 c2 k H1 H2.
    destruct (Nat.lt_trichotomy c1 c2) as [?|[?|?]]; [|done|]; exfalso; eauto.
Qed.

Lemma connection_guard_witness :
  storeTracksConnections Sessions.guardRun = true
  /\ Rx.values (connectEpic Scenario.getSubsId Scenario.JSON_parse Scenario.cacheOk
                  Sessions.guardRun 3) = []
  /\ connected Scenario.connectPayload
       ∈ Rx.values (connectEpic Scenario.getSubsId Scenario.JSON_parse
                      Scenario.cacheOk Sessions.guardRun 2).
Proof.
  split; [vm_compute; reflexivity|].
  destruct (connection_guard Scenario.getSubsId Scenario.JSON_parse Scenario.cacheOk
              Sessions.guardRun ltac:(vm_compute; reflexivity))
    as (_ & Hrefused & Haccepted & _).
  split.
  - apply (Hrefused 1 Scenario.connectPayload Sessions.stateConnectingTwice 3
             (SocketOpen 1) Sessions.stateConnectingTwice eq_refl); [|reflexivity..].
    right. exists 2%Z. split; [vm_compute; reflexivity|reflexivity].
  - apply (Haccepted 0 Scenario.connectPayload Scenario.stateConnecting 2
             Sessions.stateConnectingTwice eq_refl); [|reflexivity].
    apply (bool_decide_unpack _). vm_compute. exact I.
Defined.

(** ** The subscription requests of a connection stream *)

Section SubscribeRequests.
Variable getSubsId : Value -> string.
Variable JSON_parse : Value -> Completion Value.
Variable cacheEnv : nat -> CacheEnv.
Variable tr : Trace.
Variable c : nat.
Variable connectionKey : string.
Variable cfg : WSConfig.
Variable handler : WSHandler.t.



End SubscribeRequests.


